(** * hassil: the template matcher of [hassil/recognize.py]

    A shallow embedding of [hassil.recognize]: the text helpers, the
    entity and context objects, the generator [match_expression] and the
    drivers [recognize_all] / [recognize], followed by the properties
    that the specification states about them.

    Python objects that the code mutates in place (match entities,
    unmatched entities, the lists that hold them, match contexts) live in
    an explicit heap and are referred to by address, so that two contexts
    built with [entities=context.entities] really share one list and its
    entities.  Generators are resumptions: every [yield] hands the heap
    to the consumer and continues from the heap that the consumer gives
    back. *)

From Stdlib Require Import String Ascii.
From Stdlib Require Import List Bool Arith ZArith NArith Lia.
Import ListNotations.

Set Implicit Arguments.
Set Warnings "-register-all".

(* ================================================================== *)
(** ** Text: Python [str] as a sequence of code points *)
(* ================================================================== *)

Definition char := N.
Definition str := list char.

(** ASCII literals of the development, as code points. *)
Definition u (s : string) : str := map N_of_ascii (list_ascii_of_string s).

Module Text.

Open Scope N_scope.

(** The white space class of [str.strip], [str.isspace], [str.split]
    and of [\s] in a [str] pattern. *)
Definition is_space (c : char) : bool :=
  ((9 <=? c) && (c <=? 13)) || ((28 <=? c) && (c <=? 32))
  || (c =? 133) || (c =? 160) || (c =? 5760)
  || ((8192 <=? c) && (c <=? 8202))
  || (c =? 8232) || (c =? 8233) || (c =? 8239) || (c =? 8287)
  || (c =? 12288).

(** The characters of [PUNCTUATION]:  . 。 , ， ? ¿ ？ ؟ ! ！ ; ； : ：  *)
Definition is_punctuation (c : char) : bool :=
  (c =? 46) || (c =? 12290) || (c =? 44) || (c =? 65292)
  || (c =? 63) || (c =? 191) || (c =? 65311) || (c =? 1567)
  || (c =? 33) || (c =? 65281) || (c =? 59) || (c =? 65307)
  || (c =? 58) || (c =? 65306).

(** [[0-9]] *)
Definition is_digit (c : char) : bool := (48 <=? c) && (c <=? 57).

Close Scope N_scope.

Definition eqb (a b : str) : bool :=
  if list_eq_dec N.eq_dec a b then true else false.

(** [bool(s)] *)
Definition truthy (s : str) : bool :=
  match s with [] => false | _ :: _ => true end.

Fixpoint lstrip (s : str) : str :=
  match s with
  | c :: r => if is_space c then lstrip r else s
  | [] => []
  end.

Definition rstrip (s : str) : str := rev (lstrip (rev s)).

Definition strip (s : str) : str := rstrip (lstrip s).

(** [WHITESPACE.sub("", s)] *)
Definition remove_whitespace (s : str) : str :=
  filter (fun c => negb (is_space c)) s.

(** [PUNCTUATION.sub("", s)] *)
Definition remove_punctuation (s : str) : str :=
  filter (fun c => negb (is_punctuation c)) s.

Fixpoint startswith (s p : str) : bool :=
  match p, s with
  | [], _ => true
  | _ :: _, [] => false
  | a :: p', b :: s' => N.eqb a b && startswith s' p'
  end.

Definition endswith (s p : str) : bool := startswith (rev s) (rev p).

(** [s.isspace()] *)
Definition isspace (s : str) : bool := truthy s && forallb is_space s.

(** [s.find(sub)]: [None] stands for [-1]. *)
Fixpoint find (s sub : str) : option nat :=
  if startswith s sub then Some 0
  else match s with
       | [] => None
       | _ :: r => option_map S (find r sub)
       end.

(** [s.find(sub, start)] *)
Definition find_from (s sub : str) (start : nat) : option nat :=
  if length s <? start then None
  else option_map (Nat.add start) (find (skipn start s) sub).

(** [s[:i]], [s[i:]] and [s[:-k]] for [k > 0]. *)
Definition slice_to (s : str) (i : nat) : str := firstn i s.
Definition slice_from (s : str) (i : nat) : str := skipn i s.
Definition slice_to_neg (s : str) (k : nat) : str := firstn (length s - k) s.

Fixpoint span (p : char -> bool) (s : str) : str * str :=
  match s with
  | c :: r => if p c then let (a, b) := span p r in (c :: a, b) else ([], s)
  | [] => ([], [])
  end.

(** [s.split()[0]]; [None] is the [IndexError] of an empty split. *)
Definition split_first (s : str) : option str :=
  match fst (span (fun c => negb (is_space c)) (lstrip s)) with
  | [] => None
  | w => Some w
  end.

(** Group 1 of [NUMBER_START.match(s)], for
    [NUMBER_START = re.compile(r"^(\s*-?[0-9]+)")]. *)
Definition number_start (s : str) : option str :=
  let (ws, r1) := span is_space s in
  let (sign, r2) :=
    match r1 with
    | c :: r => if N.eqb c 45 then ([c], r) else ([], r1)
    | [] => ([], r1)
    end in
  match fst (span is_digit r2) with
  | [] => None
  | ds => Some (ws ++ sign ++ ds)
  end.

Definition digits_value (ds : str) : Z :=
  fold_left (fun acc c => (10 * acc + (Z.of_N c - 48))%Z) ds 0%Z.

(** The white space that [int] skips around a literal: the ASCII white
    space of C (tab to carriage return, and the space) and the Unicode
    white space beyond ASCII, which [int] reads as a space.  U+001C to
    U+001F are white space for [str.isspace] and for [\s], and not for
    [int]. *)
Definition is_int_space (c : char) : bool :=
  is_space c && negb ((28 <=? c)%N && (c <=? 31)%N).

Fixpoint lstrip_int (s : str) : str :=
  match s with
  | c :: r => if is_int_space c then lstrip_int r else s
  | [] => []
  end.

(** [sys.get_int_max_str_digits()] as the interpreter starts: the most
    digits that [int] converts from a [str] (CPython 3.11 and later, and
    the security releases of 3.7 to 3.10). *)
Definition int_max_str_digits : Z := 4300.

(** [int(s)] on the strings that [NUMBER_START] produces: white space,
    an optional minus sign, ASCII digits.  [None] is [ValueError]: of a
    character that is no white space for [int] in front of the number,
    or of more digits than [int_max_str_digits]. *)
Definition int (s : str) : option Z :=
  match rev (lstrip_int (rev (lstrip_int s))) with
  | c :: ds =>
      if N.eqb c 45 then
        if truthy ds && forallb is_digit ds
           && (Z.of_nat (length ds) <=? int_max_str_digits)%Z
        then Some (- digits_value ds)%Z else None
      else if forallb is_digit (c :: ds)
              && (Z.of_nat (length (c :: ds)) <=? int_max_str_digits)%Z
      then Some (digits_value (c :: ds)) else None
  | [] => None
  end.

End Text.

(* ================================================================== *)
(** ** Values of type [Any] and dictionaries *)
(* ================================================================== *)

(** The values that context predicates, slot values and entity values
    range over. *)
Inductive Any : Type :=
| VNone
| VInt (n : Z)
| VStr (s : str)
| VList (l : list Any).

(** Python [==] on these values. *)
Fixpoint value_eqb (a b : Any) {struct a} : bool :=
  match a, b with
  | VNone, VNone => true
  | VInt n, VInt m => Z.eqb n m
  | VStr s, VStr t => Text.eqb s t
  | VList l, VList m =>
      (fix list_eqb (l m : list Any) {struct l} : bool :=
         match l, m with
         | [], [] => true
         | x :: l', y :: m' => value_eqb x y && list_eqb l' m'
         | _, _ => false
         end) l m
  | _, _ => false
  end.

(** [isinstance(v, collections.abc.Collection)]: strings are
    collections too. *)
Definition is_collection (v : Any) : bool :=
  match v with VStr _ | VList _ => true | _ => false end.

Definition is_str (v : Any) : bool :=
  match v with VStr _ => true | _ => false end.

Definition is_none (v : Any) : bool :=
  match v with VNone => true | _ => false end.

(** [s in t] on strings. *)
Definition is_substring (s t : str) : bool :=
  match Text.find t s with Some _ => true | None => false end.

(** [x in container]; [None] is the [TypeError] of a non-string looked
    up in a string, or of a container that is no collection. *)
Definition value_in (x container : Any) : option bool :=
  match container with
  | VList l => Some (existsb (value_eqb x) l)
  | VStr t => match x with
              | VStr s => Some (is_substring s t)
              | _ => None
              end
  | _ => None
  end.

(** Python dictionaries keep insertion order; the loops over [.items()]
    below stop at the first offending entry, so the order is kept. *)
Definition dict (V : Type) : Type := list (str * V).

Section Dict.
Variable V : Type.

Fixpoint dict_get (d : dict V) (k : str) : option V :=
  match d with
  | [] => None
  | (k', v) :: r => if Text.eqb k' k then Some v else dict_get r k
  end.

Definition dict_mem (d : dict V) (k : str) : bool :=
  match dict_get d k with Some _ => true | None => false end.

(** [d[k] = v]: an existing key keeps its position. *)
Fixpoint dict_set (d : dict V) (k : str) (v : V) : dict V :=
  match d with
  | [] => [(k, v)]
  | (k', v') :: r =>
      if Text.eqb k' k then (k', v) :: r else (k', v') :: dict_set r k v
  end.

(** [{**a, **b}] *)
Definition dict_merge (a b : dict V) : dict V :=
  fold_left (fun d kv => dict_set d (fst kv) (snd kv)) b a.

(** [bool(d)] *)
Definition dict_truthy (d : dict V) : bool :=
  match d with [] => false | _ :: _ => true end.
End Dict.

(* ================================================================== *)
(** ** Expressions, slot lists, intents *)
(* ================================================================== *)

Inductive SequenceType : Type := GROUP | ALTERNATIVE.

(** Modelled from the spec: the expression classes, declared in
    [hassil/expression.py]; the variants are those of the data model of
    the specification and the fields are the ones that [recognize.py]
    reads ([chunk.text], [seq.type], [seq.items], [list_ref.list_name],
    [list_ref.slot_name], [rule_ref.rule_name]).  A [Sentence] is a
    [Sequence]. *)
Inductive Expression : Type :=
| TextChunk (text : str)
| Sequence (type : SequenceType) (items : list Expression)
| ListReference (list_name : str) (slot_name : str)
| RuleReference (rule_name : str).

(** Modelled from the spec: [TextChunk.is_empty], a property declared in
    [hassil/expression.py]; the chunk is a placeholder exactly when its
    literal text is empty. *)
Definition is_empty (chunk_text : str) : bool := negb (Text.truthy chunk_text).

(** Modelled from the spec: [TextSlotValue], declared in
    [hassil/intents.py]: an input expression, an output value and an
    optional context overlay. *)
Module TextSlotValue.
Record t : Type := mk {
  text_in : Expression;
  value_out : Any;
  context : option (dict Any)
}.
End TextSlotValue.

(** Modelled from the spec: the slot list classes, declared in
    [hassil/intents.py]; a range is given by [start], [stop] and
    [step]. *)
Inductive SlotList : Type :=
| TextSlotList (values : list TextSlotValue.t)
| RangeSlotList (start stop step : Z)
| WildcardSlotList.

(** Modelled from the spec: [IntentData], [Intent] and [Intents],
    declared in [hassil/intents.py], with the fields that
    [recognize.py] reads. *)
Module IntentData.
Record t : Type := mk {
  sentences : list Expression;
  slots : dict Any;
  response : option str;
  requires_context : dict Any;
  excludes_context : dict Any;
  expansion_rules : dict Expression
}.
End IntentData.

Module Intent.
Record t : Type := mk {
  name : str;
  data : list IntentData.t
}.
End Intent.

Module Intents.
Record t : Type := mk {
  intents : dict Intent.t;
  slot_lists : dict SlotList;
  expansion_rules : dict Expression;
  skip_words : list str;
  ignore_whitespace : bool     (* [intents.settings.ignore_whitespace] *)
}.
End Intents.

(* ================================================================== *)
(** ** Entities, settings, contexts *)
(* ================================================================== *)

(** Addresses of heap objects. *)
Definition addr := nat.

Module MatchEntity.
Record t : Type := mk {
  name : str;
  value : Any;
  text : str;
  is_wildcard : bool;
  is_wildcard_open : bool
}.

Definition set_open (e : t) (b : bool) : t :=
  mk (name e) (value e) (text e) (is_wildcard e) b.

Definition set_text (e : t) (s : str) : t :=
  mk (name e) (value e) s (is_wildcard e) (is_wildcard_open e).

Definition set_value (e : t) (v : Any) : t :=
  mk (name e) v (text e) (is_wildcard e) (is_wildcard_open e).

(** Never read through a dangling address. *)
Definition null : t := mk [] VNone [] false false.
End MatchEntity.

Inductive UnmatchedEntity : Type :=
| UnmatchedTextEntity (name : str) (text : str) (is_open : bool)
| UnmatchedRangeEntity (name : str) (value : Z).

Definition unmatched_name (e : UnmatchedEntity) : str :=
  match e with
  | UnmatchedTextEntity n _ _ => n
  | UnmatchedRangeEntity n _ => n
  end.

Module MatchSettings.
Record t : Type := mk {
  slot_lists : dict SlotList;
  expansion_rules : dict Expression;
  ignore_whitespace : bool;
  allow_unmatched_entities : bool
}.
End MatchSettings.

(** A [MatchContext] object.  [entities] and [unmatched_entities] are
    the addresses of list objects; [intent_context] is only ever
    replaced by a fresh dictionary, never updated in place. *)
Module MatchContext.
Record t : Type := mk {
  text : str;
  entities : addr;
  intent_context : dict Any;
  is_start_of_word : bool;
  unmatched_entities : addr
}.

Definition set_text (c : t) (s : str) : t :=
  mk s (entities c) (intent_context c) (is_start_of_word c)
     (unmatched_entities c).

Definition null : t := mk [] 0 [] true 0.
End MatchContext.

(* ================================================================== *)
(** ** The heap *)
(* ================================================================== *)

Record Heap : Type := mkHeap {
  entity_objs : list MatchEntity.t;
  unmatched_objs : list UnmatchedEntity;
  entity_lists : list (list addr);
  unmatched_lists : list (list addr);
  context_objs : list MatchContext.t
}.

Definition empty_heap : Heap := mkHeap [] [] [] [] [].

(** [l[n] = x] on a store; addresses are always allocated ones. *)
Fixpoint upd (A : Type) (l : list A) (n : nat) (x : A) : list A :=
  match l, n with
  | [], _ => []
  | _ :: r, 0 => x :: r
  | y :: r, S n' => y :: upd r n' x
  end.

Definition get_entity (h : Heap) (a : addr) : MatchEntity.t :=
  nth a (entity_objs h) MatchEntity.null.

Definition get_unmatched (h : Heap) (a : addr) : UnmatchedEntity :=
  nth a (unmatched_objs h) (UnmatchedRangeEntity [] 0).

Definition get_entity_list (h : Heap) (a : addr) : list addr :=
  nth a (entity_lists h) [].

Definition get_unmatched_list (h : Heap) (a : addr) : list addr :=
  nth a (unmatched_lists h) [].

Definition get_context (h : Heap) (a : addr) : MatchContext.t :=
  nth a (context_objs h) MatchContext.null.

Definition set_entity (h : Heap) (a : addr) (e : MatchEntity.t) : Heap :=
  mkHeap (upd (entity_objs h) a e) (unmatched_objs h) (entity_lists h)
         (unmatched_lists h) (context_objs h).

Definition set_unmatched (h : Heap) (a : addr) (e : UnmatchedEntity) : Heap :=
  mkHeap (entity_objs h) (upd (unmatched_objs h) a e) (entity_lists h)
         (unmatched_lists h) (context_objs h).

Definition set_entity_list (h : Heap) (a : addr) (l : list addr) : Heap :=
  mkHeap (entity_objs h) (unmatched_objs h) (upd (entity_lists h) a l)
         (unmatched_lists h) (context_objs h).

Definition set_unmatched_list (h : Heap) (a : addr) (l : list addr) : Heap :=
  mkHeap (entity_objs h) (unmatched_objs h) (entity_lists h)
         (upd (unmatched_lists h) a l) (context_objs h).

Definition set_context (h : Heap) (a : addr) (c : MatchContext.t) : Heap :=
  mkHeap (entity_objs h) (unmatched_objs h) (entity_lists h)
         (unmatched_lists h) (upd (context_objs h) a c).

Definition alloc_entity (h : Heap) (e : MatchEntity.t) : addr * Heap :=
  (length (entity_objs h),
   mkHeap (entity_objs h ++ [e]) (unmatched_objs h) (entity_lists h)
          (unmatched_lists h) (context_objs h)).

Definition alloc_unmatched (h : Heap) (e : UnmatchedEntity) : addr * Heap :=
  (length (unmatched_objs h),
   mkHeap (entity_objs h) (unmatched_objs h ++ [e]) (entity_lists h)
          (unmatched_lists h) (context_objs h)).

Definition alloc_entity_list (h : Heap) (l : list addr) : addr * Heap :=
  (length (entity_lists h),
   mkHeap (entity_objs h) (unmatched_objs h) (entity_lists h ++ [l])
          (unmatched_lists h) (context_objs h)).

Definition alloc_unmatched_list (h : Heap) (l : list addr) : addr * Heap :=
  (length (unmatched_lists h),
   mkHeap (entity_objs h) (unmatched_objs h) (entity_lists h)
          (unmatched_lists h ++ [l]) (context_objs h)).

Definition alloc_context (h : Heap) (c : MatchContext.t) : addr * Heap :=
  (length (context_objs h),
   mkHeap (entity_objs h) (unmatched_objs h) (entity_lists h)
          (unmatched_lists h) (context_objs h ++ [c])).

(** [entity.is_wildcard_open = False] *)
Definition close_wildcard_step (h : Heap) (a : addr) : Heap :=
  set_entity h a (MatchEntity.set_open (get_entity h a) false).

(** [for entity in self.entities: entity.is_wildcard_open = False] *)
Definition close_wildcards_of (h : Heap) (entities : addr) : Heap :=
  fold_left close_wildcard_step (get_entity_list h entities) h.

Definition close_unmatched_entity (e : UnmatchedEntity) : UnmatchedEntity :=
  match e with
  | UnmatchedTextEntity n t _ => UnmatchedTextEntity n t false
  | UnmatchedRangeEntity _ _ => e
  end.

Definition close_unmatched_step (h : Heap) (a : addr) : Heap :=
  set_unmatched h a (close_unmatched_entity (get_unmatched h a)).

(** [for e in self.unmatched_entities: if isinstance(e,
    UnmatchedTextEntity): e.is_open = False] *)
Definition close_unmatched_of (h : Heap) (unmatched_entities : addr) : Heap :=
  fold_left close_unmatched_step (get_unmatched_list h unmatched_entities) h.

(** [MatchContext(text=..., ...)]: the dataclass constructor followed by
    [__post_init__], which closes the entities of the lists it was
    given. *)
Definition new_MatchContext (h : Heap) (text : str) (entities : addr)
    (intent_context : dict Any) (is_start_of_word : bool)
    (unmatched_entities : addr) (close_wildcards close_unmatched : bool)
  : addr * Heap :=
  let h1 := if close_wildcards then close_wildcards_of h entities else h in
  let h2 := if close_unmatched
            then close_unmatched_of h1 unmatched_entities else h1 in
  alloc_context h2
    (MatchContext.mk text entities intent_context is_start_of_word
                     unmatched_entities).

(** [MatchContext.is_match] *)
Definition is_match (h : Heap) (self : addr) : bool :=
  let c := get_context h self in
  if Text.truthy (Text.strip (Text.remove_punctuation (MatchContext.text c)))
  then false
  else if existsb
            (fun a => let entity := get_entity h a in
                      MatchEntity.is_wildcard entity
                      && negb (Text.truthy (Text.strip (MatchEntity.text entity))))
            (get_entity_list h (MatchContext.entities c))
  then false
  else if existsb
            (fun a => match get_unmatched h a with
                      | UnmatchedTextEntity _ t _ =>
                          negb (Text.truthy (Text.strip t))
                      | UnmatchedRangeEntity _ _ => false
                      end)
            (get_unmatched_list h (MatchContext.unmatched_entities c))
  then false
  else true.

(** [MatchContext.get_open_wildcard]: the address of the last entity
    when it is an open wildcard. *)
Definition get_open_wildcard (h : Heap) (self : addr) : option addr :=
  match rev (get_entity_list h (MatchContext.entities (get_context h self))) with
  | [] => None
  | last_entity :: _ =>
      if MatchEntity.is_wildcard (get_entity h last_entity)
         && MatchEntity.is_wildcard_open (get_entity h last_entity)
      then Some last_entity else None
  end.

(** [MatchContext.get_open_entity] *)
Definition get_open_entity (h : Heap) (self : addr) : option addr :=
  match rev (get_unmatched_list h
               (MatchContext.unmatched_entities (get_context h self))) with
  | [] => None
  | last_entity :: _ =>
      match get_unmatched h last_entity with
      | UnmatchedTextEntity _ _ true => Some last_entity
      | _ => None
      end
  end.

(* ================================================================== *)
(** ** Exceptions and generators *)
(* ================================================================== *)

Inductive Error : Type :=
| MissingListError (msg : str)
| MissingRuleError (msg : str)
| ValueError
| TypeError
| IndexError.








(** A running generator.  [GYield a h k]: the generator body ran up to a
    [yield a], leaving the heap [h]; when the consumer asks for the next
    item the body continues as [k h'] from the heap [h'] the consumer
    left.  [GStop]: the body returned.  [GRaise]: it raised.
    [GDiverge]: the recursion did not come back within the budget of the
    model (CPython ends such a run with [RecursionError]). *)
Inductive Gen (A : Type) : Type :=
| GStop (h : Heap)
| GRaise (e : Error) (h : Heap)
| GDiverge
| GYield (a : A) (h : Heap) (k : Heap -> Gen A).

Arguments GStop {A} h.
Arguments GRaise {A} e h.
Arguments GDiverge {A}.

(** What a statement that consumes a generator ends with. *)
Inductive Result (A : Type) : Type :=
| Return (a : A) (h : Heap)
| Raise (e : Error) (h : Heap)
| Diverge.

Arguments Raise {A} e h.
Arguments Diverge {A}.

Section Generators.
Variable A : Type.

(** [yield from g], then the rest of the body. *)
Fixpoint yield_from (g : Gen A) (rest : Heap -> Gen A) : Gen A :=
  match g with
  | GStop h => rest h
  | GRaise e h => GRaise e h
  | GDiverge => GDiverge
  | GYield a h k => GYield a h (fun h' => yield_from (k h') rest)
  end.

(** [for a in l: yield a] *)
Fixpoint yield_each (l : list A) (h : Heap) : Gen A :=
  match l with
  | [] => GStop h
  | a :: r => GYield a h (fun h' => yield_each r h')
  end.

(** [[a for a in g]]: the consumer takes every item and touches nothing
    in between. *)
Fixpoint collect (g : Gen A) : Result (list A) :=
  match g with
  | GStop h => Return [] h
  | GRaise e h => Raise e h
  | GDiverge => Diverge
  | GYield a h k =>
      match collect (k h) with
      | Return l h' => Return (a :: l) h'
      | Raise e h' => Raise e h'
      | Diverge => Diverge
      end
  end.

End Generators.

(** [[b for a in l for b in f(a)]] *)
Fixpoint collect_flat (A B : Type) (f : A -> Heap -> Gen B) (l : list A)
    (h : Heap) : Result (list B) :=
  match l with
  | [] => Return [] h
  | a :: r =>
      match collect (f a h) with
      | Return l1 h1 =>
          match collect_flat f r h1 with
          | Return l2 h2 => Return (l1 ++ l2) h2
          | Raise e h2 => Raise e h2
          | Diverge => Diverge
          end
      | Raise e h1 => Raise e h1
      | Diverge => Diverge
      end
  end.

(* ================================================================== *)
(** ** [match_expression] *)
(* ================================================================== *)

Section Matcher.

Variable settings : MatchSettings.t.

(** The [while start_idx > 0:] loop of the branch for an open, still
    empty wildcard.  [start_idx] is [None] for [-1]; [budget] bounds the
    number of rounds by the length of [context_text], which the
    increasing [start_idx] cannot exceed. *)
Fixpoint wildcard_splits (budget : nat) (self : addr -> Heap -> Gen addr)
    (context wildcard : addr) (chunk_text context_text : str)
    (start_idx : option nat) (h : Heap) {struct budget} : Gen addr :=
  match start_idx with
  | None | Some 0 => GStop h
  | Some i =>
      match budget with
      | 0 => GDiverge
      | S budget' =>
          let wildcard_text := Text.slice_to context_text i in
          let c := get_context h context in
          let (entity, h1) :=
            alloc_entity h
              (MatchEntity.mk (MatchEntity.name (get_entity h wildcard))
                              (VStr wildcard_text) wildcard_text false true) in
          let (entities, h2) :=
            alloc_entity_list h1
              (removelast (get_entity_list h (MatchContext.entities c))
               ++ [entity]) in
          let (c', h3) :=
            new_MatchContext h2 (Text.slice_from context_text i) entities
              (MatchContext.intent_context c) true
              (MatchContext.unmatched_entities c) false false in
          yield_from (self c' h3)
            (fun h' =>
               wildcard_splits budget' self context wildcard chunk_text
                 context_text
                 (Text.find_from context_text chunk_text (i + 1)) h')
      end
  end.

(** The branch [if (wildcard is not None) and (not wildcard.text.strip())]. *)
Definition chunk_after_open_wildcard (self : addr -> Heap -> Gen addr)
    (context wildcard : addr) (chunk_text context_text : str) (h : Heap)
  : Gen addr :=
  let c := get_context h context in
  if negb (Text.truthy (Text.strip chunk_text)) then
    let (c', h') :=
      new_MatchContext h context_text (MatchContext.entities c)
        (MatchContext.intent_context c) true
        (MatchContext.unmatched_entities c) false false in
    GYield c' h' GStop
  else
    let start_idx :=
      match Text.find context_text chunk_text with
      | Some 0 => Text.find_from context_text chunk_text 1
      | other => other
      end in
    wildcard_splits (length context_text) self context wildcard chunk_text
      context_text start_idx h.

(** The rest of the [TextChunk] branch, from
    [if context_text.startswith(chunk_text):] on. *)
Definition chunk_plain (context : addr) (chunk_raw chunk_text context_text : str)
    (is_context_text_empty : bool) (wildcard : option addr) (h : Heap)
  : Gen addr :=
  let c := get_context h context in
  if Text.startswith context_text chunk_text then
    let context_text := Text.slice_from context_text (length chunk_text) in
    let is_chunk_word :=
      Text.truthy chunk_text && negb (Text.isspace chunk_text) in
    let (c', h') :=
      new_MatchContext h context_text (MatchContext.entities c)
        (MatchContext.intent_context c) (Text.endswith chunk_raw (u " "))
        (MatchContext.unmatched_entities c) is_chunk_word is_chunk_word in
    GYield c' h' GStop
  else if is_context_text_empty && Text.isspace chunk_text then
    GYield context h GStop
  else
    let context_text := Text.remove_punctuation (MatchContext.text c) in
    let context_starts_with := Text.startswith context_text chunk_text in
    let '(context_text, context_starts_with) :=
      if negb context_starts_with && MatchContext.is_start_of_word c
      then (Text.lstrip context_text,
            Text.startswith (Text.lstrip context_text) chunk_text)
      else (context_text, context_starts_with) in
    if context_starts_with then
      let (c', h') :=
        new_MatchContext h (Text.slice_from context_text (length chunk_text))
          (MatchContext.entities c) (MatchContext.intent_context c)
          (MatchContext.is_start_of_word c)
          (MatchContext.unmatched_entities c) false false in
      GYield c' h' GStop
    else
      match wildcard with
      | Some w =>
          match Text.find context_text chunk_text with
          | Some skip_idx =>
              let new_text :=
                MatchEntity.text (get_entity h w)
                ++ Text.slice_to context_text skip_idx in
              let h1 :=
                set_entity h w (MatchEntity.set_text (get_entity h w) new_text) in
              if Text.truthy new_text then
                let h2 :=
                  set_entity h1 w
                    (MatchEntity.set_value (get_entity h1 w) (VStr new_text)) in
                let (c', h3) :=
                  new_MatchContext h2
                    (Text.slice_from (MatchContext.text c)
                                     (skip_idx + length chunk_text))
                    (MatchContext.entities c) (MatchContext.intent_context c)
                    true (MatchContext.unmatched_entities c) false false in
                GYield c' h3 GStop
              else GStop h1
          | None => GStop h
          end
      | None =>
          if MatchSettings.allow_unmatched_entities settings then
            match get_open_entity h context with
            | Some unmatched_entity =>
                match Text.find context_text chunk_text with
                | Some skip_idx =>
                    match get_unmatched h unmatched_entity with
                    | UnmatchedTextEntity n t o =>
                        let new_text := t ++ Text.slice_to context_text skip_idx in
                        let h1 :=
                          set_unmatched h unmatched_entity
                            (UnmatchedTextEntity n new_text o) in
                        if Text.truthy new_text then
                          let (c', h2) :=
                            new_MatchContext h1
                              (Text.slice_from (MatchContext.text c)
                                               (skip_idx + length chunk_text))
                              (MatchContext.entities c)
                              (MatchContext.intent_context c) true
                              (MatchContext.unmatched_entities c) false false in
                          GYield c' h2 GStop
                        else GStop h1
                    | UnmatchedRangeEntity _ _ => GStop h
                    end
                | None => GStop h
                end
            | None => GStop h
            end
          else GStop h
      end.

(** The [TextChunk] branch.  [self] is [match_expression] on the same
    expression. *)
Definition match_text_chunk (self : addr -> Heap -> Gen addr)
    (context : addr) (chunk_raw : str) (h : Heap) : Gen addr :=
  let c := get_context h context in
  let '(chunk_text, context_text) :=
    if MatchSettings.ignore_whitespace settings
    then (Text.remove_whitespace chunk_raw,
          Text.remove_whitespace (MatchContext.text c))
    else if MatchContext.is_start_of_word c
    then (Text.lstrip chunk_raw, Text.lstrip (MatchContext.text c))
    else (chunk_raw, MatchContext.text c) in
  let is_context_text_empty := length (Text.strip context_text) =? 0 in
  if is_empty chunk_raw then GYield context h GStop
  else
    match get_open_wildcard h context with
    | Some wildcard =>
        if negb (Text.truthy (Text.strip (MatchEntity.text (get_entity h wildcard))))
        then chunk_after_open_wildcard self context wildcard chunk_text
               context_text h
        else chunk_plain context chunk_raw chunk_text context_text
               is_context_text_empty (Some wildcard) h
    | None =>
        chunk_plain context chunk_raw chunk_text context_text
          is_context_text_empty None h
    end.

(** [for item in seq.items: yield from match_expression(settings,
    context, item)] *)
Fixpoint match_alternative (recur : Expression -> Heap -> Gen addr)
    (items : list Expression) (h : Heap) : Gen addr :=
  match items with
  | [] => GStop h
  | item :: rest =>
      yield_from (recur item h) (fun h' => match_alternative recur rest h')
  end.

(** The [for item in seq.items:] loop of a GROUP, with its [break]. *)
Fixpoint group_loop (recur : addr -> Expression -> Heap -> Gen addr)
    (items : list Expression) (group_contexts : list addr) (h : Heap)
  : Result (list addr) :=
  match items with
  | [] => Return group_contexts h
  | item :: rest =>
      match collect_flat (fun group_context => recur group_context item)
                         group_contexts h with
      | Return [] h1 => Return [] h1
      | Return group_contexts' h1 => group_loop recur rest group_contexts' h1
      | Raise e h1 => Raise e h1
      | Diverge => Diverge
      end
  end.

Definition match_group (recur : addr -> Expression -> Heap -> Gen addr)
    (context : addr) (items : list Expression) (h : Heap) : Gen addr :=
  match items with
  | [] => GStop h
  | _ :: _ =>
      match group_loop recur items [context] h with
      | Return group_contexts h1 => yield_each group_contexts h1
      | Raise e h1 => GRaise e h1
      | Diverge => GDiverge
      end
  end.

(** The context yielded for one [value_context] of a slot value: the
    body of [for value_context in value_contexts:]. *)
Definition slot_value_context (context : addr) (slot_name : str)
    (slot_value : TextSlotValue.t) (value_context : addr) (h : Heap)
  : addr * Heap :=
  let c := get_context h context in
  let vc := get_context h value_context in
  let entity_text :=
    if Text.truthy (MatchContext.text vc)
    then Text.slice_to_neg (MatchContext.text c) (length (MatchContext.text vc))
    else MatchContext.text c in
  let (entity, h1) :=
    alloc_entity h
      (MatchEntity.mk slot_name (TextSlotValue.value_out slot_value)
                      entity_text false true) in
  let (entities, h2) :=
    alloc_entity_list h1
      (get_entity_list h (MatchContext.entities c) ++ [entity]) in
  match TextSlotValue.context slot_value with
  | Some (kv :: overlay) =>
      new_MatchContext h2 (MatchContext.text vc) entities
        (dict_merge (MatchContext.intent_context c) (kv :: overlay))
        (MatchContext.is_start_of_word c)
        (MatchContext.unmatched_entities c) false false
  | _ =>
      new_MatchContext h2 (MatchContext.text vc) entities
        (MatchContext.intent_context vc)
        (MatchContext.is_start_of_word c)
        (MatchContext.unmatched_entities c) false false
  end.

(** [for value_context in value_contexts:], keeping [has_matches]. *)
Fixpoint for_value_contexts (value_contexts : Gen addr) (has_matches : bool)
    (body : addr -> Heap -> addr * Heap)
    (after : bool -> Heap -> Gen addr) : Gen addr :=
  match value_contexts with
  | GStop h => after has_matches h
  | GRaise e h => GRaise e h
  | GDiverge => GDiverge
  | GYield value_context h k =>
      let (c', h') := body value_context h in
      GYield c' h' (fun h'' => for_value_contexts (k h'') true body after)
  end.

(** The context reporting a mismatch: an open, empty
    [UnmatchedTextEntity] and [close_wildcards=True]. *)
Definition unmatched_text_context (context : addr) (slot_name : str)
    (h : Heap) : addr * Heap :=
  let c := get_context h context in
  let (entity, h1) := alloc_unmatched h (UnmatchedTextEntity slot_name [] true) in
  let (unmatched_entities, h2) :=
    alloc_unmatched_list h1
      (get_unmatched_list h (MatchContext.unmatched_entities c) ++ [entity]) in
  new_MatchContext h2 (MatchContext.text c) (MatchContext.entities c)
    (MatchContext.intent_context c) (MatchContext.is_start_of_word c)
    unmatched_entities true false.

(** [for slot_value in text_list.values:] *)
Fixpoint for_slot_values (recur : addr -> Expression -> Heap -> Gen addr)
    (context : addr) (slot_name : str) (values : list TextSlotValue.t)
    (h : Heap) : Gen addr :=
  match values with
  | [] => GStop h
  | slot_value :: rest =>
      let c := get_context h context in
      let (copy, h0) :=
        new_MatchContext h (MatchContext.text c) (MatchContext.entities c)
          (MatchContext.intent_context c) (MatchContext.is_start_of_word c)
          (MatchContext.unmatched_entities c) false false in
      for_value_contexts
        (recur copy (TextSlotValue.text_in slot_value) h0) false
        (slot_value_context context slot_name slot_value)
        (fun has_matches h1 =>
           if negb has_matches && MatchSettings.allow_unmatched_entities settings
           then
             let (c', h2) := unmatched_text_context context slot_name h1 in
             GYield c' h2
               (fun h3 => for_slot_values recur context slot_name rest h3)
           else for_slot_values recur context slot_name rest h1)
  end.

(** [n in range(start, stop, step)]; [None] is the [ValueError] of a
    zero step. *)
Definition in_py_range (n start stop step : Z) : option bool :=
  if (step =? 0)%Z then None
  else if (0 <? step)%Z
  then Some ((start <=? n)%Z && (n <? stop)%Z && ((n - start) mod step =? 0)%Z)
  else Some ((stop <? n)%Z && (n <=? start)%Z && ((n - start) mod step =? 0)%Z).

(** The [RangeSlotList] branch. *)
Definition match_range (context : addr) (slot_name : str)
    (start stop step : Z) (h : Heap) : Gen addr :=
  let c := get_context h context in
  if Text.truthy (MatchContext.text c) then
    match Text.number_start (MatchContext.text c) with
    | Some number_text =>
        match Text.int number_text with
        | None => GRaise ValueError h
        | Some word_number =>
            match (if (step =? 1)%Z
                   then Some ((start <=? word_number)%Z
                              && (word_number <=? stop)%Z)
                   else in_py_range word_number start (stop + 1) step) with
            | None => GRaise ValueError h
            | Some true =>
                match Text.split_first (MatchContext.text c) with
                | None => GRaise IndexError h
                | Some token =>
                    let (entity, h1) :=
                      alloc_entity h
                        (MatchEntity.mk slot_name (VInt word_number) token
                                        false true) in
                    let (entities, h2) :=
                      alloc_entity_list h1
                        (get_entity_list h (MatchContext.entities c)
                         ++ [entity]) in
                    let (c', h3) :=
                      new_MatchContext h2
                        (Text.slice_from (MatchContext.text c)
                                         (length number_text))
                        entities (MatchContext.intent_context c)
                        (MatchContext.is_start_of_word c)
                        (MatchContext.unmatched_entities c) false false in
                    GYield c' h3 GStop
                end
            | Some false =>
                if MatchSettings.allow_unmatched_entities settings then
                  let (entity, h1) :=
                    alloc_unmatched h
                      (UnmatchedRangeEntity slot_name word_number) in
                  let (unmatched_entities, h2) :=
                    alloc_unmatched_list h1
                      (get_unmatched_list h (MatchContext.unmatched_entities c)
                       ++ [entity]) in
                  let (c', h3) :=
                    new_MatchContext h2
                      (Text.slice_from (MatchContext.text c)
                                       (length number_text))
                      (MatchContext.entities c) (MatchContext.intent_context c)
                      (MatchContext.is_start_of_word c)
                      unmatched_entities false false in
                  GYield c' h3 GStop
                else GStop h
            end
        end
    | None =>
        if MatchSettings.allow_unmatched_entities settings then
          let (c', h') := unmatched_text_context context slot_name h in
          GYield c' h' GStop
        else GStop h
    end
  else GStop h.

(** The [WildcardSlotList] branch. *)
Definition match_wildcard (context : addr) (slot_name : str) (h : Heap)
  : Gen addr :=
  let c := get_context h context in
  if Text.truthy (MatchContext.text c) then
    let (entity, h1) :=
      alloc_entity h (MatchEntity.mk slot_name (VStr []) [] true true) in
    let (entities, h2) :=
      alloc_entity_list h1
        (get_entity_list h (MatchContext.entities c) ++ [entity]) in
    let (c', h3) :=
      new_MatchContext h2 (MatchContext.text c) entities
        (MatchContext.intent_context c) (MatchContext.is_start_of_word c)
        (MatchContext.unmatched_entities c) false true in
    GYield c' h3 GStop
  else GStop h.

(** [settings.slot_lists[list_name]] behind the test
    [(not settings.slot_lists) or (list_name not in settings.slot_lists)];
    [None] when the test raises. *)
Definition lookup_slot_list (list_name : str) : option SlotList :=
  if negb (dict_truthy (MatchSettings.slot_lists settings)) then None
  else dict_get (MatchSettings.slot_lists settings) list_name.

Definition lookup_rule (rule_name : str) : option Expression :=
  if negb (dict_truthy (MatchSettings.expansion_rules settings)) then None
  else dict_get (MatchSettings.expansion_rules settings) rule_name.

(** The [ListReference] branch. *)
Definition match_list_reference
    (recur : addr -> Expression -> Heap -> Gen addr)
    (context : addr) (list_name slot_name : str) (h : Heap) : Gen addr :=
  match lookup_slot_list list_name with
  | None =>
      GRaise (MissingListError (u "Missing slot list {" ++ list_name ++ u "}")) h
  | Some (TextSlotList values) =>
      if Text.truthy (MatchContext.text (get_context h context))
      then for_slot_values recur context slot_name values h
      else GStop h
  | Some (RangeSlotList start stop step) =>
      match_range context slot_name start stop step h
  | Some WildcardSlotList => match_wildcard context slot_name h
  end.

(** [match_expression(settings, context, expression)].  [fuel] bounds
    the depth of the recursion: an expansion rule may refer to itself,
    and then the Python recursion does not end either. *)
Fixpoint match_expression (fuel : nat) (context : addr)
    (expression : Expression) (h : Heap) {struct fuel} : Gen addr :=
  match fuel with
  | 0 => GDiverge
  | S fuel' =>
      match expression with
      | TextChunk text =>
          match_text_chunk
            (fun c h' => match_expression fuel' c expression h')
            context text h
      | Sequence ALTERNATIVE items =>
          match_alternative (match_expression fuel' context) items h
      | Sequence GROUP items =>
          match_group (match_expression fuel') context items h
      | ListReference list_name slot_name =>
          match_list_reference (match_expression fuel') context
            list_name slot_name h
      | RuleReference rule_name =>
          match lookup_rule rule_name with
          | None =>
              GRaise (MissingRuleError
                        (u "Missing expansion rule <" ++ rule_name ++ u ">")) h
          | Some rule => match_expression fuel' context rule h
          end
      end
  end.

End Matcher.

(* ================================================================== *)
(** ** Skip words *)
(* ================================================================== *)

(** [in_run] tells that the character before was white space. *)
Fixpoint collapse_whitespace (in_run : bool) (text : str) : str :=
  match text with
  | [] => []
  | c :: r =>
      if Text.is_space c
      then if in_run then collapse_whitespace true r
           else 32%N :: collapse_whitespace true r
      else c :: collapse_whitespace false r
  end.

(** Modelled from the spec: [normalize_whitespace] of [hassil/util.py],
    which collapses runs of white space to single spaces (the unused
    [_normalize_whitespace] at the end of [recognize.py] is the same
    substitution, [WHITESPACE.sub(" ", text)]). *)
Definition normalize_whitespace (text : str) : str :=
  collapse_whitespace false text.

Definition _normalize_whitespace (text : str) : str := normalize_whitespace text.

(** [text.replace(word, "")] *)
Fixpoint replace_remove (budget : nat) (text word : str) : str :=
  match budget, text with
  | S budget', c :: r =>
      if Text.truthy word && Text.startswith text word
      then replace_remove budget' (skipn (length word) text) word
      else c :: replace_remove budget' r word
  | _, _ => text
  end.

Section SkipWords.

(** [normalize_text] of [hassil/util.py] (Unicode normalisation) and the
    class [\w] of the regular expression engine are given from outside. *)
Variable normalize_text : str -> str.
Variable is_word_char : char -> bool.

(** [\b] between a character before and the text after. *)
Definition boundary (before : option char) (after : str) : bool :=
  xorb (match before with Some c => is_word_char c | None => false end)
       (match after with c :: _ => is_word_char c | [] => false end).

(** [re.sub(rf"\b{re.escape(word)}\b", "", text)], scanning from left to
    right; [before] is the character in front of [text]. *)
Fixpoint sub_word (budget : nat) (before : option char) (text word : str)
  : str :=
  match budget, text with
  | S budget', c :: r =>
      if Text.truthy word && boundary before text && Text.startswith text word
         && boundary (Some (last word c)) (skipn (length word) text)
      then sub_word budget' (Some (last word c)) (skipn (length word) text) word
      else c :: sub_word budget' (Some c) r word
  | _, _ => text
  end.

(** [sorted(skip_words, key=len, reverse=True)]: stable, longest first. *)
Fixpoint insert_by_len (w : str) (l : list str) : list str :=
  match l with
  | [] => [w]
  | x :: r => if length x <=? length w then w :: l else x :: insert_by_len w r
  end.

Definition sorted_by_len (l : list str) : list str :=
  fold_right insert_by_len [] l.

Definition _remove_skip_words (text : str) (skip_words : list str)
    (ignore_whitespace : bool) : str :=
  let text :=
    fold_left
      (fun text skip_word =>
         let skip_word := normalize_text skip_word in
         if ignore_whitespace
         then replace_remove (length text) text skip_word
         else sub_word (length text) None text skip_word)
      (sorted_by_len skip_words) text in
  if negb ignore_whitespace
  then Text.strip (normalize_whitespace text)
  else text.

End SkipWords.

(* ================================================================== *)
(** ** [recognize_all] and [recognize] *)
(* ================================================================== *)

Module RecognizeResult.
Record t : Type := mk {
  intent : Intent.t;
  intent_data : IntentData.t;
  entities : dict addr;
  entities_list : addr;
  response : option str;
  context : dict Any;
  unmatched_entities : dict addr;
  unmatched_entities_list : addr
}.
End RecognizeResult.

Definition MISSING_ENTITY : str := u "<missing>".

(** The loop over [intent_data.requires_context.items()] of the check
    before matching; [inr true] is [skip_data = True]. *)
Fixpoint requires_before (intent_context items : dict Any) : Error + bool :=
  match items with
  | [] => inr false
  | (required_key, required_value) :: rest =>
      if is_none required_value || negb (dict_mem intent_context required_key)
      then requires_before intent_context rest
      else
        match dict_get intent_context required_key with
        | None => requires_before intent_context rest
        | Some actual_value =>
            if is_collection required_value then
              match value_in actual_value required_value with
              | None => inl TypeError
              | Some false => inr true
              | Some true => requires_before intent_context rest
              end
            else if negb (value_eqb actual_value required_value) then inr true
            else requires_before intent_context rest
        end
  end.

(** The second loop of the check before matching, over the [items] it
    is given. *)
Fixpoint excludes_before (intent_context items : dict Any) : Error + bool :=
  match items with
  | [] => inr false
  | (excluded_key, excluded_value) :: rest =>
      match dict_get intent_context excluded_key with
      | None => excludes_before intent_context rest
      | Some actual_value =>
          if is_collection excluded_value then
            match value_in actual_value excluded_value with
            | None => inl TypeError
            | Some true => inr true
            | Some false => excludes_before intent_context rest
            end
          else if value_eqb actual_value excluded_value then inr true
          else excludes_before intent_context rest
      end
  end.

(** The check of lines 340-384, run when [intent_context] is not empty:
    [inr true] when the intent data is skipped.  The second loop is
    entered on [intent_data.excludes_context] and runs over
    [intent_data.requires_context.items()], as the source has it. *)
Definition skip_before_match (intent_context : dict Any)
    (intent_data : IntentData.t) : Error + bool :=
  match (if dict_truthy (IntentData.requires_context intent_data)
         then requires_before intent_context
                (IntentData.requires_context intent_data)
         else inr false) with
  | inl e => inl e
  | inr true => inr true
  | inr false =>
      if dict_truthy (IntentData.excludes_context intent_data)
      then excludes_before intent_context
             (IntentData.requires_context intent_data)
      else inr false
  end.

(** Lines 408-420: an open unmatched entity, else an open wildcard,
    takes the text that is left, and the context's text is cleared. *)
Definition close_at_end (maybe_match_context : addr) (h : Heap) : Heap :=
  let c := get_context h maybe_match_context in
  let final_text := Text.strip (MatchContext.text c) in
  if Text.truthy final_text then
    match get_open_entity h maybe_match_context with
    | Some unmatched_entity =>
        let h1 :=
          match get_unmatched h unmatched_entity with
          | UnmatchedTextEntity n t _ =>
              set_unmatched h unmatched_entity
                (UnmatchedTextEntity n (t ++ final_text) false)
          | UnmatchedRangeEntity _ _ => h
          end in
        set_context h1 maybe_match_context (MatchContext.set_text c [])
    | None =>
        match get_open_wildcard h maybe_match_context with
        | Some wildcard =>
            let e := get_entity h wildcard in
            let new_text := MatchEntity.text e ++ final_text in
            let h1 :=
              set_entity h wildcard
                (MatchEntity.mk (MatchEntity.name e) (VStr new_text) new_text
                                (MatchEntity.is_wildcard e) false) in
            set_context h1 maybe_match_context (MatchContext.set_text c [])
        | None => h
        end
    end
  else h.

(** [d.get(k)] *)
Definition dict_get_or_none (d : dict Any) (k : str) : Any :=
  match dict_get d k with Some v => v | None => VNone end.

(** [isinstance(v, Collection) and not isinstance(v, str) and (x in v)] *)
Definition in_non_str_collection (x v : Any) : bool :=
  match v with
  | VList l => existsb (value_eqb x) l
  | _ => false
  end.

(** Lines 429-449: [true] is [skip_match = True]. *)
Fixpoint excludes_after (final_context items : dict Any) : bool :=
  match items with
  | [] => false
  | (context_key, context_value) :: rest =>
      let actual_value := dict_get_or_none final_context context_key in
      if value_eqb actual_value context_value then true
      else if in_non_str_collection actual_value context_value then true
      else excludes_after final_context rest
  end.

(** The text of the first [UnmatchedTextEntity] called [key]. *)
Fixpoint unmatched_text_named (h : Heap) (key : str) (l : list addr)
  : option str :=
  match l with
  | [] => None
  | a :: r =>
      match get_unmatched h a with
      | UnmatchedTextEntity n t _ =>
          if Text.eqb n key then Some t else unmatched_text_named h key r
      | UnmatchedRangeEntity _ _ => unmatched_text_named h key r
      end
  end.

(** Lines 452-514: the heap is threaded because a missing entity is
    appended to the list of the context; [true] is [skip_match = True]. *)
Fixpoint requires_after (allow_unmatched_entities : bool)
    (maybe_match_context : addr) (items : dict Any) (h : Heap)
  : bool * Heap :=
  match items with
  | [] => (false, h)
  | (context_key, context_value) :: rest =>
      let c := get_context h maybe_match_context in
      let unmatched := get_unmatched_list h (MatchContext.unmatched_entities c) in
      let actual_value :=
        dict_get_or_none (MatchContext.intent_context c) context_key in
      let actual_value :=
        if allow_unmatched_entities && is_none actual_value then
          match unmatched_text_named h context_key unmatched with
          | Some t => VStr t
          | None => actual_value
          end
        else actual_value in
      if value_eqb actual_value context_value && negb (is_none context_value)
      then requires_after allow_unmatched_entities maybe_match_context rest h
      else if is_none context_value && negb (is_none actual_value)
      then requires_after allow_unmatched_entities maybe_match_context rest h
      else if in_non_str_collection actual_value context_value
      then requires_after allow_unmatched_entities maybe_match_context rest h
      else if allow_unmatched_entities then
        let has_unmatched_entity :=
          existsb (fun a => Text.eqb (unmatched_name (get_unmatched h a))
                                     context_key) unmatched in
        if has_unmatched_entity
        then requires_after allow_unmatched_entities maybe_match_context rest h
        else
          let (entity, h1) :=
            alloc_unmatched h
              (UnmatchedTextEntity context_key MISSING_ENTITY false) in
          let h2 :=
            set_unmatched_list h1 (MatchContext.unmatched_entities c)
              (unmatched ++ [entity]) in
          requires_after allow_unmatched_entities maybe_match_context rest h2
      else (true, h)
  end.

(** Lines 521-528: the fixed slots of the intent data that no entity
    names. *)
Fixpoint add_fixed_entities (entity_names : list str) (entities : addr)
    (slots : dict Any) (h : Heap) : Heap :=
  match slots with
  | [] => h
  | (slot_name, slot_value) :: rest =>
      if existsb (Text.eqb slot_name) entity_names
      then add_fixed_entities entity_names entities rest h
      else
        let (entity, h1) :=
          alloc_entity h (MatchEntity.mk slot_name slot_value [] false true) in
        let h2 :=
          set_entity_list h1 entities (get_entity_list h1 entities ++ [entity]) in
        add_fixed_entities entity_names entities rest h2
  end.

(** [{entity.name: entity for entity in l}] *)
Definition by_name (name_of : addr -> str) (l : list addr) : dict addr :=
  fold_left (fun d a => dict_set d (name_of a) a) l [].

Section Driver.

Variable fuel : nat.
Variable text : str.
Variable intent_context : dict Any.
Variable default_response : option str.
Variable allow_unmatched_entities : bool.

(** The body of [for maybe_match_context in maybe_match_contexts:];
    [None] when it ends in [continue]. *)
Definition check_match (intent : Intent.t) (intent_data : IntentData.t)
    (maybe_match_context : addr) (h : Heap)
  : option RecognizeResult.t * Heap :=
  let h1 := close_at_end maybe_match_context h in
  if negb (is_match h1 maybe_match_context) then (None, h1)
  else
    let skip_match :=
      if dict_truthy (IntentData.excludes_context intent_data)
      then excludes_after
             (MatchContext.intent_context (get_context h1 maybe_match_context))
             (IntentData.excludes_context intent_data)
      else false in
    let (skip_match, h2) :=
      if negb skip_match && dict_truthy (IntentData.requires_context intent_data)
      then requires_after allow_unmatched_entities maybe_match_context
             (IntentData.requires_context intent_data) h1
      else (skip_match, h1) in
    if skip_match then (None, h2)
    else
      let c := get_context h2 maybe_match_context in
      let entity_names :=
        map (fun a => MatchEntity.name (get_entity h2 a))
            (get_entity_list h2 (MatchContext.entities c)) in
      let h3 :=
        add_fixed_entities entity_names (MatchContext.entities c)
          (IntentData.slots intent_data) h2 in
      let response :=
        match IntentData.response intent_data with
        | Some r => Some r
        | None => default_response
        end in
      (Some
         (RecognizeResult.mk intent intent_data
            (by_name (fun a => MatchEntity.name (get_entity h3 a))
                     (get_entity_list h3 (MatchContext.entities c)))
            (MatchContext.entities c)
            response
            (MatchContext.intent_context c)
            (by_name (fun a => unmatched_name (get_unmatched h3 a))
                     (get_unmatched_list h3 (MatchContext.unmatched_entities c)))
            (MatchContext.unmatched_entities c)),
       h3).

Fixpoint for_match_contexts (intent : Intent.t) (intent_data : IntentData.t)
    (maybe_match_contexts : Gen addr)
    (rest : Heap -> Gen RecognizeResult.t) : Gen RecognizeResult.t :=
  match maybe_match_contexts with
  | GStop h => rest h
  | GRaise e h => GRaise e h
  | GDiverge => GDiverge
  | GYield maybe_match_context h k =>
      match check_match intent intent_data maybe_match_context h with
      | (Some result, h1) =>
          GYield result h1
            (fun h2 => for_match_contexts intent intent_data (k h2) rest)
      | (None, h1) => for_match_contexts intent intent_data (k h1) rest
      end
  end.

(** [MatchContext(text=text, intent_context=intent_context)]: the other
    fields take their defaults, two fresh lists among them. *)
Definition initial_context (h : Heap) : addr * Heap :=
  let (entities, h1) := alloc_entity_list h [] in
  let (unmatched_entities, h2) := alloc_unmatched_list h1 [] in
  new_MatchContext h2 text entities intent_context true unmatched_entities
    false false.

(** [for intent_sentence in intent_data.sentences:] *)
Fixpoint for_sentences (local_settings : MatchSettings.t) (intent : Intent.t)
    (intent_data : IntentData.t) (sentences : list Expression)
    (rest : Heap -> Gen RecognizeResult.t) (h : Heap)
  : Gen RecognizeResult.t :=
  match sentences with
  | [] => rest h
  | intent_sentence :: more =>
      let (match_context, h1) := initial_context h in
      for_match_contexts intent intent_data
        (match_expression local_settings fuel match_context intent_sentence h1)
        (fun h' => for_sentences local_settings intent intent_data more rest h')
  end.

(** [for intent_data in intent.data:] *)
Fixpoint for_intent_data (settings : MatchSettings.t) (intent : Intent.t)
    (data : list IntentData.t) (rest : Heap -> Gen RecognizeResult.t)
    (h : Heap) : Gen RecognizeResult.t :=
  match data with
  | [] => rest h
  | intent_data :: more =>
      match (if dict_truthy intent_context
             then skip_before_match intent_context intent_data
             else inr false) with
      | inl e => GRaise e h
      | inr true => for_intent_data settings intent more rest h
      | inr false =>
          let local_settings :=
            MatchSettings.mk
              (MatchSettings.slot_lists settings)
              (dict_merge (MatchSettings.expansion_rules settings)
                          (IntentData.expansion_rules intent_data))
              (MatchSettings.ignore_whitespace settings)
              allow_unmatched_entities in
          for_sentences local_settings intent intent_data
            (IntentData.sentences intent_data)
            (fun h' => for_intent_data settings intent more rest h') h
      end
  end.

(** [for intent in intents.intents.values():] *)
Fixpoint for_intents (settings : MatchSettings.t)
    (intents : list (str * Intent.t)) (h : Heap) : Gen RecognizeResult.t :=
  match intents with
  | [] => GStop h
  | (_, intent) :: more =>
      for_intent_data settings intent (Intent.data intent)
        (fun h' => for_intents settings more h') h
  end.

End Driver.

Section Recognize.

Variable normalize_text : str -> str.
Variable is_word_char : char -> bool.

(** Lines 288-303: the text that the sentences are matched against. *)
Definition prepare_text (text : str) (intents : Intents.t)
    (skip_words : option (list str)) : str :=
  let text := Text.strip (normalize_text text) in
  let ignore_whitespace := Intents.ignore_whitespace intents in
  let text :=
    match skip_words with
    | None =>
        match Intents.skip_words intents with
        | [] => text
        | words =>
            _remove_skip_words normalize_text is_word_char text words
              ignore_whitespace
        end
    | Some words =>
        _remove_skip_words normalize_text is_word_char text
          (words ++ Intents.skip_words intents) ignore_whitespace
    end in
  if ignore_whitespace then Text.remove_whitespace text else text ++ u " ".

(** [recognize_all(text, intents, ...)], a generator of results. *)
Definition recognize_all (fuel : nat) (text : str) (intents : Intents.t)
    (slot_lists : option (dict SlotList))
    (expansion_rules : option (dict Expression))
    (skip_words : option (list str))
    (intent_context : option (dict Any))
    (default_response : option str)
    (allow_unmatched_entities : bool) (h : Heap) : Gen RecognizeResult.t :=
  let text := prepare_text text intents skip_words in
  let slot_lists :=
    match slot_lists with
    | None => Intents.slot_lists intents
    | Some l => dict_merge (Intents.slot_lists intents) l
    end in
  let expansion_rules :=
    match expansion_rules with
    | None => Intents.expansion_rules intents
    | Some r => dict_merge (Intents.expansion_rules intents) r
    end in
  let intent_context :=
    match intent_context with None => [] | Some d => d end in
  let settings :=
    MatchSettings.mk slot_lists expansion_rules
      (Intents.ignore_whitespace intents) allow_unmatched_entities in
  for_intents fuel text intent_context default_response
    allow_unmatched_entities settings (Intents.intents intents) h.

(** [for x in g: return x] followed by [return None]. *)
Definition return_first (A : Type) (g : Gen A) : Result (option A) :=
  match g with
  | GYield a h _ => Return (Some a) h
  | GStop h => Return None h
  | GRaise e h => Raise e h
  | GDiverge => Diverge
  end.

(** [recognize(text, intents, ...)] *)
Definition recognize (fuel : nat) (text : str) (intents : Intents.t)
    (slot_lists : option (dict SlotList))
    (expansion_rules : option (dict Expression))
    (skip_words : option (list str))
    (intent_context : option (dict Any))
    (default_response : option str)
    (allow_unmatched_entities : bool) (h : Heap)
  : Result (option RecognizeResult.t) :=
  return_first
    (recognize_all fuel text intents slot_lists expansion_rules skip_words
       intent_context default_response allow_unmatched_entities h).

End Recognize.

(* ================================================================== *)
(** * Specification-side definitions *)
(* ================================================================== *)

(** The GROUP rule in the words of the specification: a left fold that
    starts from the candidates given and replaces them, item by item,
    with the flat-map of matching the item over the candidates.  There
    is no early exit here. *)
Fixpoint group_fold (recur : addr -> Expression -> Heap -> Gen addr)
    (items : list Expression) (candidates : list addr) (h : Heap)
  : Result (list addr) :=
  match items with
  | [] => Return candidates h
  | item :: rest =>
      match collect_flat (fun candidate => recur candidate item)
                         candidates h with
      | Return candidates' h1 => group_fold recur rest candidates' h1
      | Raise e h1 => Raise e h1
      | Diverge => Diverge
      end
  end.

(** "Every surviving context is emitted." *)
Definition emit_all (r : Result (list addr)) : Gen addr :=
  match r with
  | Return l h => yield_each l h
  | Raise e h => GRaise e h
  | Diverge => GDiverge
  end.


(** [completes g]: however the consumer leaves the heap between two
    items, [g] yields its next item or returns; it neither raises nor
    recurses without end. *)
Inductive completes (A : Type) : Gen A -> Prop :=
| completes_stop (h : Heap) : completes (GStop h)
| completes_yield (a : A) (h : Heap) (k : Heap -> Gen A) :
    (forall h', completes (k h')) -> completes (GYield a h k).






(** ** Worked inputs *)

(** A normaliser and a word class for ASCII input. *)
Definition ascii_normalize_text (s : str) : str := s.

Definition ascii_is_word_char (c : char) : bool :=
  (Text.is_digit c || ((97 <=? c) && (c <=? 122)) || ((65 <=? c) && (c <=? 90))
   || (c =? 95))%N.

(** Slot lists [{name}], [{brightness}], [{song}]. *)
Definition kitchen_light : TextSlotValue.t :=
  TextSlotValue.mk (TextChunk (u "kitchen light")) (VStr (u "light.kitchen"))
                   (Some [(u "area", VStr (u "kitchen"))]).

Definition bedroom_light : TextSlotValue.t :=
  TextSlotValue.mk (TextChunk (u "bedroom light")) (VStr (u "light.bedroom"))
                   (Some [(u "area", VStr (u "bedroom"))]).

(** Settings whose list [{name}] has two values, each with an overlay of
    its own. *)
Definition two_lights : MatchSettings.t :=
  MatchSettings.mk [(u "name", TextSlotList [bedroom_light; kitchen_light])]
                   [] false false.

Definition demo_lists : dict SlotList :=
  [(u "name", TextSlotList [kitchen_light]);
   (u "brightness", RangeSlotList 0 100 5);
   (u "song", WildcardSlotList)].

Definition strict_settings : MatchSettings.t :=
  MatchSettings.mk demo_lists [] false false.

Definition tolerant_settings : MatchSettings.t :=
  MatchSettings.mk demo_lists [] false true.

(** A heap holding one fresh context with the text given. *)
Definition heap_with (text : str) (intent_context : dict Any) : Heap :=
  snd (initial_context text intent_context empty_heap).

(** One intent with one sentence and no context predicates. *)
Definition one_sentence (sentence : Expression) : Intents.t :=
  Intents.mk
    [(u "Demo",
      Intent.mk (u "Demo") [IntentData.mk [sentence] [] None [] [] []])]
    demo_lists [] [] false.

(** A sentence that refers to the list [{colour}], which [demo_lists]
    does not define, after the literal [on ]. *)
Definition on_colour : Expression :=
  Sequence GROUP [TextChunk (u "on "); ListReference (u "colour") (u "colour")].



(** The excludes check before matching, in the words of the
    specification: some excluded key is present in the intent context
    with a matching value (membership when the excluded value is a
    collection that is no string, equality otherwise). *)
Definition excluded_before (intent_context excludes_context : dict Any) : bool :=
  existsb
    (fun kv : str * Any =>
       match dict_get intent_context (fst kv) with
       | None => false
       | Some actual_value =>
           match snd kv with
           | VList l => existsb (value_eqb actual_value) l
           | excluded_value => value_eqb actual_value excluded_value
           end
       end)
    excludes_context.

(** Intent data that excludes [area = kitchen] and requires nothing. *)
Definition excludes_kitchen : IntentData.t :=
  IntentData.mk [TextChunk (u "hello")] [] None
                [] [(u "area", VStr (u "kitchen"))] [].

(** Intent data that requires [area = kitchen] and excludes
    [floor = 2]. *)
Definition requires_kitchen_excludes_floor : IntentData.t :=
  IntentData.mk [TextChunk (u "hello")] [] None
                [(u "area", VStr (u "kitchen"))] [(u "floor", VInt 2)] [].

Definition in_kitchen : dict Any := [(u "area", VStr (u "kitchen"))].

(** [each_yield P g]: however the consumer leaves the heap between two
    items, every item that [g] yields satisfies [P], together with the
    heap it is yielded in. *)
Inductive each_yield (A : Type) (P : A -> Heap -> Prop) : Gen A -> Prop :=
| each_stop (h : Heap) : each_yield P (GStop h)
| each_raise (e : Error) (h : Heap) : each_yield P (GRaise e h)
| each_diverge : each_yield P GDiverge
| each_more (a : A) (h : Heap) (k : Heap -> Gen A) :
    P a h -> (forall h', each_yield P (k h')) -> each_yield P (GYield a h k).

(** What the specification promises of the intent context [merged] of a
    context yielded for a slot value with the context overlay
    [overlay], [prior] being the intent context before. *)
Definition overlay_merged (prior overlay merged : dict Any) : Prop :=
  merged = dict_merge prior overlay
  /\ (forall k v, dict_get overlay k = Some v -> dict_get merged k = Some v)
  /\ (forall k, dict_get overlay k = None -> dict_get merged k = dict_get prior k)
  /\ (forall k, dict_mem prior k = true -> dict_mem merged k = true).

(** "A fresh fork of the input context": a new context object with the
    fields of [context]. *)
Definition fork (context : addr) (h : Heap) : addr * Heap :=
  let c := get_context h context in
  new_MatchContext h (MatchContext.text c) (MatchContext.entities c)
    (MatchContext.intent_context c) (MatchContext.is_start_of_word c)
    (MatchContext.unmatched_entities c) false false.

Section ValueStream.

Variable tolerant : bool.
Variable recur : addr -> Expression -> Heap -> Gen addr.
Variable context : addr.

(** What is asked of the context [c'] in [h'] yielded for the slot value
    [slot_value] and the sub-context [value_context] that matching the
    value's text has yielded in [h]. *)
Variable for_value :
  TextSlotValue.t -> addr -> Heap -> addr -> Heap -> Prop.

(** What is asked of the context [c'] in [h'] that reports, in [h], a
    value that did not match. *)
Variable for_mismatch : Heap -> addr -> Heap -> Prop.

(** [value_stream values h out]: the generator [out] is the stream of a
    reference to a text slot list with the values [values], started in
    the heap [h].  The values are taken in order; the text of each is
    matched against a fresh fork of the input context; for every
    sub-context that this yields, and only for these, [out] yields one
    context, as [for_value] asks for this value and this sub-context;
    an error of the sub-match ends [out] with the error; when the
    sub-match returns without having yielded, [out] yields one report
    in tolerant mode and none in strict mode; then the next value
    follows, and [out] returns after the last. *)
Inductive value_stream : list TextSlotValue.t -> Heap -> Gen addr -> Prop :=
| stream_end (h : Heap) : value_stream [] h (GStop h)
| stream_value (slot_value : TextSlotValue.t) (rest : list TextSlotValue.t)
    (h : Heap) (out : Gen addr) :
    value_contexts slot_value rest false
      (recur (fst (fork context h)) (TextSlotValue.text_in slot_value)
             (snd (fork context h)))
      out ->
    value_stream (slot_value :: rest) h out
with value_contexts :
  TextSlotValue.t -> list TextSlotValue.t -> bool -> Gen addr -> Gen addr
  -> Prop :=
| contexts_yield (slot_value : TextSlotValue.t) (rest : list TextSlotValue.t)
    (has_matches : bool) (value_context : addr) (h : Heap)
    (k : Heap -> Gen addr) (c' : addr) (h' : Heap) (k' : Heap -> Gen addr) :
    for_value slot_value value_context h c' h' ->
    (forall h'', value_contexts slot_value rest true (k h'') (k' h'')) ->
    value_contexts slot_value rest has_matches
      (GYield value_context h k) (GYield c' h' k')
| contexts_raise (slot_value : TextSlotValue.t) (rest : list TextSlotValue.t)
    (has_matches : bool) (e : Error) (h : Heap) :
    value_contexts slot_value rest has_matches (GRaise e h) (GRaise e h)
| contexts_diverge (slot_value : TextSlotValue.t)
    (rest : list TextSlotValue.t) (has_matches : bool) :
    value_contexts slot_value rest has_matches GDiverge GDiverge
| contexts_mismatch (slot_value : TextSlotValue.t)
    (rest : list TextSlotValue.t) (h : Heap) (c' : addr) (h' : Heap)
    (k' : Heap -> Gen addr) :
    tolerant = true ->
    for_mismatch h c' h' ->
    (forall h'', value_stream rest h'' (k' h'')) ->
    value_contexts slot_value rest false (GStop h) (GYield c' h' k')
| contexts_next (slot_value : TextSlotValue.t) (rest : list TextSlotValue.t)
    (has_matches : bool) (h : Heap) (out : Gen addr) :
    has_matches = true \/ tolerant = false ->
    value_stream rest h out ->
    value_contexts slot_value rest has_matches (GStop h) out.

End ValueStream.

(** The intent context of the context [c'] yielded for [slot_value]:
    when the value carries a context overlay, the intent context of the
    input context merged with the overlay, as the specification
    promises; when it carries none, the intent context of the
    sub-context. *)
Definition overlay_yield (context : addr) (slot_value : TextSlotValue.t)
    (value_context : addr) (h : Heap) (c' : addr) (h' : Heap) : Prop :=
  let merged := MatchContext.intent_context (get_context h' c') in
  (forall overlay,
      TextSlotValue.context slot_value = Some overlay ->
      overlay <> [] ->
      NoDup (map fst overlay) ->
      overlay_merged (MatchContext.intent_context (get_context h context))
                     overlay merged)
  /\ (TextSlotValue.context slot_value = None
      \/ TextSlotValue.context slot_value = Some [] ->
      merged = MatchContext.intent_context (get_context h value_context)).

(** The report of a mismatch has the intent context of the input
    context. *)
Definition mismatch_keeps_intent_context (context : addr) (h : Heap)
    (c' : addr) (h' : Heap) : Prop :=
  MatchContext.intent_context (get_context h' c')
  = MatchContext.intent_context (get_context h context).

(** Number lexing in the words of the specification: [text] begins with
    [prefix], which is white space, an optional minus sign and one or
    more ASCII digits, as many as there are; [n] is the integer written
    and [rest] the text behind the prefix. *)
Definition leading_integer (text prefix : str) (n : Z) (rest : str) : Prop :=
  exists ws sign ds : str,
    prefix = ws ++ sign ++ ds
    /\ text = prefix ++ rest
    /\ forallb Text.is_space ws = true
    /\ ((sign = [] /\ n = Text.digits_value ds)
        \/ (sign = [45%N] /\ n = (- Text.digits_value ds)%Z))
    /\ ds <> []
    /\ forallb Text.is_digit ds = true
    /\ match rest with
       | c :: _ => Text.is_digit c = false
       | [] => True
       end.

(** The characters U+001C to U+001F: white space for the pattern
    [NUMBER_START], and no white space for [int]. *)
Definition is_separator_control (c : char) : bool :=
  ((28 <=? c) && (c <=? 31))%N.

(** The numeric prefixes that [NUMBER_START] lexes and [int] refuses
    with [ValueError]: one of U+001C to U+001F is in the white space
    before the number, or the prefix has more digits than the
    interpreter converts. *)
Definition int_refuses (prefix : str) : bool :=
  existsb is_separator_control prefix
  || (Text.int_max_str_digits
      <? Z.of_nat (length (filter Text.is_digit prefix)))%Z.

(** Membership in a range slot list, as the specification has it. *)
Definition range_member (start stop step n : Z) : bool :=
  ((start <=? n) && (n <=? stop) && ((n - start) mod step =? 0))%Z.

(** ** What matching may change in the heap *)

(** A match entity [e] may become [e']: the name and the wildcard flag
    stay, the open flag may only be cleared, and the text may only grow
    at its end, and only, with the value, while the entity is an open
    wildcard. *)
Definition entity_evolves (e e' : MatchEntity.t) : Prop :=
  MatchEntity.name e' = MatchEntity.name e
  /\ MatchEntity.is_wildcard e' = MatchEntity.is_wildcard e
  /\ (MatchEntity.is_wildcard_open e' = true ->
      MatchEntity.is_wildcard_open e = true)
  /\ (MatchEntity.is_wildcard e && MatchEntity.is_wildcard_open e = false ->
      MatchEntity.text e' = MatchEntity.text e
      /\ MatchEntity.value e' = MatchEntity.value e)
  /\ exists suffix, MatchEntity.text e' = MatchEntity.text e ++ suffix.

(** The same for an unmatched entity: a range entity stays as it is; a
    text entity keeps its name, may be closed, and its text may only
    grow at its end, and only while it is open. *)
Definition unmatched_evolves (e e' : UnmatchedEntity) : Prop :=
  match e, e' with
  | UnmatchedTextEntity n t o, UnmatchedTextEntity n' t' o' =>
      n' = n
      /\ (o' = true -> o = true)
      /\ (o = false -> t' = t)
      /\ exists suffix, t' = t ++ suffix
  | UnmatchedRangeEntity n v, UnmatchedRangeEntity n' v' => n' = n /\ v' = v
  | _, _ => False
  end.

(** [heap_evolves h h']: every context object and every list object of
    [h] is in [h'] as it was, new objects may have been added, and the
    entity objects of [h] have evolved as above. *)
Definition heap_evolves (h h' : Heap) : Prop :=
  (exists l, context_objs h' = context_objs h ++ l)
  /\ (exists l, entity_lists h' = entity_lists h ++ l)
  /\ (exists l, unmatched_lists h' = unmatched_lists h ++ l)
  /\ length (entity_objs h) <= length (entity_objs h')
  /\ (forall a, a < length (entity_objs h) ->
                entity_evolves (get_entity h a) (get_entity h' a))
  /\ length (unmatched_objs h) <= length (unmatched_objs h')
  /\ (forall a, a < length (unmatched_objs h) ->
                unmatched_evolves (get_unmatched h a) (get_unmatched h' a)).

(** [frame_kept h0 g]: the generator [g], started in the heap [h0], only
    lets the heap evolve up to its next [yield] or its end, and does so
    again from whatever heap the consumer resumes it in. *)
Inductive frame_kept (A : Type) : Heap -> Gen A -> Prop :=
| kept_stop (h0 h : Heap) : heap_evolves h0 h -> frame_kept h0 (GStop h)
| kept_raise (h0 : Heap) (e : Error) (h : Heap) :
    heap_evolves h0 h -> frame_kept h0 (GRaise e h)
| kept_diverge (h0 : Heap) : frame_kept h0 GDiverge
| kept_yield (h0 : Heap) (a : A) (h : Heap) (k : Heap -> Gen A) :
    heap_evolves h0 h ->
    (forall h', frame_kept h' (k h')) ->
    frame_kept h0 (GYield a h k).

(** Where a consumer that takes every item of a generator ends: in a
    heap that evolved from [h0]. *)
Definition ends_evolved (A : Type) (h0 : Heap) (r : Result A) : Prop :=
  match r with
  | Return _ h | Raise _ h => heap_evolves h0 h
  | Diverge => True
  end.

(** The context, and its heap, that [{name}] yields for the text
    [kitchen light on ]: it holds one entity, at address 0. *)
Definition name_matched : addr * Heap :=
  match match_expression strict_settings 2 0
          (ListReference (u "name") (u "name"))
          (heap_with (u "kitchen light on ") []) with
  | GYield c h _ => (c, h)
  | _ => (0, empty_heap)
  end.

(** The context that [{name}] yields in tolerant mode for the text
    [x bar foo ], which no value matches: it holds one open unmatched
    text entity, at address 0. *)
Definition name_unmatched : addr * Heap :=
  match match_expression tolerant_settings 2 0
          (ListReference (u "name") (u "name"))
          (heap_with (u "x bar foo ") []) with
  | GYield c h _ => (c, h)
  | _ => (0, empty_heap)
  end.

Definition foo_or_bar : Expression :=
  Sequence ALTERNATIVE [TextChunk (u "foo"); TextChunk (u "bar")].

(** The items of a generator whose consumer takes every item and
    touches nothing, each with the heap it was yielded in. *)
Fixpoint snapshots (A : Type) (g : Gen A) : list (A * Heap) :=
  match g with
  | GYield a h k => (a, h) :: snapshots (k h)
  | _ => []
  end.

(** ** The scenarios of the specification *)

(** [set {name} to {brightness}] *)
Definition set_name_to_brightness : Expression :=
  Sequence GROUP
    [TextChunk (u "set "); ListReference (u "name") (u "name");
     TextChunk (u " to "); ListReference (u "brightness") (u "brightness")].

(** What a result says: the name, value and text of every entity, and
    the unmatched entities, read in the heap [h]. *)
Definition entities_of (h : Heap) (r : RecognizeResult.t)
  : list (str * Any * str) * list UnmatchedEntity :=
  (map (fun a => (MatchEntity.name (get_entity h a),
                  MatchEntity.value (get_entity h a),
                  MatchEntity.text (get_entity h a)))
       (get_entity_list h (RecognizeResult.entities_list r)),
   map (get_unmatched h)
       (get_unmatched_list h (RecognizeResult.unmatched_entities_list r))).

Definition recognize_demo (sentence : Expression) (text : str)
    (allow_unmatched_entities : bool)
  : Result (list RecognizeResult.t) :=
  collect (recognize_all ascii_normalize_text ascii_is_word_char 5 text
             (one_sentence sentence) None None None None
             (Some (u "default")) allow_unmatched_entities empty_heap).

(* ================================================================== *)
(** * The rest of [recognize.py] *)
(* ================================================================== *)

(** [MatchEntity.text_clean]: [PUNCTUATION.sub("", self.text.strip())]. *)
Definition text_clean (e : MatchEntity.t) : str :=
  Text.remove_punctuation (Text.strip (MatchEntity.text e)).

(** The loop that ends the function [is_match]:
    [for c in contexts: if c.is_match: return c] and then
    [return None]. *)
Fixpoint first_match (maybe_match_contexts : Gen addr) : Result (option addr) :=
  match maybe_match_contexts with
  | GStop h => Return None h
  | GRaise e h => Raise e h
  | GDiverge => Diverge
  | GYield maybe_match_context h k =>
      if is_match h maybe_match_context
      then Return (Some maybe_match_context) h
      else first_match (k h)
  end.

Section SingleSentence.

Variable normalize_text : str -> str.
Variable is_word_char : char -> bool.

(** Lines 565-595 of the function [is_match(text, sentence, ...)]: the
    contexts that the sentence yields for the prepared text.  The
    parameter [entities] of the function is not read. *)
Definition is_match_contexts (fuel : nat) (text : str) (sentence : Expression)
    (slot_lists : option (dict SlotList))
    (expansion_rules : option (dict Expression))
    (skip_words : option (list str))
    (intent_context : option (dict Any))
    (ignore_whitespace : bool) (allow_unmatched_entities : bool) (h : Heap)
  : Gen addr :=
  let text := Text.strip (normalize_text text) in
  let text :=
    match skip_words with
    | Some (w :: ws) =>
        _remove_skip_words normalize_text is_word_char text (w :: ws)
          ignore_whitespace
    | _ => text
    end in
  let text :=
    if ignore_whitespace then Text.remove_whitespace text else text ++ u " " in
  let slot_lists := match slot_lists with None => [] | Some l => l end in
  let expansion_rules :=
    match expansion_rules with None => [] | Some r => r end in
  let intent_context :=
    match intent_context with None => [] | Some d => d end in
  let settings :=
    MatchSettings.mk slot_lists expansion_rules ignore_whitespace
      allow_unmatched_entities in
  let (match_context, h1) := initial_context text intent_context h in
  match_expression settings fuel match_context sentence h1.

(** The function [is_match(text, sentence, ...)] of the module (the
    property of the same name of [MatchContext] is [is_match] above). *)
Definition is_match_sentence (fuel : nat) (text : str) (sentence : Expression)
    (slot_lists : option (dict SlotList))
    (expansion_rules : option (dict Expression))
    (skip_words : option (list str))
    (intent_context : option (dict Any))
    (ignore_whitespace : bool) (allow_unmatched_entities : bool) (h : Heap)
  : Result (option addr) :=
  first_match
    (is_match_contexts fuel text sentence slot_lists expansion_rules
       skip_words intent_context ignore_whitespace allow_unmatched_entities h).

End SingleSentence.

(** ** Specification-side definitions for the properties below *)

(** What the check before matching accepts for an expected value: a
    member of a list, a substring of a string, anything equal
    otherwise. *)
Definition accepted_before (actual_value required_value : Any) : bool :=
  match required_value with
  | VList l => existsb (value_eqb actual_value) l
  | VStr t =>
      match actual_value with
      | VStr s => is_substring s t
      | _ => false
      end
  | _ => value_eqb actual_value required_value
  end.

(** An entry of [requires_context] that the check before matching lets
    pass. *)
Definition passes_before (intent_context : dict Any) (entry : str * Any) : bool :=
  is_none (snd entry)
  || match dict_get intent_context (fst entry) with
     | None => true
     | Some actual_value => accepted_before actual_value (snd entry)
     end.

(** Expressions made of text chunks and sequences only, and their
    nesting depth. *)
Fixpoint reference_free (e : Expression) : bool :=
  match e with
  | TextChunk _ => true
  | Sequence _ items => forallb reference_free items
  | ListReference _ _ | RuleReference _ => false
  end.

Fixpoint depth (e : Expression) : nat :=
  match e with
  | Sequence _ items => S (fold_right (fun item d => Nat.max (depth item) d) 0 items)
  | _ => 0
  end.

(** The two texts that the [TextChunk] branch compares (lines 633-646). *)
Definition compared_texts (settings : MatchSettings.t) (c : MatchContext.t)
    (chunk_raw : str) : str * str :=
  if MatchSettings.ignore_whitespace settings
  then (Text.remove_whitespace chunk_raw,
        Text.remove_whitespace (MatchContext.text c))
  else if MatchContext.is_start_of_word c
  then (Text.lstrip chunk_raw, Text.lstrip (MatchContext.text c))
  else (chunk_raw, MatchContext.text c).

(** The slots of [slots] that no entity names, in order. *)
Definition missing_slots (entity_names : list str) (slots : dict Any) : dict Any :=
  filter (fun kv => negb (existsb (Text.eqb (fst kv)) entity_names)) slots.

(** A text of punctuation and white space only. *)
Definition only_punctuation_and_space (s : str) : bool :=
  forallb (fun c => Text.is_punctuation c || Text.is_space c) s.

(** What the context [c'] yielded for [slot_value] captures, when
    matching the text of the value has yielded [value_context] in [h]:
    the text of [c'] is the text that the value left; the entities are
    those of the input context followed by one new entity named after
    the slot, with the output value of this slot value and, as text, the
    beginning of the input text, as long as the text that
    [value_context] has lost. *)
Definition capture_yield (context : addr) (slot_name : str)
    (slot_value : TextSlotValue.t) (value_context : addr) (h : Heap)
    (c' : addr) (h' : Heap) : Prop :=
  let c := get_context h context in
  let vc := get_context h value_context in
  let captured :=
    firstn (length (MatchContext.text c) - length (MatchContext.text vc))
           (MatchContext.text c) in
  MatchContext.text (get_context h' c') = MatchContext.text vc
  /\ get_entity_list h' (MatchContext.entities (get_context h' c'))
     = get_entity_list h (MatchContext.entities c)
       ++ [length (entity_objs h)]
  /\ get_entity h' (length (entity_objs h))
     = MatchEntity.mk slot_name (TextSlotValue.value_out slot_value)
                      captured false true
  /\ (exists suffix, MatchContext.text c = captured ++ suffix)
  /\ (forall consumed,
         MatchContext.text c = consumed ++ MatchContext.text vc ->
         captured = consumed).

(** The report of a mismatch captures nothing: it has the text and the
    entity list of the input context, and one new unmatched text entity,
    open and empty, named after the slot. *)
Definition mismatch_captures_nothing (context : addr) (slot_name : str)
    (h : Heap) (c' : addr) (h' : Heap) : Prop :=
  let c := get_context h context in
  MatchContext.text (get_context h' c') = MatchContext.text c
  /\ MatchContext.entities (get_context h' c') = MatchContext.entities c
  /\ entity_lists h' = entity_lists h
  /\ get_unmatched_list h'
       (MatchContext.unmatched_entities (get_context h' c'))
     = get_unmatched_list h (MatchContext.unmatched_entities c)
       ++ [length (unmatched_objs h)]
  /\ get_unmatched h' (length (unmatched_objs h))
     = UnmatchedTextEntity slot_name [] true.

(** A context [c'] in [h'] that has only white space left, and the lists
    and intent context of [context] in [h], where no entity object has
    changed from [h] to [h']. *)
Definition blank_step (h : Heap) (context : addr) (c' : addr) (h' : Heap) : Prop :=
  forallb Text.is_space (MatchContext.text (get_context h' c')) = true
  /\ MatchContext.entities (get_context h' c')
     = MatchContext.entities (get_context h context)
  /\ MatchContext.unmatched_entities (get_context h' c')
     = MatchContext.unmatched_entities (get_context h context)
  /\ MatchContext.intent_context (get_context h' c')
     = MatchContext.intent_context (get_context h context)
  /\ entity_objs h' = entity_objs h
  /\ unmatched_objs h' = unmatched_objs h.

(** What a literal that matches at the beginning of the text leaves:
    the context [c'] in [h'] has the text [rest], the lists and intent
    context of [context] in [h], every entity of these lists is closed
    and none is open at the end. *)
Definition literal_step (h : Heap) (context : addr) (rest : str)
    (start_of_word : bool) (c' : addr) (h' : Heap) : Prop :=
  let c := get_context h context in
  MatchContext.text (get_context h' c') = rest
  /\ MatchContext.is_start_of_word (get_context h' c') = start_of_word
  /\ MatchContext.entities (get_context h' c') = MatchContext.entities c
  /\ MatchContext.unmatched_entities (get_context h' c')
     = MatchContext.unmatched_entities c
  /\ MatchContext.intent_context (get_context h' c')
     = MatchContext.intent_context c
  /\ (forall a, In a (get_entity_list h (MatchContext.entities c)) ->
                get_entity h' a = MatchEntity.set_open (get_entity h a) false)
  /\ (forall a, In a (get_unmatched_list h (MatchContext.unmatched_entities c)) ->
                get_unmatched h' a = close_unmatched_entity (get_unmatched h a))
  /\ get_open_wildcard h' c' = None
  /\ get_open_entity h' c' = None.

(** [MatchEntity(name=slot_name, value=slot_value, text="")] *)
Definition fixed_entity (slot : str * Any) : MatchEntity.t :=
  MatchEntity.mk (fst slot) (snd slot) [] false true.

(** No wildcard of the entity list at [entities] has blank text. *)
Definition wildcards_filled (h : Heap) (entities : addr) : Prop :=
  forall a,
    In a (get_entity_list h entities) ->
    MatchEntity.is_wildcard (get_entity h a) = true ->
    Text.strip (MatchEntity.text (get_entity h a)) <> [].

(** No unmatched text entity of the list at [unmatched_entities] has
    blank text. *)
Definition unmatched_filled (h : Heap) (unmatched_entities : addr) : Prop :=
  forall a n t o,
    In a (get_unmatched_list h unmatched_entities) ->
    get_unmatched h a = UnmatchedTextEntity n t o ->
    Text.strip t <> [].

Definition result_filled (r : RecognizeResult.t) (h : Heap) : Prop :=
  wildcards_filled h (RecognizeResult.entities_list r)
  /\ unmatched_filled h (RecognizeResult.unmatched_entities_list r).

(** The consumer of a generator got all its items and no error. *)
Definition returns (A : Type) (r : Result A) : Prop :=
  match r with Return _ _ => True | _ => False end.

(* ================================================================== *)
(** * Properties *)
(* ================================================================== *)

(** ** The scenarios of the specification, run on the model *)

Example scenario_set_brightness :
  match recognize_demo set_name_to_brightness (u "set kitchen light to 45")
          false with
  | Return [r] h =>
      entities_of h r
      = ([(u "name", VStr (u "light.kitchen"), u "kitchen light");
          (u "brightness", VInt 45, u "45")], [])
      /\ RecognizeResult.response r = Some (u "default")
  | _ => False
  end.
Proof. vm_compute. split; reflexivity. Qed.

Example scenario_out_of_range_strict :
  exists h,
    recognize_demo set_name_to_brightness (u "set kitchen light to 150") false
    = Return [] h.
Proof. eexists. vm_compute. reflexivity. Qed.

Example scenario_out_of_range_tolerant :
  match recognize_demo set_name_to_brightness (u "set kitchen light to 150")
          true with
  | Return [r] h =>
      entities_of h r
      = ([(u "name", VStr (u "light.kitchen"), u "kitchen light")],
         [UnmatchedRangeEntity (u "brightness") 150])
  | _ => False
  end.
Proof. vm_compute. reflexivity. Qed.

Example scenario_wildcard_at_end :
  match recognize_demo
          (Sequence GROUP [TextChunk (u "play ");
                           ListReference (u "song") (u "song")])
          (u "play hey jude") false with
  | Return [r] h =>
      entities_of h r = ([(u "song", VStr (u "hey jude"), u "hey jude")], [])
  | _ => False
  end.
Proof. vm_compute. reflexivity. Qed.

(** ** Stores *)

Lemma nth_alloc (A : Type) (l : list A) (x d : A) :
  nth (length l) (l ++ [x]) d = x.
Proof.
  rewrite app_nth2 by lia. now rewrite Nat.sub_diag.
Qed.

Lemma nth_before_alloc (A : Type) (l : list A) (x d : A) (a : nat) :
  a < length l -> nth a (l ++ [x]) d = nth a l d.
Proof.
  intros Ha. now apply app_nth1.
Qed.

Lemma length_upd (A : Type) (l : list A) (n : nat) (x : A) :
  length (upd l n x) = length l.
Proof.
  revert n; induction l as [|y l IH]; intros [|n]; simpl; auto.
Qed.

Lemma nth_upd (A : Type) (l : list A) (n a : nat) (x d : A) :
  nth a (upd l n x) d
  = if (a =? n) && (n <? length l) then x else nth a l d.
Proof.
  revert n a; induction l as [|y l IH]; intros n a.
  - simpl. rewrite andb_false_r. now destruct n.
  - destruct n as [|n], a as [|a]; simpl; auto.
Qed.

Lemma nth_upd_same (A : Type) (l : list A) (n : nat) (x d : A) :
  n < length l -> nth n (upd l n x) d = x.
Proof.
  intros Hn. rewrite nth_upd, Nat.eqb_refl.
  apply Nat.ltb_lt in Hn. now rewrite Hn.
Qed.

Lemma nth_upd_other (A : Type) (l : list A) (n a : nat) (x d : A) :
  a <> n -> nth a (upd l n x) d = nth a l d.
Proof.
  intros Hn. rewrite nth_upd.
  apply Nat.eqb_neq in Hn. now rewrite Hn.
Qed.

(** ** Text and dictionaries *)

Lemma Text_eqb_eq (a b : str) : Text.eqb a b = true <-> a = b.
Proof.
  unfold Text.eqb. destruct (list_eq_dec N.eq_dec a b); split; congruence.
Qed.

Lemma Text_eqb_refl (a : str) : Text.eqb a a = true.
Proof. now apply Text_eqb_eq. Qed.

Lemma truthy_false (s : str) : Text.truthy s = false <-> s = [].
Proof. destruct s; simpl; split; congruence. Qed.

Lemma truthy_true (s : str) : Text.truthy s = true <-> s <> [].
Proof. destruct s; simpl; split; congruence. Qed.

Lemma dict_get_lookup_slot_list (settings : MatchSettings.t) (k : str)
    (l : SlotList) :
  dict_get (MatchSettings.slot_lists settings) k = Some l ->
  lookup_slot_list settings k = Some l.
Proof.
  unfold lookup_slot_list.
  destruct (MatchSettings.slot_lists settings); simpl; [discriminate | auto].
Qed.



(** ** Closing unmatched entities *)

Lemma close_unmatched_entity_idem (e : UnmatchedEntity) :
  close_unmatched_entity (close_unmatched_entity e) = close_unmatched_entity e.
Proof. now destruct e. Qed.

Lemma get_unmatched_close_step (h : Heap) (x a : addr) :
  get_unmatched (close_unmatched_step h x) a
  = if a =? x then close_unmatched_entity (get_unmatched h a)
    else get_unmatched h a.
Proof.
  unfold close_unmatched_step, get_unmatched, set_unmatched; simpl.
  rewrite nth_upd.
  destruct (Nat.eqb_spec a x) as [->|Hne]; simpl; auto.
  destruct (Nat.ltb_spec x (length (unmatched_objs h))) as [Hlt|Hge]; auto.
  now rewrite (nth_overflow _ _ Hge).
Qed.

Lemma get_unmatched_close_fold (l : list addr) (h : Heap) (a : addr) :
  get_unmatched (fold_left close_unmatched_step l h) a
  = if existsb (Nat.eqb a) l then close_unmatched_entity (get_unmatched h a)
    else get_unmatched h a.
Proof.
  revert h; induction l as [|x l IH]; intros h; simpl; auto.
  rewrite IH, get_unmatched_close_step.
  destruct (a =? x); simpl.
  - rewrite close_unmatched_entity_idem. now destruct (existsb (Nat.eqb a) l).
  - reflexivity.
Qed.

Lemma close_fold_frame (l : list addr) (h : Heap) :
  entity_objs (fold_left close_unmatched_step l h) = entity_objs h
  /\ entity_lists (fold_left close_unmatched_step l h) = entity_lists h
  /\ unmatched_lists (fold_left close_unmatched_step l h) = unmatched_lists h
  /\ context_objs (fold_left close_unmatched_step l h) = context_objs h.
Proof.
  revert h; induction l as [|x l IH]; intros h; simpl; auto.
  destruct (IH (close_unmatched_step h x)) as (-> & -> & -> & ->).
  now simpl.
Qed.

Lemma existsb_eqb_In (a : addr) (l : list addr) :
  In a l -> existsb (Nat.eqb a) l = true.
Proof.
  intros Hin. apply existsb_exists. exists a. split; auto using Nat.eqb_refl.
Qed.

(** ** List references *)

(** C10.  A list reference whose list resolves yields nothing when the
    remaining text is empty, whatever the kind of slot list and also in
    tolerant mode: the generator stops at once and the heap is as
    before, so no unmatched entity was made. *)
Theorem list_reference_on_empty_text :
  forall (settings : MatchSettings.t) (fuel : nat) (context : addr)
         (list_name slot_name : str) (slot_list : SlotList) (h : Heap),
    dict_get (MatchSettings.slot_lists settings) list_name = Some slot_list ->
    MatchContext.text (get_context h context) = [] ->
    match_expression settings (S fuel) context
      (ListReference list_name slot_name) h = GStop h.
Proof.
  intros settings fuel context list_name slot_name slot_list h Hget Htext.
  simpl. unfold match_list_reference.
  rewrite (dict_get_lookup_slot_list _ _ Hget).
  destruct slot_list; unfold match_range, match_wildcard;
    rewrite Htext; reflexivity.
Qed.

Lemma list_reference_on_empty_text_witness :
  match_expression tolerant_settings 1 0
    (ListReference (u "brightness") (u "brightness")) (heap_with [] [])
  = GStop (heap_with [] []).
Proof.
  apply (@list_reference_on_empty_text tolerant_settings 0 0
           (u "brightness") (u "brightness") (RangeSlotList 0 100 5)
           (heap_with [] [])); reflexivity.
Defined.

(** C5, as the claim states it, fails on a context whose remaining text
    is empty: the wildcard reference yields no context at all. *)
Lemma wildcard_reference_empty_text_counterexample :
  collect (match_expression strict_settings 1 0
             (ListReference (u "song") (u "song")) (heap_with [] []))
  = Return [] (heap_with [] []).
Proof. reflexivity. Qed.

(** C5, amended.  On a context whose remaining text is not empty, a
    reference to a wildcard list yields exactly one context: same text,
    intent context and start-of-word flag, the same list of unmatched
    entities, the entities of the input followed by one new open
    wildcard with empty text, and every unmatched text entity of the
    input closed. *)
Theorem wildcard_reference_emits_one :
  forall (settings : MatchSettings.t) (fuel : nat) (context : addr)
         (list_name slot_name : str) (h : Heap),
    dict_get (MatchSettings.slot_lists settings) list_name
      = Some WildcardSlotList ->
    MatchContext.text (get_context h context) <> [] ->
    exists (c' : addr) (h' : Heap),
      match_expression settings (S fuel) context
        (ListReference list_name slot_name) h = GYield c' h' GStop
      /\ MatchContext.text (get_context h' c')
         = MatchContext.text (get_context h context)
      /\ MatchContext.intent_context (get_context h' c')
         = MatchContext.intent_context (get_context h context)
      /\ MatchContext.is_start_of_word (get_context h' c')
         = MatchContext.is_start_of_word (get_context h context)
      /\ MatchContext.unmatched_entities (get_context h' c')
         = MatchContext.unmatched_entities (get_context h context)
      /\ get_entity_list h' (MatchContext.entities (get_context h' c'))
         = get_entity_list h (MatchContext.entities (get_context h context))
           ++ [length (entity_objs h)]
      /\ get_entity h' (length (entity_objs h))
         = MatchEntity.mk slot_name (VStr []) [] true true
      /\ forall a,
           In a (get_unmatched_list h
                   (MatchContext.unmatched_entities (get_context h context))) ->
           get_unmatched h' a = close_unmatched_entity (get_unmatched h a).
Proof.
  intros settings fuel context list_name slot_name h Hget Htext.
  simpl. unfold match_list_reference.
  rewrite (dict_get_lookup_slot_list _ _ Hget).
  unfold match_wildcard.
  apply truthy_true in Htext. rewrite Htext.
  unfold new_MatchContext, close_unmatched_of, alloc_context, alloc_entity,
    alloc_entity_list, get_unmatched_list, get_entity_list, get_context,
    get_entity.
  cbn [entity_objs unmatched_objs entity_lists unmatched_lists context_objs].
  set (l := nth (MatchContext.unmatched_entities _) (unmatched_lists h) []).
  set (h2 := mkHeap _ _ _ _ _).
  destruct (close_fold_frame l h2) as (He & Hel & Hul & Hc).
  eexists _, _. split; [reflexivity|].
  cbn [entity_objs unmatched_objs entity_lists unmatched_lists context_objs].
  rewrite Hc, Hel, He.
  cbn [h2 entity_objs unmatched_objs entity_lists unmatched_lists context_objs].
  rewrite !nth_alloc.
  cbn [MatchContext.text MatchContext.intent_context MatchContext.entities
       MatchContext.is_start_of_word MatchContext.unmatched_entities].
  rewrite !nth_alloc.
  repeat split.
  intros a Ha.
  change (get_unmatched (fold_left close_unmatched_step l h2) a
          = close_unmatched_entity (get_unmatched h a)).
  rewrite get_unmatched_close_fold.
  rewrite existsb_eqb_In; [reflexivity | exact Ha].
Qed.

Lemma wildcard_reference_emits_one_witness :
  exists (c' : addr) (h' : Heap),
    match_expression strict_settings 1 0 (ListReference (u "song") (u "song"))
      (heap_with (u "hey jude ") []) = GYield c' h' GStop
    /\ MatchContext.text (get_context h' c') = u "hey jude "
    /\ get_entity h' 0 = MatchEntity.mk (u "song") (VStr []) [] true true.
Proof.
  destruct (@wildcard_reference_emits_one strict_settings 0 0 (u "song")
              (u "song") (heap_with (u "hey jude ") []))
    as (c' & h' & Hrun & Htext & _ & _ & _ & _ & Hent & _).
  - reflexivity.
  - vm_compute. discriminate.
  - exists c', h'. split; [exact Hrun|]. split; [exact Htext | exact Hent].
Defined.

(** ** Sequences *)

Lemma group_fold_no_candidates
    (recur : addr -> Expression -> Heap -> Gen addr)
    (items : list Expression) (h : Heap) :
  group_fold recur items [] h = Return [] h.
Proof.
  induction items as [|item rest IH]; simpl; auto.
Qed.

(** The loop with its [break] computes the fold without one. *)
Lemma group_loop_is_fold (recur : addr -> Expression -> Heap -> Gen addr)
    (items : list Expression) :
  forall (candidates : list addr) (h : Heap),
    group_loop recur items candidates h = group_fold recur items candidates h.
Proof.
  induction items as [|item rest IH]; intros candidates h; simpl; auto.
  destruct (collect_flat (fun c => recur c item) candidates h)
    as [[|c cs] h1 | e h1 | ]; auto.
  now rewrite group_fold_no_candidates.
Qed.

(** C6, as the claim states it, fails on a GROUP without items: the
    claim has it emit the input context, the code emits nothing. *)
Lemma empty_group_counterexample :
  collect (match_expression strict_settings 1 0 (Sequence GROUP [])
             (heap_with (u "hello ") []))
  = Return [] (heap_with (u "hello ") []).
Proof. reflexivity. Qed.

(** C6, amended.  A GROUP with at least one item is matched as a left
    fold: the candidates start as the input context alone, every item
    in order replaces them with the flat-map of matching the item over
    them (stopping early on an empty list changes nothing), and every
    surviving context is emitted in order.  A GROUP without items emits
    nothing. *)
Theorem group_is_left_fold :
  forall (settings : MatchSettings.t) (fuel : nat) (context : addr)
         (item : Expression) (rest : list Expression) (h : Heap),
    match_expression settings (S fuel) context
      (Sequence GROUP (item :: rest)) h
    = emit_all (group_fold (match_expression settings fuel) (item :: rest)
                           [context] h)
    /\ match_expression settings (S fuel) context (Sequence GROUP []) h
       = GStop h.
Proof.
  intros settings fuel context item rest h. split; [|reflexivity].
  cbn [match_expression]. unfold match_group.
  rewrite group_loop_is_fold.
  destruct (group_fold _ _ _ _); reflexivity.
Qed.

(** ** Missing lists and rules *)















Section DriverRaises.

Variables (fuel : nat) (text : str) (given : dict Any)
          (default_response : option str) (allow : bool) (e : Error).



Variables (intents : Intents.t) (slot_lists : option (dict SlotList))
          (expansion_rules : option (dict Expression)).

(** The settings that [recognize_all] builds before its loops. *)
Let settings : MatchSettings.t :=
  MatchSettings.mk
    (match slot_lists with
     | None => Intents.slot_lists intents
     | Some l => dict_merge (Intents.slot_lists intents) l
     end)
    (match expansion_rules with
     | None => Intents.expansion_rules intents
     | Some r => dict_merge (Intents.expansion_rules intents) r
     end)
    (Intents.ignore_whitespace intents) allow.





End DriverRaises.



(** ** Accepted contexts *)

Lemma lstrip_nil_iff (s : str) :
  Text.lstrip s = [] <-> forallb Text.is_space s = true.
Proof.
  induction s as [|c s IH]; simpl; [tauto|].
  destruct (Text.is_space c); simpl; [exact IH|].
  split; discriminate.
Qed.

Lemma lstrip_head (s : str) (c : char) (r : str) :
  Text.lstrip s = c :: r -> Text.is_space c = false.
Proof.
  induction s as [|d s IH]; simpl; [discriminate|].
  destruct (Text.is_space d) eqn:Hd; auto.
  intros [= <- <-]. exact Hd.
Qed.

Lemma forallb_rev (A : Type) (p : A -> bool) (l : list A) :
  forallb p (rev l) = forallb p l.
Proof.
  induction l as [|x l IH]; simpl; auto.
  rewrite forallb_app, IH. simpl. rewrite andb_true_r. apply andb_comm.
Qed.

(** [s.strip()] is empty exactly when [s] is white space only. *)
Lemma strip_nil_iff (s : str) :
  Text.strip s = [] <-> forallb Text.is_space s = true.
Proof.
  unfold Text.strip, Text.rstrip.
  rewrite <- lstrip_nil_iff.
  split.
  - intros H.
    assert (Hl : Text.lstrip (rev (Text.lstrip s)) = []).
    { destruct (Text.lstrip (rev (Text.lstrip s))) as [|c0 l0];
        [reflexivity|].
      simpl in H. now destruct (rev l0). }
    apply lstrip_nil_iff in Hl. rewrite forallb_rev in Hl.
    destruct (Text.lstrip s) as [|c r] eqn:E; [reflexivity|].
    apply lstrip_head in E. simpl in Hl. now rewrite E in Hl.
  - intros ->. reflexivity.
Qed.

Lemma existsb_false_In (A : Type) (f : A -> bool) (l : list A) (a : A) :
  existsb f l = false -> In a l -> f a = false.
Proof.
  intros Hex Hin. destruct (f a) eqn:Hfa; auto.
  rewrite <- Hex. symmetry. apply existsb_exists. now exists a.
Qed.

(** C3.  [is_match] holds exactly when the remaining text, with the
    punctuation characters removed and then stripped of white space, is
    empty, every entity that is a wildcard has text that is not empty
    after stripping, and every unmatched text entity has text that is
    not empty after stripping. *)
Theorem is_match_iff :
  forall (h : Heap) (context : addr),
    is_match h context = true
    <-> Text.strip (Text.remove_punctuation
                      (MatchContext.text (get_context h context))) = []
        /\ (forall a,
               In a (get_entity_list h
                       (MatchContext.entities (get_context h context))) ->
               MatchEntity.is_wildcard (get_entity h a) = true ->
               Text.strip (MatchEntity.text (get_entity h a)) <> [])
        /\ (forall a name text is_open,
               In a (get_unmatched_list h
                       (MatchContext.unmatched_entities
                          (get_context h context))) ->
               get_unmatched h a = UnmatchedTextEntity name text is_open ->
               Text.strip text <> []).
Proof.
  intros h context. unfold is_match.
  set (c := get_context h context).
  destruct (Text.truthy (Text.strip (Text.remove_punctuation (MatchContext.text c))))
    eqn:Htext.
  - split; [discriminate|]. intros (H & _).
    apply truthy_true in Htext. contradiction.
  - apply truthy_false in Htext.
    match goal with
    | |- (if ?e then _ else _) = _ <-> _ => destruct e eqn:Hent
    end.
    + split; [discriminate|]. intros (_ & H & _).
      apply existsb_exists in Hent. destruct Hent as (a & Hin & Ha).
      apply andb_true_iff in Ha. destruct Ha as (Hw & Hempty).
      apply negb_true_iff, truthy_false in Hempty.
      now elim (H a Hin Hw).
    + match goal with
      | |- (if ?e then _ else _) = _ <-> _ => destruct e eqn:Hun
      end.
      * split; [discriminate|]. intros (_ & _ & H).
        apply existsb_exists in Hun. destruct Hun as (a & Hin & Ha).
        destruct (get_unmatched h a) as [n t o|] eqn:Hget; [|discriminate].
        apply negb_true_iff, truthy_false in Ha.
        now elim (H a n t o Hin Hget).
      * split; [intros _|reflexivity].
        split; [exact Htext|]. split.
        -- intros a Hin Hw Hempty.
           apply (existsb_false_In _ _ _ Hent) in Hin.
           cbv beta zeta in Hin. rewrite Hw, Hempty in Hin. discriminate.
        -- intros a n t o Hin Hget Hempty.
           apply (existsb_false_In _ _ _ Hun) in Hin.
           cbv beta in Hin. rewrite Hget, Hempty in Hin. discriminate.
Qed.

(** ** The check before matching *)

(** The entries of [excludes_context] never reach the check before
    matching: only whether there are any. *)
Lemma skip_before_match_ignores_excluded_entries
    (intent_context : dict Any) (d : IntentData.t) (excludes : dict Any) :
  dict_truthy excludes = dict_truthy (IntentData.excludes_context d) ->
  skip_before_match intent_context
    (IntentData.mk (IntentData.sentences d) (IntentData.slots d)
                   (IntentData.response d) (IntentData.requires_context d)
                   excludes (IntentData.expansion_rules d))
  = skip_before_match intent_context d.
Proof.
  intros H. unfold skip_before_match. simpl. now rewrite H.
Qed.

(** C1, the code at the failing inputs.  With [area = kitchen] in the
    intent context, intent data that excludes [area = kitchen] is not
    skipped before matching, and intent data that requires
    [area = kitchen] and excludes only the absent key [floor] is
    skipped: the second loop runs over the required entries.  The check
    of the specification says the opposite both times. *)
Theorem excludes_check_runs_over_requires :
  skip_before_match in_kitchen excludes_kitchen = inr false
  /\ excluded_before in_kitchen
       (IntentData.excludes_context excludes_kitchen) = true
  /\ skip_before_match in_kitchen requires_kitchen_excludes_floor = inr true
  /\ requires_before in_kitchen
       (IntentData.requires_context requires_kitchen_excludes_floor)
     = inr false
  /\ excluded_before in_kitchen
       (IntentData.excludes_context requires_kitchen_excludes_floor) = false.
Proof. repeat split. Qed.

(** ** [recognize] *)

(** C9.  [recognize] returns the first result that [recognize_all]
    yields for the same arguments, returns [None] exactly when
    [recognize_all] ends without yielding, and raises exactly when
    [recognize_all] raises before its first result; so when the whole
    stream can be listed, [recognize] returns the head of the list. *)
Theorem recognize_is_first_of_recognize_all :
  forall (normalize_text : str -> str) (is_word_char : char -> bool)
         (fuel : nat) (text : str) (intents : Intents.t)
         (slot_lists : option (dict SlotList))
         (expansion_rules : option (dict Expression))
         (skip_words : option (list str))
         (intent_context : option (dict Any))
         (default_response : option str) (allow : bool) (h : Heap),
    let all :=
      recognize_all normalize_text is_word_char fuel text intents slot_lists
        expansion_rules skip_words intent_context default_response allow h in
    let one :=
      recognize normalize_text is_word_char fuel text intents slot_lists
        expansion_rules skip_words intent_context default_response allow h in
    (forall result h',
        one = Return (Some result) h' <-> exists k, all = GYield result h' k)
    /\ (forall h', one = Return None h' <-> all = GStop h')
    /\ (forall e h', one = Raise e h' <-> all = GRaise e h')
    /\ (forall results h',
           collect all = Return results h' ->
           exists h1, one = Return (hd_error results) h1).
Proof.
  intros normalize_text is_word_char fuel text intents slot_lists
    expansion_rules skip_words intent_context default_response allow h all one.
  assert (Hone : one = return_first all) by reflexivity.
  rewrite Hone. clearbody all. clear Hone one.
  destruct all as [h0 | e0 h0 | | a h0 k]; simpl;
    (split; [|split; [|split]]); intros.
  all: try (split; intros H; try destruct H as (? & H); congruence).
  - injection H as <- <-. now exists h0.
  - discriminate.
  - discriminate.
  - split.
    + intros [= <- <-]. now exists k.
    + intros (k' & [= <- <- _]). reflexivity.
  - destruct (collect (k h0)) as [l h1 | |]; try discriminate.
    injection H as <- <-. now exists h0.
Qed.

(** ** Context overlays of slot values *)

Lemma dict_get_set (V : Type) (d : dict V) (k k' : str) (v : V) :
  dict_get (dict_set d k v) k'
  = if Text.eqb k k' then Some v else dict_get d k'.
Proof.
  induction d as [|[k0 v0] d IH]; simpl.
  - reflexivity.
  - destruct (Text.eqb k0 k) eqn:E0; simpl.
    + apply Text_eqb_eq in E0. subst k0.
      destruct (Text.eqb k k'); reflexivity.
    + destruct (Text.eqb k0 k') eqn:E1.
      * apply Text_eqb_eq in E1. subst k0.
        destruct (Text.eqb k k') eqn:E2; [|reflexivity].
        apply Text_eqb_eq in E2. subst k.
        rewrite Text_eqb_refl in E0. discriminate.
      * exact IH.
Qed.

Lemma dict_get_not_key (V : Type) (d : dict V) (k : str) :
  ~ In k (map fst d) -> dict_get d k = None.
Proof.
  induction d as [|[k0 v0] d IH]; simpl; auto.
  intros Hnot. destruct (Text.eqb k0 k) eqn:E.
  - apply Text_eqb_eq in E. tauto.
  - apply IH. tauto.
Qed.

(** [{**a, **b}[k]] is [b[k]] when [b] has the key, else [a[k]]. *)
Lemma dict_get_merge (V : Type) (b : dict V) :
  NoDup (map fst b) ->
  forall (a : dict V) (k : str),
    dict_get (dict_merge a b) k
    = match dict_get b k with
      | Some v => Some v
      | None => dict_get a k
      end.
Proof.
  unfold dict_merge.
  induction b as [|[k0 v0] b IH]; simpl; intros Hnd a k; auto.
  inversion Hnd as [|? ? Hnot Hnd']; subst.
  rewrite IH by assumption. rewrite dict_get_set.
  destruct (Text.eqb k0 k) eqn:E.
  - apply Text_eqb_eq in E. subst k0.
    now rewrite (dict_get_not_key _ _ Hnot).
  - reflexivity.
Qed.

Lemma overlay_merged_merge (prior overlay : dict Any) :
  NoDup (map fst overlay) ->
  overlay_merged prior overlay (dict_merge prior overlay).
Proof.
  intros Hnd. unfold overlay_merged. split; [reflexivity|].
  split; [|split].
  - intros k v Hk. now rewrite dict_get_merge, Hk.
  - intros k Hk. now rewrite dict_get_merge, Hk.
  - intros k. unfold dict_mem. rewrite dict_get_merge by assumption.
    destruct (dict_get overlay k); auto.
Qed.

(** The intent context of the context that [slot_value_context]
    builds. *)
(** ** Closing wildcards *)

Lemma close_wildcards_fold_frame (l : list addr) (h : Heap) :
  unmatched_objs (fold_left close_wildcard_step l h) = unmatched_objs h
  /\ entity_lists (fold_left close_wildcard_step l h) = entity_lists h
  /\ unmatched_lists (fold_left close_wildcard_step l h) = unmatched_lists h
  /\ context_objs (fold_left close_wildcard_step l h) = context_objs h
  /\ length (entity_objs (fold_left close_wildcard_step l h))
     = length (entity_objs h).
Proof.
  revert h; induction l as [|x l IH]; intros h; simpl; auto.
  destruct (IH (close_wildcard_step h x)) as (-> & -> & -> & -> & ->).
  simpl. now rewrite length_upd.
Qed.

Ltac unfold_heap :=
  unfold new_MatchContext, close_unmatched_of, close_wildcards_of,
    alloc_context, alloc_entity, alloc_entity_list, alloc_unmatched,
    alloc_unmatched_list, get_unmatched_list, get_entity_list, get_context,
    get_entity, get_unmatched;
  cbn [entity_objs unmatched_objs entity_lists unmatched_lists context_objs
       fst snd].

Ltac read_context :=
  rewrite ?nth_alloc;
  cbn [MatchContext.text MatchContext.intent_context MatchContext.entities
       MatchContext.is_start_of_word MatchContext.unmatched_entities];
  rewrite ?nth_alloc.

Lemma slot_value_context_intent_context (context : addr) (slot_name : str)
    (slot_value : TextSlotValue.t) (value_context : addr) (h : Heap) :
  MatchContext.intent_context
    (get_context (snd (slot_value_context context slot_name slot_value
                         value_context h))
                 (fst (slot_value_context context slot_name slot_value
                         value_context h)))
  = match TextSlotValue.context slot_value with
    | Some (kv :: overlay) =>
        dict_merge (MatchContext.intent_context (get_context h context))
                   (kv :: overlay)
    | _ => MatchContext.intent_context (get_context h value_context)
    end.
Proof.
  unfold slot_value_context, new_MatchContext, alloc_context, alloc_entity,
    alloc_entity_list, get_context.
  cbn [entity_objs unmatched_objs entity_lists unmatched_lists context_objs].
  destruct (TextSlotValue.context slot_value) as [[|kv overlay]|];
    cbn [fst snd context_objs]; now rewrite nth_alloc.
Qed.

Lemma unmatched_text_context_intent_context (context : addr)
    (slot_name : str) (h : Heap) :
  MatchContext.intent_context
    (get_context (snd (unmatched_text_context context slot_name h))
                 (fst (unmatched_text_context context slot_name h)))
  = MatchContext.intent_context (get_context h context).
Proof.
  unfold unmatched_text_context. unfold_heap.
  set (l := nth (MatchContext.entities _) (entity_lists h) []).
  set (h2 := mkHeap _ _ _ _ _).
  destruct (close_wildcards_fold_frame l h2) as (_ & _ & _ & Hc & _).
  rewrite Hc. cbn [h2 context_objs]. now read_context.
Qed.

(** The loop over the values of a text slot list yields one context for
    every sub-context of every value, made by [slot_value_context] from
    this value and this sub-context, and the reports of the values that
    did not match. *)
Lemma for_slot_values_stream (settings : MatchSettings.t)
    (recur : addr -> Expression -> Heap -> Gen addr) (context : addr)
    (slot_name : str)
    (for_value : TextSlotValue.t -> addr -> Heap -> addr -> Heap -> Prop)
    (for_mismatch : Heap -> addr -> Heap -> Prop) :
  (forall slot_value value_context h,
      for_value slot_value value_context h
        (fst (slot_value_context context slot_name slot_value value_context h))
        (snd (slot_value_context context slot_name slot_value value_context h))) ->
  (forall h,
      for_mismatch h
        (fst (unmatched_text_context context slot_name h))
        (snd (unmatched_text_context context slot_name h))) ->
  forall values h,
    value_stream (MatchSettings.allow_unmatched_entities settings) recur
      context for_value for_mismatch values h
      (for_slot_values settings recur context slot_name values h).
Proof.
  intros Hvalue Hreport.
  induction values as [|slot_value rest IH]; intros h; cbn [for_slot_values].
  - constructor.
  - apply stream_value. unfold fork. cbv zeta.
    destruct (new_MatchContext h _ _ _ _ _ false false) as [copy h0].
    cbn [fst snd].
    generalize false as has_matches.
    generalize (recur copy (TextSlotValue.text_in slot_value) h0) as g.
    induction g as [h1 | e h1 | | value_context h1 k IHk];
      intros has_matches; cbn [for_value_contexts].
    + destruct has_matches; cbn [negb andb].
      * apply contexts_next; [now left | apply IH].
      * destruct (MatchSettings.allow_unmatched_entities settings) eqn:Hallow.
        -- specialize (Hreport h1).
           destruct (unmatched_text_context context slot_name h1) as [c' h2].
           apply contexts_mismatch; [reflexivity | exact Hreport | exact IH].
        -- apply contexts_next; [now right | apply IH].
    + constructor.
    + constructor.
    + assert (Hv := Hvalue slot_value value_context h1).
      destruct (slot_value_context context slot_name slot_value
                  value_context h1) as [c' h2].
      apply contexts_yield; [exact Hv|]. intros h3. apply IHk.
Qed.

(** C8.  A reference to a text slot list, against a context with text
    left, yields one context for every sub-context that matching the
    text of a value yields, value by value in the order of the list, and
    nothing else but the reports of values that did not match.  The
    context yielded for a value that carries a context overlay has as
    intent context the intent context of the input merged with the
    overlay of that value: every entry of the overlay is in it (the
    overlay wins on a shared key), every other key keeps its value, and
    no key that was present is lost.  For a value without overlay it is
    the intent context of the sub-context, and a report has the intent
    context of the input. *)
Theorem overlay_is_merged_into_intent_context :
  forall (settings : MatchSettings.t) (fuel : nat) (context : addr)
         (list_name slot_name : str) (values : list TextSlotValue.t)
         (h : Heap),
    dict_get (MatchSettings.slot_lists settings) list_name
      = Some (TextSlotList values) ->
    MatchContext.text (get_context h context) <> [] ->
    value_stream (MatchSettings.allow_unmatched_entities settings)
      (match_expression settings fuel) context
      (overlay_yield context) (mismatch_keeps_intent_context context)
      values h
      (match_expression settings (S fuel) context
         (ListReference list_name slot_name) h).
Proof.
  intros settings fuel context list_name slot_name values h Hget Htext.
  cbn [match_expression]. unfold match_list_reference.
  rewrite (dict_get_lookup_slot_list _ _ Hget).
  apply truthy_true in Htext. rewrite Htext.
  apply for_slot_values_stream.
  - intros slot_value value_context h0. unfold overlay_yield. cbv zeta.
    rewrite slot_value_context_intent_context. split.
    + intros overlay Hctx Hne Hnd. rewrite Hctx.
      destruct overlay as [|kv overlay]; [congruence|].
      now apply overlay_merged_merge.
    + intros [-> | ->]; reflexivity.
  - intros h0. apply unmatched_text_context_intent_context.
Qed.

Lemma overlay_is_merged_into_intent_context_witness :
  value_stream false (match_expression two_lights 1) 0
    (overlay_yield 0) (mismatch_keeps_intent_context 0)
    [bedroom_light; kitchen_light]
    (heap_with (u "kitchen light ") [(u "area", VStr (u "hall"))])
    (match_expression two_lights 2 0 (ListReference (u "name") (u "name"))
       (heap_with (u "kitchen light ") [(u "area", VStr (u "hall"))])).
Proof.
  apply (@overlay_is_merged_into_intent_context two_lights 1 0
           (u "name") (u "name") [bedroom_light; kitchen_light]
           (heap_with (u "kitchen light ") [(u "area", VStr (u "hall"))])).
  - reflexivity.
  - vm_compute. discriminate.
Defined.

(** The overlay of the value that matched, and of no other: with the
    values [bedroom light] and [kitchen light] in the list, [{name}]
    against [kitchen light] in a context that says [area = hall] yields
    one context, which says [area = kitchen] and holds the entity
    [light.kitchen]. *)
Example overlay_of_the_matching_value :
  exists c' h',
    collect
      (match_expression two_lights 2 0 (ListReference (u "name") (u "name"))
         (heap_with (u "kitchen light ") [(u "area", VStr (u "hall"))]))
    = Return [c'] h'
    /\ MatchContext.intent_context (get_context h' c')
       = [(u "area", VStr (u "kitchen"))]
    /\ map (fun a => MatchEntity.value (get_entity h' a))
           (get_entity_list h' (MatchContext.entities (get_context h' c')))
       = [VStr (u "light.kitchen")].
Proof. eexists _, _. vm_compute. repeat split. Qed.

(** The overlay at work: [{name}] against [kitchen light] in a context
    that says [area = hall] yields one context, which says
    [area = kitchen]. *)
Example overlay_replaces_area :
  match collect
          (match_expression strict_settings 2 0
             (ListReference (u "name") (u "name"))
             (heap_with (u "kitchen light ") [(u "area", VStr (u "hall"))]))
  with
  | Return [c'] h' =>
      MatchContext.intent_context (get_context h' c')
      = [(u "area", VStr (u "kitchen"))]
  | _ => False
  end.
Proof. vm_compute. reflexivity. Qed.

(** ** Number lexing *)

Lemma span_spec (p : char -> bool) (s a b : str) :
  Text.span p s = (a, b) ->
  s = a ++ b
  /\ forallb p a = true
  /\ match b with c :: _ => p c = false | [] => True end.
Proof.
  revert a b; induction s as [|c s IH]; simpl; intros a b.
  - intros [= <- <-]. auto.
  - destruct (p c) eqn:Hc.
    + destruct (Text.span p s) as [a' b'] eqn:E.
      intros [= <- <-]. destruct (IH a' b' eq_refl) as (-> & Ha & Hb).
      simpl. rewrite Hc. auto.
    + intros [= <- <-]. simpl. auto.
Qed.

Lemma span_app (p : char -> bool) (a b : str) :
  forallb p a = true ->
  match b with c :: _ => p c = false | [] => True end ->
  Text.span p (a ++ b) = (a, b).
Proof.
  intros Ha Hb. induction a as [|c a IH]; simpl in *.
  - destruct b as [|c b]; simpl; [reflexivity | now rewrite Hb].
  - apply andb_true_iff in Ha. destruct Ha as (Hc & Ha).
    rewrite Hc, (IH Ha). reflexivity.
Qed.

Lemma digit_cases (c : char) :
  Text.is_digit c = true ->
  (c = 48 \/ c = 49 \/ c = 50 \/ c = 51 \/ c = 52 \/ c = 53 \/ c = 54
   \/ c = 55 \/ c = 56 \/ c = 57)%N.
Proof.
  unfold Text.is_digit. intros H. apply andb_true_iff in H.
  destruct H as (H1 & H2). apply N.leb_le in H1, H2. lia.
Qed.

Lemma digit_not_space (c : char) :
  Text.is_digit c = true -> Text.is_space c = false.
Proof.
  intros H. apply digit_cases in H.
  repeat (destruct H as [-> | H]; [reflexivity|]). now subst.
Qed.

Lemma digit_not_minus (c : char) :
  Text.is_digit c = true -> N.eqb c 45 = false.
Proof.
  intros H. apply digit_cases in H.
  repeat (destruct H as [-> | H]; [reflexivity|]). now subst.
Qed.

Lemma lstrip_spaces_app (ws x : str) :
  forallb Text.is_space ws = true -> Text.lstrip (ws ++ x) = Text.lstrip x.
Proof.
  induction ws as [|c ws IH]; simpl; auto.
  intros H. apply andb_true_iff in H. destruct H as (Hc & Hws).
  rewrite Hc. auto.
Qed.

(** The last character of a run of digits is a digit. *)
Lemma digits_snoc (ds : str) :
  ds <> [] -> forallb Text.is_digit ds = true ->
  exists ds' d, ds = ds' ++ [d] /\ Text.is_digit d = true.
Proof.
  intros Hne Hds. destruct (exists_last Hne) as (ds' & d & ->).
  exists ds', d. split; [reflexivity|].
  rewrite forallb_app in Hds. apply andb_true_iff in Hds.
  simpl in Hds. now rewrite andb_true_r in Hds.
Qed.

Lemma int_space_cases (c : char) :
  Text.is_space c = true ->
  (Text.is_int_space c = true /\ is_separator_control c = false)
  \/ (Text.is_int_space c = false /\ is_separator_control c = true).
Proof.
  intros Hc. unfold Text.is_int_space, is_separator_control. rewrite Hc.
  destruct ((28 <=? c)%N && (c <=? 31)%N); auto.
Qed.

Lemma control_not_digit (c : char) :
  is_separator_control c = true ->
  Text.is_digit c = false /\ N.eqb c 45 = false.
Proof.
  unfold is_separator_control, Text.is_digit. intros H.
  apply andb_true_iff in H. destruct H as (H1 & H2).
  apply N.leb_le in H1, H2. split.
  - apply andb_false_iff. left. apply N.leb_gt. lia.
  - apply N.eqb_neq. lia.
Qed.

Lemma digit_not_control (c : char) :
  Text.is_digit c = true -> is_separator_control c = false.
Proof.
  intros H. apply digit_cases in H.
  repeat (destruct H as [-> | H]; [reflexivity|]). now subst.
Qed.

Lemma digit_not_int_space (c : char) :
  Text.is_digit c = true -> Text.is_int_space c = false.
Proof.
  intros H. unfold Text.is_int_space. now rewrite (digit_not_space _ H).
Qed.

(** What [int] strips in front of a number: all of the white space when
    none of it is one of U+001C to U+001F, and otherwise the white space
    up to the first of these. *)
Lemma lstrip_int_spaces (ws x : str) :
  forallb Text.is_space ws = true ->
  Text.lstrip_int x = x ->
  exists pre,
    Text.lstrip_int (ws ++ x) = pre ++ x
    /\ (existsb is_separator_control ws = false -> pre = [])
    /\ (existsb is_separator_control ws = true ->
        exists c0 r, pre = c0 :: r /\ is_separator_control c0 = true).
Proof.
  intros Hws Hx. induction ws as [|c ws IH]; simpl.
  - exists []. rewrite Hx. repeat split; auto. discriminate.
  - simpl in Hws. apply andb_true_iff in Hws. destruct Hws as (Hc & Hws).
    destruct (int_space_cases _ Hc) as [(Hi & Hn) | (Hi & Hy)];
      rewrite Hi.
    + destruct (IH Hws) as (pre & E & H0 & H1).
      exists pre. rewrite Hn. simpl. auto.
    + exists (c :: ws). rewrite Hy. simpl. split; [reflexivity|].
      split; [discriminate|]. intros _. now exists c, ws.
Qed.

Lemma rstrip_int_last (x : str) (d : char) :
  Text.is_int_space d = false ->
  rev (Text.lstrip_int (rev (x ++ [d]))) = x ++ [d].
Proof.
  intros Hd. rewrite rev_app_distr. simpl. rewrite Hd. simpl.
  now rewrite rev_involutive.
Qed.

Lemma existsb_control_number (ws sign ds : str) :
  sign = [] \/ sign = [45%N] ->
  forallb Text.is_digit ds = true ->
  existsb is_separator_control (ws ++ sign ++ ds)
  = existsb is_separator_control ws.
Proof.
  intros Hsign Hds. rewrite !existsb_app.
  assert (Hd : existsb is_separator_control ds = false).
  { induction ds as [|d ds IH]; simpl; auto.
    simpl in Hds. apply andb_true_iff in Hds. destruct Hds as (Hd & Hds).
    now rewrite (digit_not_control _ Hd), IH. }
  rewrite Hd. destruct Hsign as [-> | ->]; simpl;
    now rewrite ?orb_false_r.
Qed.

Lemma filter_digits_number (ws sign ds : str) :
  forallb Text.is_space ws = true ->
  sign = [] \/ sign = [45%N] ->
  forallb Text.is_digit ds = true ->
  filter Text.is_digit (ws ++ sign ++ ds) = ds.
Proof.
  intros Hws Hsign Hds. rewrite !filter_app.
  assert (Hw : filter Text.is_digit ws = []).
  { induction ws as [|c ws IH]; simpl; auto.
    simpl in Hws. apply andb_true_iff in Hws. destruct Hws as (Hc & Hws).
    destruct (Text.is_digit c) eqn:Hd; [|auto].
    rewrite (digit_not_space _ Hd) in Hc. discriminate. }
  assert (Hd : filter Text.is_digit ds = ds).
  { induction ds as [|d ds IH]; simpl; auto.
    simpl in Hds. apply andb_true_iff in Hds. destruct Hds as (Hd & Hds).
    now rewrite Hd, IH. }
  rewrite Hw, Hd. destruct Hsign as [-> | ->]; reflexivity.
Qed.

(** [int] reads the integer that the prefix writes, unless it refuses
    the prefix. *)
Lemma int_of_number (ws sign ds : str) (n : Z) :
  forallb Text.is_space ws = true ->
  (sign = [] /\ n = Text.digits_value ds)
  \/ (sign = [45%N] /\ n = (- Text.digits_value ds)%Z) ->
  ds <> [] -> forallb Text.is_digit ds = true ->
  Text.int (ws ++ sign ++ ds)
  = if int_refuses (ws ++ sign ++ ds) then None else Some n.
Proof.
  intros Hws Hsign Hne Hds.
  assert (Hsign' : sign = [] \/ sign = [45%N])
    by (destruct Hsign as [[-> _]|[-> _]]; auto).
  unfold int_refuses.
  rewrite existsb_control_number, filter_digits_number by assumption.
  destruct (digits_snoc Hne Hds) as (ds' & d & Eds & Hd).
  assert (Hbody : Text.lstrip_int (sign ++ ds) = sign ++ ds).
  { destruct Hsign' as [-> | ->]; simpl; [|reflexivity].
    destruct ds as [|c ds0]; [congruence|]. simpl.
    simpl in Hds. apply andb_true_iff in Hds. destruct Hds as (Hc & _).
    now rewrite (digit_not_int_space _ Hc). }
  destruct (@lstrip_int_spaces ws (sign ++ ds) Hws Hbody)
    as (pre & Estrip & Hclean & Hdirty).
  unfold Text.int. rewrite Estrip.
  assert (Hr : rev (Text.lstrip_int (rev (pre ++ sign ++ ds)))
               = pre ++ sign ++ ds).
  { rewrite Eds, !app_assoc. apply rstrip_int_last.
    now apply digit_not_int_space. }
  rewrite Hr. clear Hr Estrip.
  destruct (existsb is_separator_control ws) eqn:Hctl.
  - destruct (Hdirty eq_refl) as (c0 & r & -> & Hc0).
    destruct (control_not_digit _ Hc0) as (Hnd & Hnm).
    cbn [app orb]. rewrite Hnm. cbn [forallb]. rewrite Hnd. reflexivity.
  - rewrite (Hclean eq_refl). cbn [app orb].
    destruct (Z.ltb_spec Text.int_max_str_digits (Z.of_nat (length ds)))
      as [Hlong | Hshort].
    + assert (Hle : (Z.of_nat (length ds) <=? Text.int_max_str_digits)%Z = false)
        by (apply Z.leb_gt; lia).
      destruct Hsign as [[-> ->] | [-> ->]]; cbn [app].
      * destruct ds as [|c ds0]; [congruence|].
        assert (Hc : Text.is_digit c = true).
        { simpl in Hds. now apply andb_true_iff in Hds. }
        rewrite (digit_not_minus _ Hc), Hle. now rewrite andb_false_r.
      * rewrite N.eqb_refl, Hle. now rewrite andb_false_r.
    + assert (Hle : (Z.of_nat (length ds) <=? Text.int_max_str_digits)%Z = true)
        by (apply Z.leb_le; lia).
      destruct Hsign as [[-> ->] | [-> ->]]; cbn [app].
      * destruct ds as [|c ds0]; [congruence|].
        assert (Hc : Text.is_digit c = true).
        { simpl in Hds. now apply andb_true_iff in Hds. }
        rewrite (digit_not_minus _ Hc), Hds, Hle. reflexivity.
      * rewrite N.eqb_refl, Hds, Hle. apply truthy_true in Hne.
        now rewrite Hne.
Qed.

Lemma number_start_of_leading_integer (text prefix : str) (n : Z) (rest : str) :
  leading_integer text prefix n rest ->
  Text.number_start text = Some prefix
  /\ Text.int prefix = if int_refuses prefix then None else Some n.
Proof.
  intros (ws & sign & ds & -> & -> & Hws & Hsign & Hne & Hds & Hrest).
  split; [|now apply int_of_number].
  unfold Text.number_start.
  assert (Hd : exists d ds', ds = d :: ds' /\ Text.is_digit d = true).
  { destruct ds as [|d ds']; [congruence|]. exists d, ds'. split; auto.
    simpl in Hds. now apply andb_true_iff in Hds. }
  destruct Hd as (d & ds' & Eds & Hd).
  rewrite <- !app_assoc.
  rewrite (span_app Text.is_space ws (sign ++ ds ++ rest) Hws).
  - destruct Hsign as [[-> _] | [-> _]]; simpl.
    + rewrite Eds. simpl. rewrite (digit_not_minus _ Hd).
      rewrite <- Eds.
      change (d :: ds' ++ rest) with ((d :: ds') ++ rest). rewrite <- Eds.
      rewrite (span_app Text.is_digit ds rest Hds Hrest). simpl.
      rewrite Eds. reflexivity.
    + rewrite (span_app Text.is_digit ds rest Hds Hrest). simpl.
      rewrite Eds. reflexivity.
  - destruct Hsign as [[-> _] | [-> _]]; simpl.
    + rewrite Eds. simpl. now apply digit_not_space.
    + reflexivity.
Qed.

Lemma leading_integer_of_number_start (text prefix : str) :
  Text.number_start text = Some prefix ->
  exists n rest, leading_integer text prefix n rest.
Proof.
  unfold Text.number_start.
  destruct (Text.span Text.is_space text) as [ws r1] eqn:Ews.
  destruct (span_spec _ _ Ews) as (-> & Hws & _).
  set (sr := match r1 with
             | c :: r => if N.eqb c 45 then ([c], r) else ([], r1)
             | [] => ([], r1)
             end).
  assert (Hsr : r1 = fst sr ++ snd sr /\ (fst sr = [] \/ fst sr = [45%N])).
  { subst sr. destruct r1 as [|c r]; simpl; auto.
    destruct (N.eqb_spec c 45) as [->|]; simpl; auto. }
  destruct sr as [sign r2]. simpl in Hsr. destruct Hsr as (-> & Hsign).
  destruct (Text.span Text.is_digit r2) as [ds rest] eqn:Eds.
  destruct (span_spec _ _ Eds) as (-> & Hds & Hrest).
  simpl. destruct ds as [|d ds]; [discriminate|].
  intros [= <-].
  exists (match sign with
          | [] => Text.digits_value (d :: ds)
          | _ => (- Text.digits_value (d :: ds))%Z
          end), rest.
  exists ws, sign, (d :: ds).
  split; [reflexivity|]. split; [now rewrite <- !app_assoc|].
  split; [exact Hws|]. split.
  - destruct Hsign as [-> | ->]; auto.
  - split; [discriminate|]. split; assumption.
Qed.

Lemma split_first_of_leading_integer (text prefix : str) (n : Z) (rest : str) :
  leading_integer text prefix n rest ->
  exists token, Text.split_first text = Some token.
Proof.
  intros (ws & sign & ds & -> & -> & Hws & Hsign & Hne & Hds & Hrest).
  unfold Text.split_first. rewrite <- !app_assoc.
  rewrite lstrip_spaces_app by assumption.
  assert (H : exists c x, sign ++ ds ++ rest = c :: x
                          /\ Text.is_space c = false).
  { destruct Hsign as [[-> _] | [-> _]]; simpl.
    - destruct ds as [|d ds]; [congruence|].
      exists d, (ds ++ rest). split; auto.
      apply digit_not_space. simpl in Hds. now apply andb_true_iff in Hds.
    - eexists _, _. split; reflexivity. }
  destruct H as (c & x & -> & Hc).
  assert (Hl : Text.lstrip (c :: x) = c :: x) by (simpl; now rewrite Hc).
  rewrite Hl. simpl. rewrite Hc. simpl.
  destruct (Text.span (fun c0 => negb (Text.is_space c0)) x) as [a b].
  simpl. eauto.
Qed.

(** The test of the code is the membership of the specification. *)
Lemma range_check (start stop step n : Z) :
  (1 <= step)%Z ->
  (if (step =? 1)%Z
   then Some ((start <=? n)%Z && (n <=? stop)%Z)
   else in_py_range n start (stop + 1) step)
  = Some (range_member start stop step n).
Proof.
  intros Hstep. unfold range_member, in_py_range.
  destruct (Z.eqb_spec step 1) as [->|Hne].
  - rewrite Z.mod_1_r. simpl. now rewrite andb_true_r.
  - destruct (Z.eqb_spec step 0); [lia|].
    destruct (Z.ltb_spec 0 step); [|lia].
    do 3 f_equal.
    destruct (Z.ltb_spec n (stop + 1)), (Z.leb_spec n stop); auto; lia.
Qed.

Lemma skipn_prefix (A : Type) (a b : list A) : skipn (length a) (a ++ b) = b.
Proof. induction a; simpl; auto. Qed.

(** ** Range slot lists *)

(** C4, the code on every input.  Against a context whose remaining
    text is not empty, a reference to a range slot list (with a step of
    at least one) lexes the leading integer with [NUMBER_START] and
    converts it with [int].  Where [int] takes what was lexed the code
    does what the specification says: for a member of the range it
    yields one context whose text is the input behind the numeric prefix
    and whose entities are those of the input followed by one new entity
    with the integer as its value; for an integer that is no member,
    tolerant mode yields one context with a new [UnmatchedRangeEntity]
    of that value and no new match entity, and strict mode yields
    nothing.  Where [int] refuses what was lexed (one of U+001C to
    U+001F before the number, or more digits than the interpreter
    converts) the code raises [ValueError], whatever the range, and the
    specification says the same as for any other leading integer.  When
    no integer leads the text no match entity is made. *)
Theorem range_reference :
  forall (settings : MatchSettings.t) (fuel : nat) (context : addr)
         (list_name slot_name : str) (start stop step : Z) (h : Heap),
    dict_get (MatchSettings.slot_lists settings) list_name
      = Some (RangeSlotList start stop step) ->
    (1 <= step)%Z ->
    MatchContext.text (get_context h context) <> [] ->
    let c := get_context h context in
    let run :=
      match_expression settings (S fuel) context
        (ListReference list_name slot_name) h in
    (forall prefix n rest,
        leading_integer (MatchContext.text c) prefix n rest ->
        if int_refuses prefix then run = GRaise ValueError h
        else if range_member start stop step n then
          exists c' h' token,
            run = GYield c' h' GStop
            /\ Text.split_first (MatchContext.text c) = Some token
            /\ MatchContext.text (get_context h' c') = rest
            /\ get_entity_list h' (MatchContext.entities (get_context h' c'))
               = get_entity_list h (MatchContext.entities c)
                 ++ [length (entity_objs h)]
            /\ get_entity h' (length (entity_objs h))
               = MatchEntity.mk slot_name (VInt n) token false true
            /\ MatchContext.unmatched_entities (get_context h' c')
               = MatchContext.unmatched_entities c
            /\ unmatched_objs h' = unmatched_objs h
        else if MatchSettings.allow_unmatched_entities settings then
          exists c' h',
            run = GYield c' h' GStop
            /\ MatchContext.text (get_context h' c') = rest
            /\ MatchContext.entities (get_context h' c')
               = MatchContext.entities c
            /\ entity_objs h' = entity_objs h
            /\ entity_lists h' = entity_lists h
            /\ get_unmatched_list h'
                 (MatchContext.unmatched_entities (get_context h' c'))
               = get_unmatched_list h (MatchContext.unmatched_entities c)
                 ++ [length (unmatched_objs h)]
            /\ get_unmatched h' (length (unmatched_objs h))
               = UnmatchedRangeEntity slot_name n
        else run = GStop h)
    /\ ((forall prefix n rest,
            ~ leading_integer (MatchContext.text c) prefix n rest) ->
        if MatchSettings.allow_unmatched_entities settings then
          exists c' h',
            run = GYield c' h' GStop
            /\ MatchContext.text (get_context h' c') = MatchContext.text c
            /\ MatchContext.entities (get_context h' c')
               = MatchContext.entities c
            /\ entity_lists h' = entity_lists h
            /\ length (entity_objs h') = length (entity_objs h)
            /\ get_unmatched h' (length (unmatched_objs h))
               = UnmatchedTextEntity slot_name [] true
        else run = GStop h).
Proof.
  intros settings fuel context list_name slot_name start stop step h
    Hget Hstep Htext c run.
  assert (Hrun : run = match_range settings context slot_name start stop step h).
  { subst run. cbn [match_expression]. unfold match_list_reference.
    now rewrite (dict_get_lookup_slot_list _ _ Hget). }
  rewrite Hrun. clear Hrun run.
  apply truthy_true in Htext. unfold match_range.
  change (get_context h context) with c in Htext |- *.
  rewrite Htext.
  split.
  - intros prefix n rest Hlead.
    destruct (number_start_of_leading_integer Hlead) as (Hns & Hint).
    destruct (split_first_of_leading_integer Hlead) as (token & Htok).
    assert (Hrest : MatchContext.text c = prefix ++ rest).
    { destruct Hlead as (ws & sign & ds & _ & E & _). exact E. }
    rewrite Hns, Hint.
    destruct (int_refuses prefix); [reflexivity|].
    rewrite (range_check start stop n Hstep).
    destruct (range_member start stop step n).
    + rewrite Htok. unfold_heap.
      eexists _, _, token. split; [reflexivity|].
      cbn [entity_objs unmatched_objs entity_lists unmatched_lists
           context_objs].
      read_context.
      unfold Text.slice_from. rewrite Hrest, skipn_prefix.
      repeat split.
    + destruct (MatchSettings.allow_unmatched_entities settings);
        [|reflexivity].
      unfold_heap.
      eexists _, _. split; [reflexivity|].
      cbn [entity_objs unmatched_objs entity_lists unmatched_lists
           context_objs].
      read_context.
      unfold Text.slice_from. rewrite Hrest, skipn_prefix.
      repeat split.
  - intros Hnone.
    destruct (Text.number_start (MatchContext.text c)) as [prefix|] eqn:Hns.
    { destruct (leading_integer_of_number_start _ Hns) as (n & rest & Hl).
      now elim (Hnone prefix n rest). }
    destruct (MatchSettings.allow_unmatched_entities settings);
      [|reflexivity].
    unfold unmatched_text_context. subst c. unfold_heap.
    set (l := nth (MatchContext.entities _) (entity_lists h) []).
    set (h2 := mkHeap _ _ _ _ _).
    destruct (close_wildcards_fold_frame l h2) as (Hu & Hel & Hul & Hc & Hlen).
    eexists _, _. split; [reflexivity|].
    cbn [entity_objs unmatched_objs entity_lists unmatched_lists context_objs].
    rewrite Hc, Hel, Hu, Hlen.
    cbn [h2 entity_objs unmatched_objs entity_lists unmatched_lists
         context_objs].
    read_context.
    repeat split.
Qed.

Lemma range_reference_witness :
  leading_integer (28%N :: u "5 ") (28%N :: u "5") 5 (u " ")
  /\ range_member 0 100 5 5 = true
  /\ match_expression strict_settings 1 0
       (ListReference (u "brightness") (u "brightness"))
       (heap_with (28%N :: u "5 ") [])
     = GRaise ValueError (heap_with (28%N :: u "5 ") []).
Proof.
  assert (Hlead : leading_integer (28%N :: u "5 ") (28%N :: u "5") 5 (u " ")).
  { exists [28%N], [], (u "5"). repeat split; auto. discriminate. }
  split; [exact Hlead|]. split; [reflexivity|].
  destruct (@range_reference strict_settings 0 0 (u "brightness")
              (u "brightness") 0 100 5 (heap_with (28%N :: u "5 ") []))
    as (Hin & _).
  - reflexivity.
  - lia.
  - vm_compute. discriminate.
  - exact (Hin (28%N :: u "5") 5%Z (u " ") Hlead).
Defined.

(** The same reference where [int] takes the number: [ 45 ] gives the
    entity of value 45 and leaves the space behind the number. *)
Example range_reference_in_range :
  exists c' h',
    match_expression strict_settings 1 0
      (ListReference (u "brightness") (u "brightness"))
      (heap_with (u " 45 ") [])
    = GYield c' h' GStop
    /\ MatchContext.text (get_context h' c') = u " "
    /\ get_entity h' 0
       = MatchEntity.mk (u "brightness") (VInt 45) (u "45") false true.
Proof. eexists _, _. vm_compute. repeat split. Qed.

(** A number of 4301 digits is lexed and then refused by [int]; one of
    4300 digits is converted. *)
Example int_digit_limit :
  Text.number_start (repeat 48%N 4301 ++ u " ") = Some (repeat 48%N 4301)
  /\ Text.int (repeat 48%N 4301) = None
  /\ int_refuses (repeat 48%N 4301) = true
  /\ Text.int (repeat 48%N 4300) = Some 0%Z.
Proof. vm_compute. repeat split. Qed.

(** Both reach the reference through a recognition call, with a
    normaliser that leaves the text as it is: the call ends with
    [ValueError]. *)
Example range_reference_in_recognition :
  (exists h,
      recognize_demo set_name_to_brightness
        (u "set kitchen light to " ++ 28%N :: u "5") false
      = Raise ValueError h)
  /\ (exists h,
         recognize_demo set_name_to_brightness
           (u "set kitchen light to " ++ repeat 48%N 4301) false
         = Raise ValueError h).
Proof. split; eexists; vm_compute; reflexivity. Qed.

(** ** The frame of [match_expression] *)

Lemma entity_evolves_refl (e : MatchEntity.t) : entity_evolves e e.
Proof.
  unfold entity_evolves. repeat split; auto.
  exists []. now rewrite app_nil_r.
Qed.

Lemma entity_evolves_trans (e1 e2 e3 : MatchEntity.t) :
  entity_evolves e1 e2 -> entity_evolves e2 e3 -> entity_evolves e1 e3.
Proof.
  intros (Hn & Hw & Ho & Hc & (s & Hs)) (Hn' & Hw' & Ho' & Hc' & (s' & Hs')).
  unfold entity_evolves.
  split; [congruence|]. split; [congruence|]. split; [auto|]. split.
  - intros H. destruct (Hc H) as (Ht & Hv).
    assert (H2 : MatchEntity.is_wildcard e2 && MatchEntity.is_wildcard_open e2
                 = false).
    { rewrite Hw. apply andb_false_iff in H. apply andb_false_iff.
      destruct H as [H|H]; [now left|right].
      destruct (MatchEntity.is_wildcard_open e2); auto.
      rewrite Ho in H by reflexivity. discriminate. }
    destruct (Hc' H2) as (Ht' & Hv'). split; congruence.
  - exists (s ++ s'). rewrite Hs', Hs. now rewrite app_assoc.
Qed.

Lemma unmatched_evolves_refl (e : UnmatchedEntity) : unmatched_evolves e e.
Proof.
  destruct e; simpl; repeat split; auto.
  exists []. now rewrite app_nil_r.
Qed.

Lemma unmatched_evolves_trans (e1 e2 e3 : UnmatchedEntity) :
  unmatched_evolves e1 e2 -> unmatched_evolves e2 e3 ->
  unmatched_evolves e1 e3.
Proof.
  destruct e1 as [n1 t1 o1|n1 v1], e2 as [n2 t2 o2|n2 v2],
           e3 as [n3 t3 o3|n3 v3]; simpl; try tauto.
  - intros (Hn & Ho & Ht & (s & Hs)) (Hn' & Ho' & Ht' & (s' & Hs')).
    split; [congruence|]. split; [auto|]. split.
    + intros H. rewrite Ht' , Ht; auto.
      destruct o2; auto. rewrite Ho in H by reflexivity. discriminate.
    + exists (s ++ s'). rewrite Hs', Hs. now rewrite app_assoc.
  - intros (-> & ->) (-> & ->). auto.
Qed.

Lemma heap_evolves_refl (h : Heap) : heap_evolves h h.
Proof.
  unfold heap_evolves.
  split; [exists []; now rewrite app_nil_r|].
  split; [exists []; now rewrite app_nil_r|].
  split; [exists []; now rewrite app_nil_r|].
  split; [lia|]. split; [intros; apply entity_evolves_refl|].
  split; [lia|]. intros; apply unmatched_evolves_refl.
Qed.

Lemma heap_evolves_trans (h1 h2 h3 : Heap) :
  heap_evolves h1 h2 -> heap_evolves h2 h3 -> heap_evolves h1 h3.
Proof.
  intros ((c & Hc) & (l & Hl) & (m & Hm) & Hle & He & Hlu & Hu)
         ((c' & Hc') & (l' & Hl') & (m' & Hm') & Hle' & He' & Hlu' & Hu').
  unfold heap_evolves.
  split; [exists (c ++ c'); now rewrite Hc', Hc, app_assoc|].
  split; [exists (l ++ l'); now rewrite Hl', Hl, app_assoc|].
  split; [exists (m ++ m'); now rewrite Hm', Hm, app_assoc|].
  split; [lia|]. split.
  - intros a Ha. eapply entity_evolves_trans; [apply He; lia|apply He'; lia].
  - split; [lia|].
    intros a Ha.
    eapply unmatched_evolves_trans; [apply Hu; lia|apply Hu'; lia].
Qed.

Ltac same_store := exists []; now rewrite app_nil_r.

Lemma alloc_entity_evolves (h : Heap) (e : MatchEntity.t) :
  heap_evolves h (snd (alloc_entity h e)).
Proof.
  unfold heap_evolves, alloc_entity, get_entity, get_unmatched; simpl.
  split; [same_store|]. split; [same_store|]. split; [same_store|].
  split; [rewrite length_app; lia|]. split.
  - intros a Ha. rewrite nth_before_alloc by assumption.
    apply entity_evolves_refl.
  - split; [lia|]. intros. apply unmatched_evolves_refl.
Qed.

Lemma alloc_unmatched_evolves (h : Heap) (e : UnmatchedEntity) :
  heap_evolves h (snd (alloc_unmatched h e)).
Proof.
  unfold heap_evolves, alloc_unmatched, get_entity, get_unmatched; simpl.
  split; [same_store|]. split; [same_store|]. split; [same_store|].
  split; [lia|]. split; [intros; apply entity_evolves_refl|].
  split; [rewrite length_app; lia|].
  intros a Ha. rewrite nth_before_alloc by assumption.
  apply unmatched_evolves_refl.
Qed.

Lemma alloc_entity_list_evolves (h : Heap) (l : list addr) :
  heap_evolves h (snd (alloc_entity_list h l)).
Proof.
  unfold heap_evolves, alloc_entity_list, get_entity, get_unmatched; simpl.
  split; [same_store|]. split; [now exists [l]|]. split; [same_store|].
  split; [lia|]. split; [intros; apply entity_evolves_refl|].
  split; [lia|]. intros; apply unmatched_evolves_refl.
Qed.

Lemma alloc_unmatched_list_evolves (h : Heap) (l : list addr) :
  heap_evolves h (snd (alloc_unmatched_list h l)).
Proof.
  unfold heap_evolves, alloc_unmatched_list, get_entity, get_unmatched; simpl.
  split; [same_store|]. split; [same_store|]. split; [now exists [l]|].
  split; [lia|]. split; [intros; apply entity_evolves_refl|].
  split; [lia|]. intros; apply unmatched_evolves_refl.
Qed.

Lemma alloc_context_evolves (h : Heap) (c : MatchContext.t) :
  heap_evolves h (snd (alloc_context h c)).
Proof.
  unfold heap_evolves, alloc_context, get_entity, get_unmatched; simpl.
  split; [now exists [c]|]. split; [same_store|]. split; [same_store|].
  split; [lia|]. split; [intros; apply entity_evolves_refl|].
  split; [lia|]. intros; apply unmatched_evolves_refl.
Qed.

Lemma set_entity_evolves (h : Heap) (w : addr) (e' : MatchEntity.t) :
  entity_evolves (get_entity h w) e' -> heap_evolves h (set_entity h w e').
Proof.
  intros He.
  unfold heap_evolves, set_entity, get_unmatched; simpl.
  split; [same_store|]. split; [same_store|]. split; [same_store|].
  split; [rewrite length_upd; lia|]. split.
  - intros a Ha. unfold get_entity at 2. simpl. rewrite nth_upd.
    destruct (Nat.eqb_spec a w) as [->|Hne]; simpl.
    + apply Nat.ltb_lt in Ha. now rewrite Ha.
    + apply entity_evolves_refl.
  - split; [lia|]. intros; apply unmatched_evolves_refl.
Qed.

Lemma set_unmatched_evolves (h : Heap) (w : addr) (e' : UnmatchedEntity) :
  unmatched_evolves (get_unmatched h w) e' ->
  heap_evolves h (set_unmatched h w e').
Proof.
  intros He.
  unfold heap_evolves, set_unmatched, get_entity; simpl.
  split; [same_store|]. split; [same_store|]. split; [same_store|].
  split; [lia|]. split; [intros; apply entity_evolves_refl|].
  split; [rewrite length_upd; lia|].
  intros a Ha. unfold get_unmatched at 2. simpl. rewrite nth_upd.
  destruct (Nat.eqb_spec a w) as [->|Hne]; simpl.
  - apply Nat.ltb_lt in Ha. now rewrite Ha.
  - apply unmatched_evolves_refl.
Qed.

Lemma close_wildcard_step_evolves (h : Heap) (a : addr) :
  heap_evolves h (close_wildcard_step h a).
Proof.
  apply set_entity_evolves. unfold entity_evolves; simpl.
  split; [reflexivity|]. split; [reflexivity|]. split; [discriminate|].
  split; [auto|]. exists []. now rewrite app_nil_r.
Qed.

Lemma close_unmatched_step_evolves (h : Heap) (a : addr) :
  heap_evolves h (close_unmatched_step h a).
Proof.
  apply set_unmatched_evolves.
  destruct (get_unmatched h a) as [n t o|n v]; simpl; auto.
  split; [reflexivity|]. split; [discriminate|]. split; [auto|].
  exists []. now rewrite app_nil_r.
Qed.

Lemma fold_evolves (step : Heap -> addr -> Heap) (l : list addr) :
  (forall h a, heap_evolves h (step h a)) ->
  forall h, heap_evolves h (fold_left step l h).
Proof.
  intros Hstep. induction l as [|x l IH]; intros h; simpl.
  - apply heap_evolves_refl.
  - eapply heap_evolves_trans; [apply Hstep | apply IH].
Qed.

Lemma new_MatchContext_evolves (h : Heap) (text : str) (entities : addr)
    (intent_context : dict Any) (is_start_of_word : bool)
    (unmatched_entities : addr) (close_wildcards close_unmatched : bool) :
  heap_evolves h
    (snd (new_MatchContext h text entities intent_context is_start_of_word
            unmatched_entities close_wildcards close_unmatched)).
Proof.
  unfold new_MatchContext.
  eapply heap_evolves_trans; [|apply alloc_context_evolves].
  eapply heap_evolves_trans.
  - instantiate (1 := if close_wildcards
                      then close_wildcards_of h entities else h).
    destruct close_wildcards; [|apply heap_evolves_refl].
    apply fold_evolves, close_wildcard_step_evolves.
  - destruct close_unmatched; [|apply heap_evolves_refl].
    apply fold_evolves, close_unmatched_step_evolves.
Qed.

(** *** Generators *)

Lemma frame_kept_from (A : Type) (h0 h1 : Heap) (g : Gen A) :
  heap_evolves h0 h1 -> frame_kept h1 g -> frame_kept h0 g.
Proof.
  intros H01 Hg. destruct Hg; constructor; eauto using heap_evolves_trans.
Qed.

Lemma yield_from_kept (A : Type) (h0 : Heap) (g : Gen A)
    (rest : Heap -> Gen A) :
  frame_kept h0 g ->
  (forall h, frame_kept h (rest h)) ->
  frame_kept h0 (yield_from g rest).
Proof.
  intros Hg Hrest. induction Hg as [h0 h H | h0 e h H | h0 | h0 a h k H Hk IH];
    simpl.
  - eapply frame_kept_from; [exact H | apply Hrest].
  - now constructor.
  - constructor.
  - constructor; auto.
Qed.

Lemma yield_each_kept (A : Type) (l : list A) :
  forall h, frame_kept h (yield_each l h).
Proof.
  induction l as [|a l IH]; intros h; simpl; constructor;
    auto using heap_evolves_refl.
Qed.

Lemma collect_kept (A : Type) (h0 : Heap) (g : Gen A) :
  frame_kept h0 g -> ends_evolved h0 (collect g).
Proof.
  intros Hg. induction Hg as [h0 h H | h0 e h H | h0 | h0 a h k H Hk IH];
    simpl; auto.
  specialize (IH h).
  destruct (collect (k h)); simpl in *; eauto using heap_evolves_trans.
Qed.

Lemma collect_flat_kept (A B : Type) (f : A -> Heap -> Gen B) (l : list A) :
  (forall a h, frame_kept h (f a h)) ->
  forall h, ends_evolved h (collect_flat f l h).
Proof.
  intros Hf. induction l as [|a l IH]; intros h; simpl.
  - apply heap_evolves_refl.
  - assert (H1 := collect_kept (Hf a h)).
    destruct (collect (f a h)) as [l1 h1 | e h1 |]; simpl in *; auto.
    specialize (IH h1).
    destruct (collect_flat f l h1); simpl in *;
      eauto using heap_evolves_trans.
Qed.

(** *** The branches of the matcher *)

Ltac evolve_step :=
  cbv zeta;
  match goal with
  | |- context [alloc_entity ?h ?e] =>
      let H := fresh "Hev" in
      pose proof (alloc_entity_evolves h e) as H;
      destruct (alloc_entity h e) as [? ?]; cbn [snd] in H
  | |- context [alloc_entity_list ?h ?l] =>
      let H := fresh "Hev" in
      pose proof (alloc_entity_list_evolves h l) as H;
      destruct (alloc_entity_list h l) as [? ?]; cbn [snd] in H
  | |- context [alloc_unmatched ?h ?e] =>
      let H := fresh "Hev" in
      pose proof (alloc_unmatched_evolves h e) as H;
      destruct (alloc_unmatched h e) as [? ?]; cbn [snd] in H
  | |- context [alloc_unmatched_list ?h ?l] =>
      let H := fresh "Hev" in
      pose proof (alloc_unmatched_list_evolves h l) as H;
      destruct (alloc_unmatched_list h l) as [? ?]; cbn [snd] in H
  | |- context [new_MatchContext ?h ?t ?e ?i ?s ?m ?cw ?cu] =>
      let H := fresh "Hev" in
      pose proof (new_MatchContext_evolves h t e i s m cw cu) as H;
      destruct (new_MatchContext h t e i s m cw cu) as [? ?]; cbn [snd] in H
  end.

Ltac evolved :=
  repeat (eapply heap_evolves_trans; [eassumption|]);
  apply heap_evolves_refl.

Ltac yields_once :=
  constructor; [evolved | intros; constructor; apply heap_evolves_refl].

Lemma slot_value_context_evolves (context : addr) (slot_name : str)
    (slot_value : TextSlotValue.t) (value_context : addr) (h : Heap) :
  heap_evolves h
    (snd (slot_value_context context slot_name slot_value value_context h)).
Proof.
  unfold slot_value_context. do 2 evolve_step.
  destruct (TextSlotValue.context slot_value) as [[|kv overlay]|];
    evolve_step; cbn [snd]; evolved.
Qed.

Lemma unmatched_text_context_evolves (context : addr) (slot_name : str)
    (h : Heap) :
  heap_evolves h (snd (unmatched_text_context context slot_name h)).
Proof.
  unfold unmatched_text_context. repeat evolve_step. cbn [snd]. evolved.
Qed.

Lemma for_value_contexts_kept (h0 : Heap) (g : Gen addr)
    (body : addr -> Heap -> addr * Heap) (after : bool -> Heap -> Gen addr) :
  frame_kept h0 g ->
  (forall vc h, heap_evolves h (snd (body vc h))) ->
  (forall b h, frame_kept h (after b h)) ->
  forall has_matches,
    frame_kept h0 (for_value_contexts g has_matches body after).
Proof.
  intros Hg Hbody Hafter.
  induction Hg as [h0 h H | h0 e h H | h0 | h0 a h k H Hk IH];
    intros has_matches; simpl.
  - eapply frame_kept_from; [exact H | apply Hafter].
  - now constructor.
  - constructor.
  - specialize (Hbody a h). destruct (body a h) as [c' h']. simpl in Hbody.
    constructor; [eauto using heap_evolves_trans|].
    intros h''. apply IH.
Qed.

Lemma for_slot_values_kept (settings : MatchSettings.t)
    (recur : addr -> Expression -> Heap -> Gen addr) (context : addr)
    (slot_name : str) (values : list TextSlotValue.t) :
  (forall c e h, frame_kept h (recur c e h)) ->
  forall h,
    frame_kept h (for_slot_values settings recur context slot_name values h).
Proof.
  intros Hrecur. induction values as [|slot_value rest IH]; intros h;
    cbn [for_slot_values].
  - constructor. apply heap_evolves_refl.
  - evolve_step.
    apply for_value_contexts_kept.
    + eapply frame_kept_from; [eassumption | apply Hrecur].
    + intros. apply slot_value_context_evolves.
    + intros b h1.
      destruct (negb b && MatchSettings.allow_unmatched_entities settings);
        [|apply IH].
      pose proof (unmatched_text_context_evolves context slot_name h1) as Hu.
      destruct (unmatched_text_context context slot_name h1) as [c' h2].
      constructor; [exact Hu | apply IH].
Qed.

Lemma match_range_kept (settings : MatchSettings.t) (context : addr)
    (slot_name : str) (start stop step : Z) (h : Heap) :
  frame_kept h (match_range settings context slot_name start stop step h).
Proof.
  unfold match_range.
  repeat match goal with
         | |- frame_kept _ (GStop _) => constructor; apply heap_evolves_refl
         | |- frame_kept _ (GRaise _ _) => constructor; apply heap_evolves_refl
         | |- frame_kept _ (if ?b then _ else _) => destruct b
         | |- frame_kept _ (match ?x with Some _ => _ | None => _ end) =>
             destruct x
         end.
  - repeat evolve_step. yields_once.
  - repeat evolve_step. yields_once.
  - pose proof (unmatched_text_context_evolves context slot_name h) as Hu.
    destruct (unmatched_text_context context slot_name h) as [c' h'].
    constructor; [exact Hu | intros; constructor; apply heap_evolves_refl].
Qed.

Lemma match_wildcard_kept (context : addr) (slot_name : str) (h : Heap) :
  frame_kept h (match_wildcard context slot_name h).
Proof.
  unfold match_wildcard.
  destruct (Text.truthy _); [|constructor; apply heap_evolves_refl].
  repeat evolve_step. yields_once.
Qed.

Lemma match_list_reference_kept (settings : MatchSettings.t)
    (recur : addr -> Expression -> Heap -> Gen addr) (context : addr)
    (list_name slot_name : str) (h : Heap) :
  (forall c e h, frame_kept h (recur c e h)) ->
  frame_kept h
    (match_list_reference settings recur context list_name slot_name h).
Proof.
  intros Hrecur. unfold match_list_reference.
  destruct (lookup_slot_list settings list_name) as [[values|start stop step|]|].
  - destruct (Text.truthy _); [|constructor; apply heap_evolves_refl].
    now apply for_slot_values_kept.
  - apply match_range_kept.
  - apply match_wildcard_kept.
  - constructor. apply heap_evolves_refl.
Qed.

Lemma match_alternative_kept (recur : Expression -> Heap -> Gen addr)
    (items : list Expression) :
  (forall e h, frame_kept h (recur e h)) ->
  forall h, frame_kept h (match_alternative recur items h).
Proof.
  intros Hrecur. induction items as [|item rest IH]; intros h; simpl.
  - constructor. apply heap_evolves_refl.
  - apply yield_from_kept; auto.
Qed.

Lemma group_loop_kept (recur : addr -> Expression -> Heap -> Gen addr)
    (items : list Expression) :
  (forall c e h, frame_kept h (recur c e h)) ->
  forall candidates h, ends_evolved h (group_loop recur items candidates h).
Proof.
  intros Hrecur. induction items as [|item rest IH]; intros candidates h;
    simpl.
  - apply heap_evolves_refl.
  - assert (H1 := collect_flat_kept (fun gc => recur gc item) candidates
                    (fun c h => Hrecur c item h) h).
    destruct (collect_flat _ candidates h) as [[|c cs] h1 | e h1 |];
      simpl in *; auto.
    specialize (IH (c :: cs) h1).
    destruct (group_loop recur rest (c :: cs) h1); simpl in *;
      eauto using heap_evolves_trans.
Qed.

Lemma match_group_kept (recur : addr -> Expression -> Heap -> Gen addr)
    (context : addr) (items : list Expression) (h : Heap) :
  (forall c e h, frame_kept h (recur c e h)) ->
  frame_kept h (match_group recur context items h).
Proof.
  intros Hrecur. unfold match_group.
  destruct items as [|item rest]; [constructor; apply heap_evolves_refl|].
  assert (H := @group_loop_kept recur (item :: rest) Hrecur [context] h).
  destruct (group_loop recur (item :: rest) [context] h) as [l h1|e h1|];
    simpl in H.
  - eapply frame_kept_from; [exact H | apply yield_each_kept].
  - now constructor.
  - constructor.
Qed.

Lemma get_open_wildcard_some (h : Heap) (context w : addr) :
  get_open_wildcard h context = Some w ->
  MatchEntity.is_wildcard (get_entity h w) = true
  /\ MatchEntity.is_wildcard_open (get_entity h w) = true.
Proof.
  unfold get_open_wildcard.
  destruct (rev _) as [|last_entity l]; [discriminate|].
  destruct (MatchEntity.is_wildcard (get_entity h last_entity)
            && MatchEntity.is_wildcard_open (get_entity h last_entity))
    eqn:E; [|discriminate].
  intros [= <-]. now apply andb_true_iff in E.
Qed.

Lemma get_open_entity_some (h : Heap) (context a : addr) :
  get_open_entity h context = Some a ->
  exists n t, get_unmatched h a = UnmatchedTextEntity n t true.
Proof.
  unfold get_open_entity.
  destruct (rev _) as [|last_entity l]; [discriminate|].
  destruct (get_unmatched h last_entity) as [n t [|]|n v] eqn:E;
    try discriminate.
  intros [= <-]. eauto.
Qed.

Lemma get_entity_set_entity (h : Heap) (w : addr) (e' : MatchEntity.t) :
  get_entity (set_entity h w e') w
  = if w <? length (entity_objs h) then e' else get_entity h w.
Proof.
  unfold get_entity, set_entity; simpl.
  now rewrite nth_upd, Nat.eqb_refl.
Qed.

Lemma extend_wildcard_evolves (h : Heap) (w : addr) (x : str) :
  MatchEntity.is_wildcard (get_entity h w) = true ->
  MatchEntity.is_wildcard_open (get_entity h w) = true ->
  forall h1,
    h1 = set_entity h w
           (MatchEntity.set_text (get_entity h w)
              (MatchEntity.text (get_entity h w) ++ x)) ->
    heap_evolves h h1
    /\ heap_evolves h
         (set_entity h1 w
            (MatchEntity.set_value (get_entity h1 w)
               (VStr (MatchEntity.text (get_entity h w) ++ x)))).
Proof.
  intros Hw Ho h1 ->.
  assert (H1 : heap_evolves h
                 (set_entity h w
                    (MatchEntity.set_text (get_entity h w)
                       (MatchEntity.text (get_entity h w) ++ x)))).
  { apply set_entity_evolves. unfold entity_evolves; simpl.
    split; [reflexivity|]. split; [reflexivity|]. split; [auto|].
    split; [rewrite Hw, Ho; discriminate|]. now exists x. }
  split; [exact H1|].
  eapply heap_evolves_trans; [exact H1|].
  apply set_entity_evolves. rewrite get_entity_set_entity.
  unfold entity_evolves.
  destruct (w <? length (entity_objs h)); simpl;
    (split; [reflexivity|]; split; [reflexivity|]; split; [auto|];
     split; [rewrite Hw, Ho; discriminate|];
     exists []; now rewrite app_nil_r).
Qed.

Lemma extend_unmatched_evolves (h : Heap) (a : addr) (n t x : str) :
  get_unmatched h a = UnmatchedTextEntity n t true ->
  heap_evolves h (set_unmatched h a (UnmatchedTextEntity n (t ++ x) true)).
Proof.
  intros E. apply set_unmatched_evolves. rewrite E. simpl.
  split; [reflexivity|]. split; [auto|]. split; [discriminate|].
  now exists x.
Qed.

Ltac stops := constructor; apply heap_evolves_refl.

Ltac split_if :=
  match goal with
  | |- frame_kept _ (if ?b then _ else _) => destruct b
  end.

Ltac split_find :=
  match goal with
  | |- frame_kept _ (match Text.find ?s ?p with _ => _ end) =>
      destruct (Text.find s p) as [skip_idx|]; [|stops]
  end.

(** The two ways in which a chunk that does not match extends the entity
    before it. *)
Lemma chunk_skip_kept (settings : MatchSettings.t) (context : addr)
    (chunk_text context_text : str) (wildcard : option addr) (h : Heap) :
  (forall w, wildcard = Some w ->
             MatchEntity.is_wildcard (get_entity h w) = true
             /\ MatchEntity.is_wildcard_open (get_entity h w) = true) ->
  frame_kept h
    (match wildcard with
     | Some w =>
         match Text.find context_text chunk_text with
         | Some skip_idx =>
             let new_text :=
               MatchEntity.text (get_entity h w)
               ++ Text.slice_to context_text skip_idx in
             let h1 :=
               set_entity h w (MatchEntity.set_text (get_entity h w) new_text) in
             if Text.truthy new_text then
               let h2 :=
                 set_entity h1 w
                   (MatchEntity.set_value (get_entity h1 w) (VStr new_text)) in
               let (c', h3) :=
                 new_MatchContext h2
                   (Text.slice_from (MatchContext.text (get_context h context))
                                    (skip_idx + length chunk_text))
                   (MatchContext.entities (get_context h context))
                   (MatchContext.intent_context (get_context h context))
                   true
                   (MatchContext.unmatched_entities (get_context h context))
                   false false in
               GYield c' h3 GStop
             else GStop h1
         | None => GStop h
         end
     | None =>
         if MatchSettings.allow_unmatched_entities settings then
           match get_open_entity h context with
           | Some unmatched_entity =>
               match Text.find context_text chunk_text with
               | Some skip_idx =>
                   match get_unmatched h unmatched_entity with
                   | UnmatchedTextEntity n t o =>
                       let new_text :=
                         t ++ Text.slice_to context_text skip_idx in
                       let h1 :=
                         set_unmatched h unmatched_entity
                           (UnmatchedTextEntity n new_text o) in
                       if Text.truthy new_text then
                         let (c', h2) :=
                           new_MatchContext h1
                             (Text.slice_from
                                (MatchContext.text (get_context h context))
                                (skip_idx + length chunk_text))
                             (MatchContext.entities (get_context h context))
                             (MatchContext.intent_context
                                (get_context h context))
                             true
                             (MatchContext.unmatched_entities
                                (get_context h context))
                             false false in
                         GYield c' h2 GStop
                       else GStop h1
                   | UnmatchedRangeEntity _ _ => GStop h
                   end
               | None => GStop h
               end
           | None => GStop h
           end
         else GStop h
     end).
Proof.
  intros Hwild. destruct wildcard as [w|].
  - destruct (Hwild w eq_refl) as (Hw & Ho).
    split_find. cbv zeta.
    destruct (@extend_wildcard_evolves h w
                (Text.slice_to context_text skip_idx) Hw Ho _ eq_refl)
      as (H1 & H2).
    split_if; [|now constructor].
    evolve_step. yields_once.
  - split_if; [|stops].
    destruct (get_open_entity h context) as [a|] eqn:Ea; [|stops].
    destruct (get_open_entity_some _ _ Ea) as (n & t & Eu).
    split_find. rewrite Eu. cbv zeta.
    pose proof (@extend_unmatched_evolves h a n t
                  (Text.slice_to context_text skip_idx) Eu) as H1.
    split_if; [|now constructor].
    evolve_step. yields_once.
Qed.

Lemma chunk_plain_kept (settings : MatchSettings.t) (context : addr)
    (chunk_raw chunk_text context_text : str) (is_context_text_empty : bool)
    (wildcard : option addr) (h : Heap) :
  (forall w, wildcard = Some w ->
             MatchEntity.is_wildcard (get_entity h w) = true
             /\ MatchEntity.is_wildcard_open (get_entity h w) = true) ->
  frame_kept h
    (chunk_plain settings context chunk_raw chunk_text context_text
       is_context_text_empty wildcard h).
Proof.
  intros Hwild. unfold chunk_plain. cbv zeta.
  destruct (Text.startswith context_text chunk_text).
  { evolve_step. yields_once. }
  destruct (is_context_text_empty && Text.isspace chunk_text).
  { constructor; [apply heap_evolves_refl | intros; stops]. }
  set (c := get_context h context).
  destruct (negb (Text.startswith (Text.remove_punctuation (MatchContext.text c))
                    chunk_text)
            && MatchContext.is_start_of_word c); cbv iota beta.
  - split_if; [evolve_step; yields_once|].
    now apply chunk_skip_kept.
  - split_if; [evolve_step; yields_once|].
    now apply chunk_skip_kept.
Qed.

Lemma wildcard_splits_kept (self : addr -> Heap -> Gen addr)
    (context wildcard : addr) (chunk_text context_text : str) :
  (forall c h, frame_kept h (self c h)) ->
  forall budget start_idx h,
    frame_kept h
      (wildcard_splits budget self context wildcard chunk_text context_text
         start_idx h).
Proof.
  intros Hself. induction budget as [|budget IH]; intros [[|i]|] h;
    cbn [wildcard_splits]; try stops.
  do 3 evolve_step.
  apply yield_from_kept; [|intros; apply IH].
  eapply frame_kept_from; [|apply Hself]. evolved.
Qed.

Lemma chunk_after_open_wildcard_kept (self : addr -> Heap -> Gen addr)
    (context wildcard : addr) (chunk_text context_text : str) (h : Heap) :
  (forall c h, frame_kept h (self c h)) ->
  frame_kept h
    (chunk_after_open_wildcard self context wildcard chunk_text context_text h).
Proof.
  intros Hself. unfold chunk_after_open_wildcard. cbv zeta.
  split_if.
  - evolve_step. yields_once.
  - now apply wildcard_splits_kept.
Qed.

Lemma match_text_chunk_kept (settings : MatchSettings.t)
    (self : addr -> Heap -> Gen addr) (context : addr) (chunk_raw : str)
    (h : Heap) :
  (forall c h, frame_kept h (self c h)) ->
  frame_kept h (match_text_chunk settings self context chunk_raw h).
Proof.
  intros Hself. unfold match_text_chunk. cbv zeta.
  assert (Hany : forall chunk_text context_text,
             frame_kept h
               (if is_empty chunk_raw then GYield context h GStop
                else
                  match get_open_wildcard h context with
                  | Some wildcard =>
                      if negb (Text.truthy
                                 (Text.strip
                                    (MatchEntity.text (get_entity h wildcard))))
                      then chunk_after_open_wildcard self context wildcard
                             chunk_text context_text h
                      else chunk_plain settings context chunk_raw chunk_text
                             context_text
                             (length (Text.strip context_text) =? 0)
                             (Some wildcard) h
                  | None =>
                      chunk_plain settings context chunk_raw chunk_text
                        context_text
                        (length (Text.strip context_text) =? 0) None h
                  end)).
  { intros chunk_text context_text.
    split_if; [constructor; [apply heap_evolves_refl | intros; stops]|].
    destruct (get_open_wildcard h context) as [w|] eqn:Ew.
    - split_if; [now apply chunk_after_open_wildcard_kept|].
      apply chunk_plain_kept. intros w' [= <-].
      now apply get_open_wildcard_some with (context := context).
    - apply chunk_plain_kept. discriminate. }
  destruct (MatchSettings.ignore_whitespace settings); [apply Hany|].
  destruct (MatchContext.is_start_of_word (get_context h context));
    apply Hany.
Qed.

(** Each stretch of [match_expression], from a resumption to the next
    [yield] or to the end, only lets the heap evolve. *)
Lemma match_expression_kept (settings : MatchSettings.t) (fuel : nat) :
  forall (context : addr) (expression : Expression) (h : Heap),
    frame_kept h (match_expression settings fuel context expression h).
Proof.
  induction fuel as [|fuel IH]; intros context expression h.
  - constructor.
  - cbn [match_expression].
    destruct expression as [text | [|] items | list_name slot_name | rule_name].
    + apply match_text_chunk_kept. intros c h'. apply IH.
    + apply match_group_kept. exact IH.
    + apply match_alternative_kept. intros e h'. apply IH.
    + apply match_list_reference_kept. exact IH.
    + destruct (lookup_rule settings rule_name); [apply IH | stops].
Qed.

Lemma heap_evolves_reads (h h' : Heap) :
  heap_evolves h h' ->
  (forall c, c < length (context_objs h) -> get_context h' c = get_context h c)
  /\ (forall l, l < length (entity_lists h) ->
                get_entity_list h' l = get_entity_list h l)
  /\ (forall l, l < length (unmatched_lists h) ->
                get_unmatched_list h' l = get_unmatched_list h l)
  /\ (forall a, a < length (entity_objs h) ->
                entity_evolves (get_entity h a) (get_entity h' a))
  /\ (forall a, a < length (unmatched_objs h) ->
                unmatched_evolves (get_unmatched h a) (get_unmatched h' a)).
Proof.
  intros ((c & Hc) & (l & Hl) & (m & Hm) & _ & He & _ & Hu).
  unfold get_context, get_entity_list, get_unmatched_list.
  rewrite Hc, Hl, Hm.
  split; [intros; now apply app_nth1|].
  split; [intros; now apply app_nth1|].
  split; [intros; now apply app_nth1|].
  split; assumption.
Qed.

Lemma snapshots_evolve (A : Type) (h0 : Heap) (g : Gen A) :
  frame_kept h0 g ->
  forall results h',
    collect g = Return results h' ->
    forall a h1, In (a, h1) (snapshots g) -> heap_evolves h1 h'.
Proof.
  intros Hg. induction Hg as [h0 h H | h0 e h H | h0 | h0 a h k H Hk IH];
    intros results h' Hcollect a1 h1 Hin; simpl in *; try contradiction.
  pose proof (collect_kept (Hk h)) as Hend.
  destruct (collect (k h)) as [l h2 | |] eqn:E; try discriminate.
  injection Hcollect as <- <-. simpl in Hend.
  destruct Hin as [[= <- <-] | Hin]; [exact Hend|].
  eapply IH; eauto.
Qed.

(** C2, as the claim states it, fails in both halves.  First, the
    context that [{name}] yielded holds the entity at address 0 with its
    open flag set; matching the chunk [ on] against that context clears
    the flag of that very entity.  Second, in tolerant mode the two
    branches of [(foo|bar)] extend one and the same unmatched entity:
    it reads [x bar ] when the first branch yields and [x bar x ] once
    the second has run, in the list of the context that the first branch
    yielded. *)
Lemma shared_entities_counterexample :
  (get_entity_list (snd name_matched)
     (MatchContext.entities (get_context (snd name_matched) (fst name_matched)))
   = [0]
   /\ MatchEntity.is_wildcard_open (get_entity (snd name_matched) 0) = true
   /\ exists c2 h2,
        collect (match_expression strict_settings 1 (fst name_matched)
                   (TextChunk (u " on")) (snd name_matched))
        = Return [c2] h2
        /\ MatchEntity.is_wildcard_open (get_entity h2 0) = false)
  /\ exists c3 h3 k c4 h4 k',
       match_expression tolerant_settings 2 (fst name_unmatched) foo_or_bar
         (snd name_unmatched) = GYield c3 h3 k
       /\ get_unmatched_list h3
            (MatchContext.unmatched_entities (get_context h3 c3)) = [0]
       /\ get_unmatched h3 0 = UnmatchedTextEntity (u "name") (u "x bar ") true
       /\ k h3 = GYield c4 h4 k'
       /\ get_unmatched_list h4
            (MatchContext.unmatched_entities (get_context h4 c3)) = [0]
       /\ get_unmatched h4 0
          = UnmatchedTextEntity (u "name") (u "x bar x ") true.
Proof.
  split.
  - split; [reflexivity|]. split; [reflexivity|].
    eexists _, _. split; reflexivity.
  - eexists _, _, _, _, _, _.
    split; [reflexivity|]. split; [reflexivity|]. split; [reflexivity|].
    split; [reflexivity|]. split; reflexivity.
Qed.

(** C2, amended.  [match_expression] never changes a context object or
    a list object that exists when it runs or is resumed: the input
    context, and every context yielded before, keeps its text, its
    intent context, its start-of-word flag and the members of its two
    lists.  It does update entity objects in place, which all contexts
    whose lists hold them share, but only so: the name and wildcard flag
    of a match entity stay, its open flag may be cleared, its text may
    grow at the end, with its value, only while it is an open wildcard;
    an unmatched range entity stays, an unmatched text entity keeps its
    name, may be closed, and its text may grow at the end only while it
    is open.  This holds for every stretch between two items
    ([frame_kept]), so for a whole enumeration from its first heap and
    from the heap of each item yielded. *)
Theorem match_expression_frame :
  forall (settings : MatchSettings.t) (fuel : nat) (context : addr)
         (expression : Expression) (h : Heap),
    let g := match_expression settings fuel context expression h in
    frame_kept h g
    /\ forall results h',
         collect g = Return results h' ->
         (forall c, c < length (context_objs h) ->
                    get_context h' c = get_context h c)
         /\ (forall l, l < length (entity_lists h) ->
                       get_entity_list h' l = get_entity_list h l)
         /\ (forall l, l < length (unmatched_lists h) ->
                       get_unmatched_list h' l = get_unmatched_list h l)
         /\ (forall a, a < length (entity_objs h) ->
                       entity_evolves (get_entity h a) (get_entity h' a))
         /\ (forall a, a < length (unmatched_objs h) ->
                       unmatched_evolves (get_unmatched h a)
                                         (get_unmatched h' a))
         /\ (forall c1 h1, In (c1, h1) (snapshots g) -> heap_evolves h1 h').
Proof.
  intros settings fuel context expression h g.
  pose proof (match_expression_kept settings fuel context expression h) as Hg.
  fold g in Hg. split; [exact Hg|].
  intros results h' Hcollect.
  pose proof (collect_kept Hg) as Hend. rewrite Hcollect in Hend.
  destruct (heap_evolves_reads Hend) as (H1 & H2 & H3 & H4 & H5).
  repeat (split; [assumption|]).
  intros c1 h1 Hin. eapply snapshots_evolve; eauto.
Qed.

(* ================================================================== *)
(** * Further properties of [recognize.py] *)
(* ================================================================== *)

(** ** Alternatives *)

Lemma collect_yield_from (A : Type) (g : Gen A) (rest : Heap -> Gen A) :
  collect (yield_from g rest)
  = match collect g with
    | Return l h =>
        match collect (rest h) with
        | Return l' h' => Return (l ++ l') h'
        | Raise e h' => Raise e h'
        | Diverge => Diverge
        end
    | Raise e h => Raise e h
    | Diverge => Diverge
    end.
Proof.
  induction g as [h | e h | | a h k IH]; simpl.
  - now destruct (collect (rest h)).
  - reflexivity.
  - reflexivity.
  - rewrite IH. destruct (collect (k h)) as [l h1 | |]; auto.
    now destruct (collect (rest h1)).
Qed.

(** X1.  Listed to its end, an ALTERNATIVE gives the contexts of its
    items one item after the other, in the order of the items, every
    item matched against the same input context in the heap that the
    items before it left; an error or a recursion without end in an
    item ends the listing there.  In particular an ALTERNATIVE without
    items gives nothing. *)
Theorem alternative_concatenates_items :
  forall (settings : MatchSettings.t) (fuel : nat) (context : addr)
         (items : list Expression) (h : Heap),
    collect (match_expression settings (S fuel) context
               (Sequence ALTERNATIVE items) h)
    = collect_flat (fun item => match_expression settings fuel context item)
                   items h.
Proof.
  intros settings fuel context items. cbn [match_expression].
  induction items as [|item rest IH]; intros h; simpl; auto.
  rewrite collect_yield_from.
  destruct (collect (match_expression settings fuel context item h))
    as [l h1 | |]; auto.
  now rewrite IH.
Qed.

(** ** The function [is_match] *)

Lemma first_match_spec (g : Gen addr) :
  match first_match g with
  | Return (Some c) h =>
      exists before after,
        snapshots g = before ++ (c, h) :: after
        /\ is_match h c = true
        /\ forall c0 h0, In (c0, h0) before -> is_match h0 c0 = false
  | Return None h =>
      collect g = Return (map fst (snapshots g)) h
      /\ forall c0 h0, In (c0, h0) (snapshots g) -> is_match h0 c0 = false
  | Raise e h =>
      collect g = Raise e h
      /\ forall c0 h0, In (c0, h0) (snapshots g) -> is_match h0 c0 = false
  | Diverge => collect g = Diverge
  end.
Proof.
  induction g as [h | e h | | a h k IH]; simpl;
    try (split; [reflexivity | intros ? ? []]); auto.
  destruct (is_match h a) eqn:Ha.
  - exists [], (snapshots (k h)). simpl.
    split; [reflexivity|]. split; [exact Ha | intros ? ? []].
  - specialize (IH h).
    destruct (first_match (k h)) as [[c|] h1 | e h1 |].
    + destruct IH as (before & after & Hs & Hm & Hb).
      exists ((a, h) :: before), after. rewrite Hs. simpl.
      split; [reflexivity|]. split; [exact Hm|].
      intros c0 h0 [[= <- <-]|Hin]; auto.
    + destruct IH as (-> & Hall). split; [reflexivity|].
      intros c0 h0 [[= <- <-]|Hin]; auto.
    + destruct IH as (-> & Hall). split; [reflexivity|].
      intros c0 h0 [[= <- <-]|Hin]; auto.
    + now rewrite IH.
Qed.

Lemma forallb_filter_out (A : Type) (p q : A -> bool) (l : list A) :
  forallb q (filter (fun x => negb (p x)) l) = true ->
  forallb (fun x => p x || q x) l = true.
Proof.
  induction l as [|x l IH]; simpl; auto.
  destruct (p x); simpl; auto.
  intros H. apply andb_true_iff in H. destruct H as (-> & H). auto.
Qed.

Lemma is_match_text (h : Heap) (c : addr) :
  is_match h c = true ->
  only_punctuation_and_space (MatchContext.text (get_context h c)) = true.
Proof.
  unfold is_match.
  destruct (Text.truthy _) eqn:E; [discriminate|]. intros _.
  apply truthy_false, strip_nil_iff in E.
  now apply forallb_filter_out.
Qed.

(** X2.  The function [is_match] returns the first context, in the
    order in which the sentence yields them, for which the property
    [is_match] holds when it is yielded; the text left in that context
    is punctuation and white space only.  It returns [None] only when
    the sentence has yielded all its contexts and none was a match, and
    an error of the matcher comes out of it. *)
Theorem is_match_returns_first_match :
  forall (normalize_text : str -> str) (is_word_char : char -> bool)
         (fuel : nat) (text : str) (sentence : Expression)
         (slot_lists : option (dict SlotList))
         (expansion_rules : option (dict Expression))
         (skip_words : option (list str))
         (intent_context : option (dict Any))
         (ignore_whitespace allow : bool) (h : Heap),
    let g :=
      is_match_contexts normalize_text is_word_char fuel text sentence
        slot_lists expansion_rules skip_words intent_context
        ignore_whitespace allow h in
    match is_match_sentence normalize_text is_word_char fuel text sentence
            slot_lists expansion_rules skip_words intent_context
            ignore_whitespace allow h with
    | Return (Some c) h' =>
        (exists before after,
            snapshots g = before ++ (c, h') :: after
            /\ forall c0 h0, In (c0, h0) before -> is_match h0 c0 = false)
        /\ is_match h' c = true
        /\ only_punctuation_and_space (MatchContext.text (get_context h' c))
           = true
    | Return None h' =>
        collect g = Return (map fst (snapshots g)) h'
        /\ forall c0 h0, In (c0, h0) (snapshots g) -> is_match h0 c0 = false
    | Raise e h' => collect g = Raise e h'
    | Diverge => collect g = Diverge
    end.
Proof.
  intros. unfold is_match_sentence. fold g.
  pose proof (first_match_spec g) as H.
  destruct (first_match g) as [[c|] h' | e h' |]; auto.
  - destruct H as (before & after & Hs & Hm & Hb).
    split; [now exists before, after|]. split; [exact Hm|].
    now apply is_match_text.
  - now destruct H.
Qed.

(** ** The check before matching: required context *)

Lemma dict_mem_get (V : Type) (d : dict V) (k : str) :
  dict_mem d k = match dict_get d k with Some _ => true | None => false end.
Proof. reflexivity. Qed.

(** X3.  Before matching, the loop over [requires_context] keeps the
    intent data exactly when every entry passes: its expected value is
    [None], or its key is not in the intent context, or the value found
    is a member of the expected list, a substring of the expected string
    or equal to the expected scalar.  It raises only [TypeError], and
    only for an expected string whose key holds a value that is no
    string. *)
Theorem requires_before_keeps_iff :
  forall (intent_context items : dict Any),
    (requires_before intent_context items = inr false
     <-> forallb (passes_before intent_context) items = true)
    /\ (forall e,
           requires_before intent_context items = inl e ->
           e = TypeError
           /\ exists key expected actual_value,
                In (key, VStr expected) items
                /\ dict_get intent_context key = Some actual_value
                /\ is_str actual_value = false).
Proof.
  intros intent_context items.
  induction items as [|[key required_value] rest (IHkeep & IHraise)];
    simpl.
  - split; [tauto | discriminate].
  - unfold passes_before at 1. simpl. rewrite dict_mem_get.
    destruct (is_none required_value) eqn:Hnone; simpl.
    { split; [exact IHkeep|].
      intros e He. destruct (IHraise e He) as (-> & k & t & a & Hin & Hk).
      split; [reflexivity|]. exists k, t, a. tauto. }
    destruct (dict_get intent_context key) as [actual_value|] eqn:Hget; simpl.
    2:{ split; [exact IHkeep|].
        intros e He. destruct (IHraise e He) as (-> & k & t & a & Hin & Hk).
        split; [reflexivity|]. exists k, t, a. tauto. }
    destruct required_value as [|n|t|l]; simpl in *; try discriminate.
    + destruct (value_eqb actual_value (VInt n)); simpl.
      * split; [exact IHkeep|].
        intros e He. destruct (IHraise e He) as (-> & k & t & a & Hin & Hk).
        split; [reflexivity|]. exists k, t, a. tauto.
      * split; [split; discriminate | discriminate].
    + destruct actual_value as [|m|s|m]; simpl.
      1,2,4: split; [split; discriminate|];
        intros e [= <-]; split; [reflexivity|];
        eexists key, t, _; split; [now left|]; split; [exact Hget|reflexivity].
      destruct (is_substring s t); simpl.
      * split; [exact IHkeep|].
        intros e He. destruct (IHraise e He) as (-> & k & t' & a & Hin & Hk).
        split; [reflexivity|]. exists k, t', a. tauto.
      * split; [split; discriminate | discriminate].
    + destruct (existsb (value_eqb actual_value) l); simpl.
      * split; [exact IHkeep|].
        intros e He. destruct (IHraise e He) as (-> & k & t & a & Hin & Hk).
        split; [reflexivity|]. exists k, t, a. tauto.
      * split; [split; discriminate | discriminate].
Qed.

(** ** The check after matching: required context *)

(** X4.  After matching, the loop over [requires_context] never rejects
    a context in tolerant mode, and never changes the heap in strict
    mode. *)
Theorem requires_after_modes :
  forall (maybe_match_context : addr) (items : dict Any) (h : Heap),
    fst (requires_after true maybe_match_context items h) = false
    /\ snd (requires_after false maybe_match_context items h) = h.
Proof.
  intros maybe_match_context items.
  induction items as [|[context_key context_value] rest IH]; intros h;
    [split; reflexivity|].
  split.
  - cbn [requires_after]. cbv zeta.
    repeat match goal with
           | |- fst (if ?b then _ else _) = _ => destruct b
           | |- fst (let (_, _) := alloc_unmatched ?h ?e in _) = _ =>
               unfold alloc_unmatched
           end; apply IH.
  - cbn [requires_after]. cbv zeta. rewrite !andb_false_l.
    repeat match goal with
           | |- snd (if ?b then _ else _) = _ => destruct b
           end; try apply IH; reflexivity.
Qed.

(** ** The text handed to the matcher *)

Lemma lstrip_idem (s : str) : Text.lstrip (Text.lstrip s) = Text.lstrip s.
Proof.
  induction s as [|c s IH]; simpl; auto.
  destruct (Text.is_space c) eqn:E; auto. simpl. now rewrite E.
Qed.

Lemma lstrip_snoc (l : str) (c : char) :
  Text.is_space c = false -> Text.lstrip (l ++ [c]) = Text.lstrip l ++ [c].
Proof.
  intros Hc. induction l as [|d l IH]; simpl.
  - now rewrite Hc.
  - destruct (Text.is_space d); auto.
Qed.

Lemma rstrip_cons (c : char) (r : str) :
  Text.is_space c = false -> Text.rstrip (c :: r) = c :: Text.rstrip r.
Proof.
  intros Hc. unfold Text.rstrip. simpl.
  rewrite lstrip_snoc by assumption. rewrite rev_app_distr. reflexivity.
Qed.

Lemma rstrip_idem (s : str) : Text.rstrip (Text.rstrip s) = Text.rstrip s.
Proof.
  unfold Text.rstrip. now rewrite rev_involutive, lstrip_idem.
Qed.

Lemma strip_is_stripped (s : str) :
  Text.lstrip (Text.strip s) = Text.strip s
  /\ Text.rstrip (Text.strip s) = Text.strip s.
Proof.
  unfold Text.strip. split; [|apply rstrip_idem].
  destruct (Text.lstrip s) as [|c r] eqn:E; [reflexivity|].
  pose proof (lstrip_head _ E) as Hc.
  rewrite rstrip_cons by assumption. simpl. now rewrite Hc.
Qed.

Lemma remove_whitespace_clean (s : str) :
  forallb (fun c => negb (Text.is_space c)) (Text.remove_whitespace s) = true.
Proof.
  unfold Text.remove_whitespace.
  induction s as [|c s IH]; simpl; auto.
  destruct (Text.is_space c) eqn:E; simpl; auto. now rewrite E.
Qed.

(** X5.  The text that [recognize_all] hands to the matcher: when white
    space is kept it is a text without white space at either end,
    followed by one space (so it is never empty); when white space is
    ignored it holds no white space character at all. *)
Theorem prepared_text_shape :
  forall (normalize_text : str -> str) (is_word_char : char -> bool)
         (text : str) (intents : Intents.t) (skip_words : option (list str)),
    let prepared :=
      prepare_text normalize_text is_word_char text intents skip_words in
    if Intents.ignore_whitespace intents
    then forallb (fun c => negb (Text.is_space c)) prepared = true
    else exists t,
           prepared = t ++ u " "
           /\ Text.lstrip t = t /\ Text.rstrip t = t.
Proof.
  intros normalize_text is_word_char text intents skip_words prepared.
  subst prepared. unfold prepare_text.
  destruct (Intents.ignore_whitespace intents) eqn:Hws.
  - apply remove_whitespace_clean.
  - eexists. split; [reflexivity|].
    destruct skip_words as [words|]; [|destruct (Intents.skip_words intents)];
      unfold _remove_skip_words; cbn [negb]; apply strip_is_stripped.
Qed.

(** ** The closing pass *)

Lemma get_context_set_context (h : Heap) (a : addr) (c : MatchContext.t) :
  a < length (context_objs h) -> get_context (set_context h a c) a = c.
Proof.
  intros Ha. unfold get_context, set_context; simpl. now apply nth_upd_same.
Qed.

Lemma strip_empty : Text.strip [] = [].
Proof. reflexivity. Qed.

(** X6.  After the closing pass of [recognize_all] (lines 408-420) a
    context that still has text other than white space has neither an
    open unmatched text entity nor an open wildcard at its end: had it
    one, the entity would have taken the text and the context's text
    would be empty. *)
Theorem closing_pass_leaves_nothing_open :
  forall (maybe_match_context : addr) (h : Heap),
    maybe_match_context < length (context_objs h) ->
    let h' := close_at_end maybe_match_context h in
    Text.strip (MatchContext.text (get_context h' maybe_match_context)) <> [] ->
    get_open_entity h' maybe_match_context = None
    /\ get_open_wildcard h' maybe_match_context = None.
Proof.
  intros c h Hc h'. subst h'. unfold close_at_end. cbv zeta.
  destruct (Text.truthy (Text.strip (MatchContext.text (get_context h c))))
    eqn:Htext.
  - destruct (get_open_entity h c) as [a|] eqn:Ha.
    + intros H. exfalso. apply H.
      rewrite get_context_set_context; [reflexivity|].
      destruct (get_unmatched h a); simpl; auto.
    + destruct (get_open_wildcard h c) as [w|] eqn:Hw.
      * intros H. exfalso. apply H.
        rewrite get_context_set_context; [reflexivity|]. simpl. exact Hc.
      * auto.
  - intros H. apply truthy_false in Htext. contradiction.
Qed.

Lemma closing_pass_leaves_nothing_open_witness :
  get_open_entity (close_at_end 0 (heap_with (u "hello ") [])) 0 = None
  /\ get_open_wildcard (close_at_end 0 (heap_with (u "hello ") [])) 0 = None.
Proof.
  apply (@closing_pass_leaves_nothing_open 0 (heap_with (u "hello ") [])).
  - vm_compute. lia.
  - vm_compute. discriminate.
Defined.

(** ** Groups stop at the first item that yields nothing *)

(** X7.  When the first item of a GROUP yields nothing for the input
    context, the GROUP yields nothing and its other items are not
    matched at all, whatever they are: a list or rule that they refer to
    and that does not exist raises no error. *)
Theorem group_stops_at_failed_first_item :
  forall (settings : MatchSettings.t) (fuel : nat) (context : addr)
         (item : Expression) (rest : list Expression) (h h1 : Heap),
    collect (match_expression settings fuel context item h) = Return [] h1 ->
    match_expression settings (S fuel) context (Sequence GROUP (item :: rest)) h
    = GStop h1.
Proof.
  intros settings fuel context item rest h h1 Hitem.
  cbn [match_expression match_group group_loop collect_flat].
  now rewrite Hitem.
Qed.

Lemma group_stops_at_failed_first_item_witness :
  match_expression strict_settings 2 0 on_colour (heap_with (u "off ") [])
  = GStop (heap_with (u "off ") []).
Proof.
  apply (@group_stops_at_failed_first_item strict_settings 1 0
           (TextChunk (u "on "))
           [ListReference (u "colour") (u "colour")]
           (heap_with (u "off ") []) (heap_with (u "off ") [])).
  reflexivity.
Defined.

(** ** Entities by name *)

Lemma by_name_snoc (name_of : addr -> str) (l : list addr) (a : addr) :
  by_name name_of (l ++ [a]) = dict_set (by_name name_of l) (name_of a) a.
Proof.
  unfold by_name. now rewrite fold_left_app.
Qed.

(** X8.  The dictionary [{entity.name: entity for entity in entities}]
    of a result maps a name to the last entity of that name in the
    list, and has no entry for a name that no entity has. *)
Theorem by_name_keeps_last :
  forall (name_of : addr -> str) (l : list addr) (k : str),
    dict_get (by_name name_of l) k
    = find (fun a => Text.eqb (name_of a) k) (rev l).
Proof.
  intros name_of l k. induction l as [|a l IH] using rev_ind.
  - reflexivity.
  - rewrite by_name_snoc, dict_get_set, rev_app_distr. simpl.
    destruct (Text.eqb (name_of a) k); auto.
Qed.

(** ** What a text slot list captures *)

Lemma firstn_prefix (A : Type) (n : nat) (l : list A) :
  exists suffix, l = firstn n l ++ suffix.
Proof. exists (skipn n l). now rewrite firstn_skipn. Qed.

Lemma firstn_consumed (A : Type) (a b : list A) :
  firstn (length (a ++ b) - length b) (a ++ b) = a.
Proof.
  rewrite length_app, Nat.add_sub.
  rewrite firstn_app, Nat.sub_diag, firstn_all. simpl. apply app_nil_r.
Qed.

Lemma slot_value_captured_text (c vc : str) :
  (if Text.truthy vc then Text.slice_to_neg c (length vc) else c)
  = firstn (length c - length vc) c.
Proof.
  unfold Text.slice_to_neg. destruct vc; simpl; auto.
  now rewrite Nat.sub_0_r, firstn_all.
Qed.

Lemma unmatched_text_context_captures_nothing (context : addr)
    (slot_name : str) (h : Heap) :
  mismatch_captures_nothing context slot_name h
    (fst (unmatched_text_context context slot_name h))
    (snd (unmatched_text_context context slot_name h)).
Proof.
  unfold mismatch_captures_nothing, unmatched_text_context. cbv zeta.
  unfold_heap.
  set (l := nth (MatchContext.entities _) (entity_lists h) []).
  set (h2 := mkHeap _ _ _ _ _).
  destruct (close_wildcards_fold_frame l h2) as (Hu & Hel & Hul & Hc & Hlen).
  rewrite Hc, Hel, Hu, Hul.
  cbn [h2 entity_objs unmatched_objs entity_lists unmatched_lists
       context_objs].
  read_context.
  repeat split.
Qed.

(** X9.  A reference to a text slot list, against a context with text
    left, yields one context for every sub-context that matching the
    text of a value yields, value by value in the order of the list, and
    nothing else but the reports of values that did not match.  The
    context yielded for a value holds the entities of the input followed
    by one new entity: its name is the slot name, its value the output
    value of that value, and its text the beginning of the input text,
    as long as the text that matching the value has taken away; when the
    text left is the end of the input text, the entity text is exactly
    what was consumed.  The text of the context is the text that the
    value left.  A report has the text and the entities of the input and
    one new unmatched text entity, open and empty. *)
Theorem text_list_captures_consumed_prefix :
  forall (settings : MatchSettings.t) (fuel : nat) (context : addr)
         (list_name slot_name : str) (values : list TextSlotValue.t)
         (h : Heap),
    dict_get (MatchSettings.slot_lists settings) list_name
      = Some (TextSlotList values) ->
    MatchContext.text (get_context h context) <> [] ->
    value_stream (MatchSettings.allow_unmatched_entities settings)
      (match_expression settings fuel) context
      (capture_yield context slot_name)
      (mismatch_captures_nothing context slot_name)
      values h
      (match_expression settings (S fuel) context
         (ListReference list_name slot_name) h).
Proof.
  intros settings fuel context list_name slot_name values h Hget Htext.
  cbn [match_expression]. unfold match_list_reference.
  rewrite (dict_get_lookup_slot_list _ _ Hget).
  apply truthy_true in Htext. rewrite Htext.
  apply for_slot_values_stream.
  - intros slot_value value_context h0. unfold capture_yield. cbv zeta.
    unfold slot_value_context. rewrite slot_value_captured_text.
    unfold_heap.
    destruct (TextSlotValue.context slot_value) as [[|kv overlay]|];
      unfold_heap; read_context;
      (split; [reflexivity|]; split; [reflexivity|]; split; [reflexivity|];
       split; [apply firstn_prefix|];
       intros consumed ->; apply firstn_consumed).
  - intros h0. apply unmatched_text_context_captures_nothing.
Qed.

Lemma text_list_captures_consumed_prefix_witness :
  value_stream false (match_expression two_lights 1) 0
    (capture_yield 0 (u "name")) (mismatch_captures_nothing 0 (u "name"))
    [bedroom_light; kitchen_light]
    (heap_with (u "kitchen light on ") [])
    (match_expression two_lights 2 0 (ListReference (u "name") (u "name"))
       (heap_with (u "kitchen light on ") [])).
Proof.
  apply (@text_list_captures_consumed_prefix two_lights 1 0
           (u "name") (u "name") [bedroom_light; kitchen_light]
           (heap_with (u "kitchen light on ") [])).
  - reflexivity.
  - vm_compute. discriminate.
Defined.

(** The capture of the value that matched: [{name}] against
    [kitchen light on] yields one context with the text [ on ] left and
    the entity [light.kitchen], whose text is [kitchen light]. *)
Example capture_of_the_matching_value :
  exists c' h',
    collect
      (match_expression two_lights 2 0 (ListReference (u "name") (u "name"))
         (heap_with (u "kitchen light on ") []))
    = Return [c'] h'
    /\ MatchContext.text (get_context h' c') = u " on "
    /\ map (fun a => (MatchEntity.value (get_entity h' a),
                      MatchEntity.text (get_entity h' a)))
           (get_entity_list h' (MatchContext.entities (get_context h' c')))
       = [(VStr (u "light.kitchen"), u "kitchen light")].
Proof. eexists _, _. vm_compute. repeat split. Qed.

(** ** White space in the template when the text is used up *)

Lemma forallb_skipn (A : Type) (p : A -> bool) (n : nat) (l : list A) :
  forallb p l = true -> forallb p (skipn n l) = true.
Proof.
  revert n; induction l as [|x l IH]; intros [|n]; simpl; auto.
  intros H. apply andb_true_iff in H. now apply IH.
Qed.

Lemma forallb_lstrip (s : str) :
  forallb Text.is_space s = true -> Text.lstrip s = [].
Proof. apply lstrip_nil_iff. Qed.

Lemma remove_whitespace_blank (s : str) :
  forallb Text.is_space s = true -> Text.remove_whitespace s = [].
Proof.
  unfold Text.remove_whitespace. induction s as [|c s IH]; simpl; auto.
  intros H. apply andb_true_iff in H. destruct H as (-> & H). simpl. auto.
Qed.

Lemma blank_not_word (s : str) :
  forallb Text.is_space s = true ->
  Text.truthy s && negb (Text.isspace s) = false.
Proof.
  intros H. unfold Text.isspace. rewrite H.
  now destruct (Text.truthy s).
Qed.

Lemma blank_chunk_body (settings : MatchSettings.t)
    (self : addr -> Heap -> Gen addr) (context : addr)
    (chunk_raw chunk_text context_text : str) (h : Heap) :
  forallb Text.is_space chunk_text = true ->
  forallb Text.is_space context_text = true ->
  forallb Text.is_space (MatchContext.text (get_context h context)) = true ->
  exists c' h',
    match get_open_wildcard h context with
    | Some wildcard =>
        if negb (Text.truthy
                   (Text.strip (MatchEntity.text (get_entity h wildcard))))
        then chunk_after_open_wildcard self context wildcard chunk_text
               context_text h
        else chunk_plain settings context chunk_raw chunk_text context_text
               (length (Text.strip context_text) =? 0) (Some wildcard) h
    | None =>
        chunk_plain settings context chunk_raw chunk_text context_text
          (length (Text.strip context_text) =? 0) None h
    end = GYield c' h' GStop
    /\ blank_step h context c' h'.
Proof.
  intros Hchunk Hctx Htext.
  assert (Hplain : forall wildcard,
             exists c' h',
               chunk_plain settings context chunk_raw chunk_text context_text
                 (length (Text.strip context_text) =? 0) wildcard h
               = GYield c' h' GStop
               /\ blank_step h context c' h').
  { intros wildcard. unfold chunk_plain. cbv zeta.
    rewrite (blank_not_word _ Hchunk).
    destruct (Text.startswith context_text chunk_text) eqn:Hstarts.
    - unfold_heap. eexists _, _. split; [reflexivity|].
      unfold blank_step. unfold_heap. read_context.
      split; [now apply forallb_skipn|]. repeat split.
    - assert (Hempty : (length (Text.strip context_text) =? 0) = true).
      { apply strip_nil_iff in Hctx. now rewrite Hctx. }
      assert (Hspace : Text.isspace chunk_text = true).
      { unfold Text.isspace. rewrite Hchunk.
        destruct chunk_text; [|reflexivity].
        now destruct context_text. }
      rewrite Hempty, Hspace. cbn [andb].
      exists context, h. split; [reflexivity|].
      unfold blank_step. repeat split. exact Htext. }
  destruct (get_open_wildcard h context) as [w|]; [|apply Hplain].
  destruct (negb (Text.truthy _)); [|apply Hplain].
  unfold chunk_after_open_wildcard. cbv zeta.
  apply strip_nil_iff in Hchunk. rewrite Hchunk. cbn [Text.truthy negb].
  unfold_heap. eexists _, _. split; [reflexivity|].
  unfold blank_step. unfold_heap. read_context. repeat split. exact Hctx.
Qed.

(** X10.  A chunk of white space in the template never fails when the
    text left is white space only (or empty): it yields exactly one
    context, whose text is still white space only, with the entity
    lists and the intent context of the input, and no entity is closed
    or changed.  So white space at the end of a template does not stand
    in the way of a match. *)
Theorem blank_chunk_on_blank_text :
  forall (settings : MatchSettings.t) (fuel : nat) (context : addr)
         (chunk_raw : str) (h : Heap),
    chunk_raw <> [] ->
    forallb Text.is_space chunk_raw = true ->
    forallb Text.is_space (MatchContext.text (get_context h context)) = true ->
    exists c' h',
      match_expression settings (S fuel) context (TextChunk chunk_raw) h
      = GYield c' h' GStop
      /\ blank_step h context c' h'.
Proof.
  intros settings fuel context chunk_raw h Hne Hchunk Htext.
  cbn [match_expression]. unfold match_text_chunk. cbv zeta.
  assert (Hemp : is_empty chunk_raw = false).
  { unfold is_empty. apply truthy_true in Hne. now rewrite Hne. }
  rewrite Hemp.
  destruct (MatchSettings.ignore_whitespace settings).
  - apply blank_chunk_body; auto;
      rewrite remove_whitespace_blank by assumption; reflexivity.
  - destruct (MatchContext.is_start_of_word (get_context h context)).
    + apply blank_chunk_body; auto;
        rewrite forallb_lstrip by assumption; reflexivity.
    + apply blank_chunk_body; auto.
Qed.

Lemma blank_chunk_on_blank_text_witness :
  exists c' h',
    match_expression strict_settings 1 0 (TextChunk (u " "))
      (heap_with (u " ") []) = GYield c' h' GStop
    /\ blank_step (heap_with (u " ") []) 0 c' h'.
Proof.
  apply (@blank_chunk_on_blank_text strict_settings 0 0 (u " ")
           (heap_with (u " ") [])).
  - discriminate.
  - reflexivity.
  - reflexivity.
Defined.

(** ** A literal that matches *)

Lemma get_entity_close_step (h : Heap) (x a : addr) :
  get_entity (close_wildcard_step h x) a
  = if a =? x then MatchEntity.set_open (get_entity h a) false
    else get_entity h a.
Proof.
  unfold close_wildcard_step, get_entity, set_entity; simpl.
  rewrite nth_upd.
  destruct (Nat.eqb_spec a x) as [->|Hne]; simpl; auto.
  destruct (Nat.ltb_spec x (length (entity_objs h))) as [Hlt|Hge]; auto.
  now rewrite (nth_overflow _ _ Hge).
Qed.

Lemma get_entity_close_fold (l : list addr) (h : Heap) (a : addr) :
  get_entity (fold_left close_wildcard_step l h) a
  = if existsb (Nat.eqb a) l then MatchEntity.set_open (get_entity h a) false
    else get_entity h a.
Proof.
  revert h; induction l as [|x l IH]; intros h; simpl; auto.
  rewrite IH, get_entity_close_step.
  destruct (a =? x); simpl; auto.
  now destruct (existsb (Nat.eqb a) l).
Qed.

Lemma startswith_app (s p : str) :
  Text.startswith s p = true -> s = p ++ skipn (length p) s.
Proof.
  revert s; induction p as [|a p IH]; intros s; simpl; auto.
  destruct s as [|b s]; [discriminate|].
  intros H. apply andb_true_iff in H. destruct H as (Hab & H).
  apply N.eqb_eq in Hab. subst b. simpl. f_equal. auto.
Qed.

Lemma not_blank_is_word (s : str) :
  Text.strip s <> [] -> Text.truthy s && negb (Text.isspace s) = true.
Proof.
  intros H. unfold Text.isspace.
  destruct (forallb Text.is_space s) eqn:E.
  - apply strip_nil_iff in E. contradiction.
  - rewrite andb_false_r. simpl. rewrite andb_true_r.
    destruct s; [now elim H | reflexivity].
Qed.

Lemma rev_head_In (A : Type) (l : list A) (x : A) (r : list A) :
  rev l = x :: r -> In x l.
Proof.
  intros H. apply in_rev. rewrite H. now left.
Qed.

Lemma literal_plain (settings : MatchSettings.t) (context : addr)
    (chunk_raw chunk_text context_text : str) (empty : bool)
    (wildcard : option addr) (h : Heap) :
  Text.startswith context_text chunk_text = true ->
  Text.strip chunk_text <> [] ->
  exists c' h',
    chunk_plain settings context chunk_raw chunk_text context_text empty
      wildcard h = GYield c' h' GStop
    /\ literal_step h context (skipn (length chunk_text) context_text)
         (Text.endswith chunk_raw (u " ")) c' h'.
Proof.
  intros Hstarts Hword. unfold chunk_plain. cbv zeta.
  rewrite Hstarts, (not_blank_is_word _ Hword).
  unfold new_MatchContext, close_wildcards_of, close_unmatched_of,
    alloc_context.
  set (c := get_context h context).
  set (l := get_entity_list h (MatchContext.entities c)).
  set (h1 := fold_left close_wildcard_step l h).
  destruct (close_wildcards_fold_frame l h) as (Hu1 & Hel1 & Hul1 & Hc1 & _).
  fold h1 in Hu1, Hel1, Hul1, Hc1.
  assert (Hm : get_unmatched_list h1 (MatchContext.unmatched_entities c)
               = get_unmatched_list h (MatchContext.unmatched_entities c)).
  { unfold get_unmatched_list. now rewrite Hul1. }
  rewrite Hm.
  set (m := get_unmatched_list h (MatchContext.unmatched_entities c)).
  set (h2 := fold_left close_unmatched_step m h1).
  destruct (close_fold_frame m h1) as (He2 & Hel2 & Hul2 & Hc2).
  fold h2 in He2, Hel2, Hul2, Hc2.
  eexists _, _. split; [reflexivity|].
  assert (Hent : forall a, In a l ->
             get_entity h2 a = MatchEntity.set_open (get_entity h a) false).
  { intros a Ha. unfold get_entity at 1. rewrite He2.
    change (nth a (entity_objs h1) MatchEntity.null) with (get_entity h1 a).
    unfold h1. rewrite get_entity_close_fold.
    now rewrite (existsb_eqb_In _ _ Ha). }
  assert (Hunm : forall a, In a m ->
             get_unmatched h2 a = close_unmatched_entity (get_unmatched h a)).
  { intros a Ha. unfold h2. rewrite get_unmatched_close_fold.
    rewrite (existsb_eqb_In _ _ Ha). unfold get_unmatched. now rewrite Hu1. }
  unfold literal_step. fold c.
  unfold get_context at 1 2 3 4 5. cbn [context_objs fst snd].
  rewrite !nth_alloc.
  cbn [MatchContext.text MatchContext.intent_context MatchContext.entities
       MatchContext.is_start_of_word MatchContext.unmatched_entities].
  split; [reflexivity|]. split; [reflexivity|]. split; [reflexivity|].
  split; [reflexivity|]. split; [reflexivity|].
  split; [exact Hent|]. split; [exact Hunm|].
  split.
  - unfold get_open_wildcard, get_context. cbn [context_objs].
    rewrite nth_alloc. cbn [MatchContext.entities].
    unfold get_entity_list. cbn [entity_lists]. rewrite Hel2, Hel1.
    fold (get_entity_list h (MatchContext.entities c)). fold l.
    destruct (rev l) as [|last_entity r] eqn:Hrev; [reflexivity|].
    apply rev_head_In in Hrev.
    repeat match goal with
           | |- context [get_entity ?H last_entity] =>
               lazymatch H with
               | h2 => fail
               | _ => change (get_entity H last_entity)
                        with (get_entity h2 last_entity)
               end
           end.
    rewrite (Hent _ Hrev). simpl. now rewrite andb_false_r.
  - unfold get_open_entity, get_context. cbn [context_objs].
    rewrite nth_alloc. cbn [MatchContext.unmatched_entities].
    unfold get_unmatched_list. cbn [unmatched_lists]. rewrite Hul2, Hul1.
    fold (get_unmatched_list h (MatchContext.unmatched_entities c)). fold m.
    destruct (rev m) as [|last_entity r] eqn:Hrev; [reflexivity|].
    apply rev_head_In in Hrev.
    repeat match goal with
           | |- context [get_unmatched ?H last_entity] =>
               lazymatch H with
               | h2 => fail
               | _ => change (get_unmatched H last_entity)
                        with (get_unmatched h2 last_entity)
               end
           end.
    rewrite (Hunm _ Hrev). now destruct (get_unmatched h last_entity).
Qed.

(** X11.  When there is no open wildcard without text before it, a
    chunk whose text (with white space removed, or stripped at the start
    of a word, as the settings and the context say) is not blank and
    begins the text it is compared with yields exactly one context: the
    chunk is consumed from the beginning of the compared text, the
    start-of-word flag tells whether the chunk as written ends in a
    space, the lists and the intent context are those of the input, and
    every entity and unmatched text entity of these lists is closed, so
    that none is open in the context yielded. *)
Theorem literal_match_consumes_and_closes :
  forall (settings : MatchSettings.t) (fuel : nat) (context : addr)
         (chunk_raw : str) (h : Heap),
    let c := get_context h context in
    let chunk_text := fst (compared_texts settings c chunk_raw) in
    let context_text := snd (compared_texts settings c chunk_raw) in
    chunk_raw <> [] ->
    match get_open_wildcard h context with
    | Some w => Text.strip (MatchEntity.text (get_entity h w)) <> []
    | None => True
    end ->
    Text.startswith context_text chunk_text = true ->
    Text.strip chunk_text <> [] ->
    exists c' h' rest,
      match_expression settings (S fuel) context (TextChunk chunk_raw) h
      = GYield c' h' GStop
      /\ context_text = chunk_text ++ rest
      /\ literal_step h context rest (Text.endswith chunk_raw (u " ")) c' h'.
Proof.
  intros settings fuel context chunk_raw h c chunk_text context_text
    Hne Hwild Hstarts Hword.
  cbn [match_expression]. unfold match_text_chunk. cbv zeta.
  assert (Hemp : is_empty chunk_raw = false).
  { unfold is_empty. apply truthy_true in Hne. now rewrite Hne. }
  rewrite Hemp.
  assert (Hbody : forall empty self,
             exists c' h',
               match get_open_wildcard h context with
               | Some wildcard =>
                   if negb (Text.truthy
                              (Text.strip
                                 (MatchEntity.text (get_entity h wildcard))))
                   then chunk_after_open_wildcard self context wildcard
                          chunk_text context_text h
                   else chunk_plain settings context chunk_raw chunk_text
                          context_text empty (Some wildcard) h
               | None =>
                   chunk_plain settings context chunk_raw chunk_text
                     context_text empty None h
               end = GYield c' h' GStop
               /\ literal_step h context
                    (skipn (length chunk_text) context_text)
                    (Text.endswith chunk_raw (u " ")) c' h').
  { intros empty self.
    destruct (get_open_wildcard h context) as [w|].
    - apply truthy_true in Hwild. rewrite Hwild. cbn [negb].
      now apply literal_plain.
    - now apply literal_plain. }
  assert (Hrest : context_text
                  = chunk_text ++ skipn (length chunk_text) context_text)
    by now apply startswith_app.
  subst chunk_text context_text c. unfold compared_texts in *.
  destruct (MatchSettings.ignore_whitespace settings);
    [|destruct (MatchContext.is_start_of_word (get_context h context))];
    cbn [fst snd] in *;
    (edestruct Hbody as (c' & h' & Hrun & Hstep);
     exists c', h'; eexists; split; [exact Hrun|];
     split; [exact Hrest | exact Hstep]).
Qed.

Lemma literal_match_consumes_and_closes_witness :
  exists c' h' rest,
    match_expression strict_settings 1 (fst name_matched)
      (TextChunk (u " on ")) (snd name_matched) = GYield c' h' GStop
    /\ u "on " = u "on " ++ rest
    /\ literal_step (snd name_matched) (fst name_matched) rest true c' h'.
Proof.
  apply (@literal_match_consumes_and_closes strict_settings 0
           (fst name_matched) (u " on ") (snd name_matched)).
  - discriminate.
  - exact I.
  - reflexivity.
  - vm_compute. discriminate.
Defined.

(** ** Fixed slots *)

(** X12.  The fixed slots of the intent data are added for exactly the
    slot names that no entity of the context has, in the order of the
    slots: each as a new entity with the slot's value and empty text,
    appended to the entity list of the context.  The entities that were
    there, the other lists, the unmatched entities and the contexts stay
    as they are, so a captured entity is never replaced by a fixed
    slot. *)
Theorem fixed_slots_fill_missing_names :
  forall (entity_names : list str) (entities : addr) (slots : dict Any)
         (h : Heap),
    entities < length (entity_lists h) ->
    let h' := add_fixed_entities entity_names entities slots h in
    let missing := missing_slots entity_names slots in
    entity_objs h' = entity_objs h ++ map fixed_entity missing
    /\ get_entity_list h' entities
       = get_entity_list h entities
         ++ seq (length (entity_objs h)) (length missing)
    /\ (forall l, l <> entities -> get_entity_list h' l = get_entity_list h l)
    /\ unmatched_objs h' = unmatched_objs h
    /\ unmatched_lists h' = unmatched_lists h
    /\ context_objs h' = context_objs h.
Proof.
  intros entity_names entities slots.
  induction slots as [|[slot_name slot_value] rest IH]; intros h Hvalid;
    cbn [add_fixed_entities missing_slots filter fst].
  - cbn. rewrite !app_nil_r. repeat split.
  - destruct (existsb (Text.eqb slot_name) entity_names); cbn [negb].
    + apply IH. exact Hvalid.
    + unfold alloc_entity.
      set (h1 := mkHeap (entity_objs h ++ _) _ _ _ _).
      set (h2 := set_entity_list h1 entities _).
      assert (Hvalid2 : entities < length (entity_lists h2)).
      { unfold h2, set_entity_list; simpl. now rewrite length_upd. }
      destruct (IH h2 Hvalid2) as (Hobjs & Hlist & Hother & Hu & Hul & Hc).
      fold (missing_slots entity_names rest) in *.
      split; [|split; [|split]].
      * rewrite Hobjs. unfold h2, h1; simpl. now rewrite <- app_assoc.
      * rewrite Hlist. unfold h2 at 1, get_entity_list at 1, set_entity_list.
        cbn [entity_lists]. rewrite nth_upd_same by exact Hvalid.
        unfold h2, h1; cbn [set_entity_list entity_objs].
        rewrite length_app. simpl. rewrite <- app_assoc. simpl.
        now rewrite Nat.add_1_r.
      * intros l Hl. rewrite (Hother l Hl).
        unfold h2, get_entity_list, set_entity_list. cbn [entity_lists].
        now rewrite nth_upd_other.
      * rewrite Hu, Hul, Hc. repeat split.
Qed.

Lemma fixed_slots_fill_missing_names_witness :
  entity_objs
    (add_fixed_entities [u "name"] 0
       [(u "name", VStr (u "x")); (u "domain", VStr (u "light"))]
       (heap_with (u "hello ") []))
  = [fixed_entity (u "domain", VStr (u "light"))].
Proof.
  destruct (@fixed_slots_fill_missing_names [u "name"] 0
              [(u "name", VStr (u "x")); (u "domain", VStr (u "light"))]
              (heap_with (u "hello ") [])) as (H & _).
  - vm_compute. lia.
  - exact H.
Defined.

(** ** The results of [recognize_all] *)

Lemma is_match_filled (h : Heap) (c : addr) :
  is_match h c = true ->
  wildcards_filled h (MatchContext.entities (get_context h c))
  /\ unmatched_filled h (MatchContext.unmatched_entities (get_context h c)).
Proof.
  unfold is_match.
  destruct (Text.truthy _); [discriminate|].
  match goal with
  | |- (if ?e then _ else _) = _ -> _ => destruct e eqn:Hent
  end; [discriminate|].
  match goal with
  | |- (if ?e then _ else _) = _ -> _ => destruct e eqn:Hun
  end; [discriminate|].
  intros _. split.
  - intros a Hin Hw Hempty.
    apply (existsb_false_In _ _ _ Hent) in Hin.
    cbv beta zeta in Hin. rewrite Hw, Hempty in Hin. discriminate.
  - intros a n t o Hin Hget Hempty.
    apply (existsb_false_In _ _ _ Hun) in Hin.
    cbv beta in Hin. rewrite Hget, Hempty in Hin. discriminate.
Qed.

Lemma get_list_after_append (lists : list (list addr)) (U : addr)
    (extra : list addr) (a : addr) :
  In a (nth U (upd lists U (nth U lists [] ++ extra)) []) ->
  In a (nth U lists []) \/ In a extra.
Proof.
  rewrite nth_upd, Nat.eqb_refl. simpl.
  destruct (U <? length lists); [apply in_app_or | auto].
Qed.

Lemma unmatched_filled_placeholder (h : Heap) (U : addr) (key : str) :
  unmatched_filled h U ->
  unmatched_filled
    (set_unmatched_list
       (snd (alloc_unmatched h (UnmatchedTextEntity key MISSING_ENTITY false)))
       U (get_unmatched_list h U
          ++ [fst (alloc_unmatched h
                     (UnmatchedTextEntity key MISSING_ENTITY false))]))
    U.
Proof.
  intros Hfilled a n t o Hin Hget.
  unfold get_unmatched_list, set_unmatched_list, alloc_unmatched in Hin.
  cbn [unmatched_lists fst snd] in Hin.
  apply get_list_after_append in Hin.
  unfold get_unmatched, set_unmatched_list, alloc_unmatched in Hget.
  cbn [unmatched_objs fst snd] in Hget.
  destruct (Nat.lt_trichotomy a (length (unmatched_objs h))) as [Hlt|[->|Hgt]].
  - rewrite nth_before_alloc in Hget by exact Hlt.
    destruct Hin as [Hin|[<-|[]]]; [|lia].
    now apply (Hfilled a n t o).
  - rewrite nth_alloc in Hget. injection Hget as <- <- <-.
    vm_compute. discriminate.
  - rewrite nth_overflow in Hget; [discriminate|].
    rewrite length_app. simpl. lia.
Qed.

Lemma requires_after_filled (allow : bool) (mc : addr) (items : dict Any) :
  forall h,
    let r := requires_after allow mc items h in
    context_objs (snd r) = context_objs h
    /\ entity_objs (snd r) = entity_objs h
    /\ entity_lists (snd r) = entity_lists h
    /\ (unmatched_filled h (MatchContext.unmatched_entities (get_context h mc)) ->
        unmatched_filled (snd r)
          (MatchContext.unmatched_entities (get_context h mc))).
Proof.
  induction items as [|[context_key context_value] rest IH]; intros h.
  - cbn. auto.
  - cbn [requires_after]. cbv zeta.
    repeat match goal with
           | |- context_objs (snd (if ?b then _ else _)) = _ /\ _ =>
               destruct b
           end; try apply IH; try (cbn; auto; fail).
    set (U := MatchContext.unmatched_entities (get_context h mc)).
    pose proof (@unmatched_filled_placeholder h U context_key) as Hstep.
    unfold alloc_unmatched in *. cbn [fst snd] in *.
    match goal with
    | |- context [requires_after _ mc rest ?h2] =>
        specialize (IH h2); set (hh := h2) in *
    end.
    cbv zeta in IH. destruct IH as (Hc & He & Hel & Hf).
    assert (HU : MatchContext.unmatched_entities (get_context hh mc) = U)
      by reflexivity.
    rewrite HU in Hf.
    rewrite Hc, He, Hel. repeat split. auto.
Qed.

Lemma add_fixed_entities_filled (names : list str) (E : addr)
    (slots : dict Any) :
  forall h,
    let h' := add_fixed_entities names E slots h in
    context_objs h' = context_objs h
    /\ unmatched_objs h' = unmatched_objs h
    /\ unmatched_lists h' = unmatched_lists h
    /\ (wildcards_filled h E -> wildcards_filled h' E).
Proof.
  induction slots as [|[slot_name slot_value] rest IH]; intros h.
  - cbn. auto.
  - cbn [add_fixed_entities]. cbv zeta.
    destruct (existsb (Text.eqb slot_name) names); [apply IH|].
    unfold alloc_entity.
    match goal with
    | |- context [add_fixed_entities names E rest ?h2] =>
        specialize (IH h2); set (hh := h2) in *
    end.
    cbv zeta in IH. destruct IH as (Hc & Hu & Hul & Hf).
    rewrite Hc, Hu, Hul. repeat split.
    intros Hfilled. apply Hf. clear Hf.
    intros a Hin Hw.
    unfold hh, get_entity_list, set_entity_list in Hin.
    cbn [entity_lists] in Hin. apply get_list_after_append in Hin.
    unfold hh, get_entity, set_entity_list in Hw |- *.
    cbn [entity_objs] in Hw |- *.
    destruct (Nat.lt_trichotomy a (length (entity_objs h))) as [Hlt|[->|Hgt]].
    + rewrite nth_before_alloc in Hw |- * by exact Hlt.
      destruct Hin as [Hin|[<-|[]]]; [|lia].
      now apply Hfilled.
    + rewrite nth_alloc in Hw. discriminate.
    + rewrite nth_overflow in Hw; [discriminate|].
      rewrite length_app. simpl. lia.
Qed.

Lemma check_match_filled (default_response : option str) (allow : bool)
    (intent : Intent.t) (intent_data : IntentData.t) (mc : addr) (h : Heap)
    (r : RecognizeResult.t) (h' : Heap) :
  check_match default_response allow intent intent_data mc h = (Some r, h') ->
  result_filled r h'.
Proof.
  unfold check_match. cbv zeta.
  set (h1 := close_at_end mc h).
  destruct (is_match h1 mc) eqn:Hmatch; [|discriminate]. cbn [negb].
  destruct (is_match_filled _ _ Hmatch) as (Hw & Hu).
  set (skip := if dict_truthy (IntentData.excludes_context intent_data)
               then _ else false).
  assert (Hreq : exists b h2,
             (if negb skip && dict_truthy (IntentData.requires_context intent_data)
              then requires_after allow mc
                     (IntentData.requires_context intent_data) h1
              else (skip, h1)) = (b, h2)
             /\ context_objs h2 = context_objs h1
             /\ entity_objs h2 = entity_objs h1
             /\ entity_lists h2 = entity_lists h1
             /\ unmatched_filled h2
                  (MatchContext.unmatched_entities (get_context h1 mc))).
  { destruct (negb skip && dict_truthy (IntentData.requires_context intent_data)).
    - pose proof (requires_after_filled allow mc
                    (IntentData.requires_context intent_data) h1) as H.
      cbv zeta in H.
      destruct (requires_after allow mc _ h1) as [b h2]. simpl in H.
      exists b, h2. destruct H as (Hc & He & Hel & Hf). auto 6.
    - exists skip, h1. auto 6. }
  destruct Hreq as (b & h2 & -> & Hc2 & He2 & Hel2 & Hu2).
  destruct b; [discriminate|].
  assert (Hctx : get_context h2 mc = get_context h1 mc).
  { unfold get_context. now rewrite Hc2. }
  rewrite Hctx.
  set (c := get_context h1 mc) in *.
  set (names := map _ _).
  pose proof (add_fixed_entities_filled names (MatchContext.entities c)
                (IntentData.slots intent_data) h2) as Hfix.
  cbv zeta in Hfix. destruct Hfix as (Hc3 & Hu3 & Hul3 & Hf3).
  intros [= <- <-]. unfold result_filled. cbn.
  split.
  - apply Hf3. intros a Hin Hwild.
    unfold get_entity_list in Hin. unfold get_entity in Hwild |- *.
    rewrite Hel2 in Hin. rewrite He2 in Hwild |- *. now apply Hw.
  - intros a n t o Hin Hget.
    unfold get_unmatched_list in Hin. unfold get_unmatched in Hget.
    rewrite Hul3 in Hin. rewrite Hu3 in Hget. now apply (Hu2 a n t o).
Qed.

Lemma for_match_contexts_each (P : RecognizeResult.t -> Heap -> Prop)
    (default_response : option str) (allow : bool) (intent : Intent.t)
    (intent_data : IntentData.t) (rest : Heap -> Gen RecognizeResult.t) :
  (forall mc h r h',
      check_match default_response allow intent intent_data mc h = (Some r, h') ->
      P r h') ->
  (forall h, each_yield P (rest h)) ->
  forall g,
    each_yield P
      (for_match_contexts default_response allow intent intent_data g rest).
Proof.
  intros Hcheck Hrest. induction g as [h | e h | | mc h k IH]; simpl; auto.
  - constructor.
  - constructor.
  - destruct (check_match default_response allow intent intent_data mc h)
      as [[r|] h1] eqn:E.
    + constructor; [eapply Hcheck; eauto | intros; apply IH].
    + apply IH.
Qed.

Lemma for_sentences_filled (fuel : nat) (text : str) (ic : dict Any)
    (default_response : option str) (allow : bool)
    (local_settings : MatchSettings.t) (intent : Intent.t)
    (intent_data : IntentData.t) (rest : Heap -> Gen RecognizeResult.t) :
  (forall h, each_yield result_filled (rest h)) ->
  forall sentences h,
    each_yield result_filled
      (for_sentences fuel text ic default_response allow local_settings
         intent intent_data sentences rest h).
Proof.
  intros Hrest. induction sentences as [|sentence more IH]; intros h;
    cbn [for_sentences]; [apply Hrest|].
  destruct (initial_context text ic h) as [match_context h1].
  apply for_match_contexts_each.
  - intros mc h0 r h' Hcheck. eapply check_match_filled; eauto.
  - intros h'. apply IH.
Qed.

Lemma for_intent_data_filled (fuel : nat) (text : str) (ic : dict Any)
    (default_response : option str) (allow : bool)
    (settings : MatchSettings.t) (intent : Intent.t)
    (rest : Heap -> Gen RecognizeResult.t) :
  (forall h, each_yield result_filled (rest h)) ->
  forall data h,
    each_yield result_filled
      (for_intent_data fuel text ic default_response allow settings intent
         data rest h).
Proof.
  intros Hrest. induction data as [|intent_data more IH]; intros h;
    cbn [for_intent_data]; [apply Hrest|].
  destruct (if dict_truthy ic then skip_before_match ic intent_data
            else inr false) as [e|[|]]; [constructor | apply IH |].
  apply for_sentences_filled. intros h'. apply IH.
Qed.

Lemma for_intents_filled (fuel : nat) (text : str) (ic : dict Any)
    (default_response : option str) (allow : bool)
    (settings : MatchSettings.t) :
  forall intents h,
    each_yield result_filled
      (for_intents fuel text ic default_response allow settings intents h).
Proof.
  induction intents as [|[key intent] more IH]; intros h;
    cbn [for_intents]; [constructor|].
  apply for_intent_data_filled. intros h'. apply IH.
Qed.

(** X13.  Every result that [recognize_all] yields has, when it is
    yielded, no wildcard entity with blank text in its list of entities
    and no unmatched text entity with blank text in its list of
    unmatched entities: neither the placeholders for missing context
    nor the fixed slots added after the match break what the match
    test has checked. *)
Theorem results_have_no_blank_captures :
  forall (normalize_text : str -> str) (is_word_char : char -> bool)
         (fuel : nat) (text : str) (intents : Intents.t)
         (slot_lists : option (dict SlotList))
         (expansion_rules : option (dict Expression))
         (skip_words : option (list str))
         (intent_context : option (dict Any))
         (default_response : option str) (allow : bool) (h : Heap),
    each_yield result_filled
      (recognize_all normalize_text is_word_char fuel text intents slot_lists
         expansion_rules skip_words intent_context default_response allow h).
Proof.
  intros. unfold recognize_all. apply for_intents_filled.
Qed.

(** ** Templates without references *)

Lemma find_le (sub s : str) (i : nat) :
  Text.find s sub = Some i -> i <= length s.
Proof.
  revert i; induction s as [|c s IH]; intros i; cbn [Text.find].
  - destruct (Text.startswith [] sub); [|discriminate].
    intros [= <-]. simpl. lia.
  - destruct (Text.startswith (c :: s) sub).
    + intros [= <-]. lia.
    + destruct (Text.find s sub) as [j|]; [|discriminate].
      intros [= <-]. specialize (IH j eq_refl). simpl. lia.
Qed.

Lemma find_from_bounds (s sub : str) (start j : nat) :
  Text.find_from s sub start = Some j -> start <= j <= length s.
Proof.
  unfold Text.find_from.
  destruct (Nat.ltb_spec (length s) start) as [|Hle]; [discriminate|].
  destruct (Text.find (skipn start s) sub) as [i|] eqn:E; [|discriminate].
  intros [= <-]. apply find_le in E. rewrite length_skipn in E. lia.
Qed.

Lemma yield_from_completes (A : Type) (g : Gen A) (rest : Heap -> Gen A) :
  completes g ->
  (forall h, completes (rest h)) ->
  completes (yield_from g rest).
Proof.
  intros Hg Hrest. induction Hg as [h | a h k Hk IH]; simpl; auto.
  constructor. auto.
Qed.

Lemma yield_each_completes (A : Type) (l : list A) :
  forall h, completes (yield_each l h).
Proof.
  induction l as [|a l IH]; intros h; simpl; constructor; auto.
Qed.

Lemma collect_returns (A : Type) (g : Gen A) :
  completes g -> returns (collect g).
Proof.
  intros Hg. induction Hg as [h | a h k Hk IH]; simpl; auto.
  specialize (IH h). now destruct (collect (k h)).
Qed.

Lemma collect_flat_returns (A B : Type) (f : A -> Heap -> Gen B) (l : list A) :
  (forall a h, completes (f a h)) ->
  forall h, returns (collect_flat f l h).
Proof.
  intros Hf. induction l as [|a l IH]; intros h; simpl; auto.
  pose proof (collect_returns (Hf a h)) as H1.
  destruct (collect (f a h)) as [l1 h1 | e h1 |]; simpl in *; auto.
  specialize (IH h1). now destruct (collect_flat f l h1).
Qed.

Lemma match_alternative_completes (recur : Expression -> Heap -> Gen addr)
    (items : list Expression) :
  (forall item, In item items -> forall h, completes (recur item h)) ->
  forall h, completes (match_alternative recur items h).
Proof.
  induction items as [|item rest IH]; intros Hrecur h; simpl.
  - constructor.
  - apply yield_from_completes.
    + apply Hrecur. now left.
    + intros h'. apply IH. intros i Hi. apply Hrecur. now right.
Qed.

Lemma group_loop_returns (recur : addr -> Expression -> Heap -> Gen addr)
    (items : list Expression) :
  (forall item, In item items ->
                forall c h, completes (recur c item h)) ->
  forall candidates h, returns (group_loop recur items candidates h).
Proof.
  induction items as [|item rest IH]; intros Hrecur candidates h; simpl; auto.
  pose proof (@collect_flat_returns _ _ (fun gc => recur gc item) candidates
                (fun c h => Hrecur item (or_introl eq_refl) c h) h) as H1.
  destruct (collect_flat _ candidates h) as [[|c cs] h1 | e h1 |];
    simpl in *; auto.
  all: try (apply IH; intros i Hi; apply Hrecur; now right).
Qed.

Lemma match_group_completes (recur : addr -> Expression -> Heap -> Gen addr)
    (context : addr) (items : list Expression) (h : Heap) :
  (forall item, In item items ->
                forall c h, completes (recur c item h)) ->
  completes (match_group recur context items h).
Proof.
  intros Hrecur. unfold match_group.
  destruct items as [|item rest]; [constructor|].
  pose proof (@group_loop_returns recur (item :: rest) Hrecur [context] h) as H.
  destruct (group_loop recur (item :: rest) [context] h) as [l h1|e h1|];
    simpl in H; [apply yield_each_completes | contradiction | contradiction].
Qed.

Lemma chunk_plain_completes (settings : MatchSettings.t) (context : addr)
    (chunk_raw chunk_text context_text : str) (empty : bool)
    (wildcard : option addr) (h : Heap) :
  completes
    (chunk_plain settings context chunk_raw chunk_text context_text empty
       wildcard h).
Proof.
  unfold chunk_plain. cbv zeta.
  repeat match goal with
         | |- completes (GStop _) => constructor
         | |- completes (GYield _ _ _) => constructor; intros
         | |- completes (if ?b then _ else _) => destruct b
         | |- completes (let (_, _) := new_MatchContext ?h ?t ?e ?i ?s ?m ?cw ?cu in _) =>
             destruct (new_MatchContext h t e i s m cw cu)
         | |- completes (match ?x with Some _ => _ | None => _ end) =>
             destruct x
         | |- completes (match ?x with
                              | UnmatchedTextEntity _ _ _ => _
                              | UnmatchedRangeEntity _ _ => _
                              end) => destruct x
         | |- completes (let '(_, _) := ?x in _) => destruct x
         end.
Qed.

(** The context that a wildcard split makes has no open wildcard. *)
Lemma split_context_closed (h : Heap) (name wildcard_text rest_text : str)
    (old : list addr) (ic : dict Any) (unmatched : addr) :
  let e := alloc_entity h
             (MatchEntity.mk name (VStr wildcard_text) wildcard_text false true) in
  let l := alloc_entity_list (snd e) (removelast old ++ [fst e]) in
  let c := new_MatchContext (snd l) rest_text (fst l) ic true unmatched
             false false in
  get_open_wildcard (snd c) (fst c) = None.
Proof.
  cbv zeta. unfold get_open_wildcard. unfold_heap. read_context.
  rewrite rev_app_distr. cbn [rev app]. rewrite nth_alloc. reflexivity.
Qed.

Lemma wildcard_splits_completes (self : addr -> Heap -> Gen addr)
    (context wildcard : addr) (chunk_text context_text : str) :
  (forall c h, get_open_wildcard h c = None -> completes (self c h)) ->
  forall budget start_idx h,
    match start_idx with
    | Some (S i) =>
        S i <= length context_text /\ length context_text < budget + S i
    | _ => True
    end ->
    completes
      (wildcard_splits budget self context wildcard chunk_text context_text
         start_idx h).
Proof.
  intros Hself. induction budget as [|budget IH]; intros [[|i]|] h Hbound;
    cbn [wildcard_splits]; try (constructor; fail); try lia.
  cbv zeta.
  pose proof (split_context_closed h
                (MatchEntity.name (get_entity h wildcard))
                (Text.slice_to context_text (S i))
                (Text.slice_from context_text (S i))
                (get_entity_list h (MatchContext.entities (get_context h context)))
                (MatchContext.intent_context (get_context h context))
                (MatchContext.unmatched_entities (get_context h context)))
    as Hclosed.
  cbv zeta in Hclosed.
  unfold alloc_entity, alloc_entity_list, new_MatchContext, alloc_context.
  cbv beta iota zeta.
  apply yield_from_completes; [apply Hself; exact Hclosed|].
  intros h'. apply IH.
  destruct (Text.find_from context_text chunk_text (S i + 1)) as [[|j]|] eqn:E;
    auto.
  apply find_from_bounds in E. lia.
Qed.

Lemma match_text_chunk_completes (settings : MatchSettings.t)
    (self : addr -> Heap -> Gen addr) (context : addr) (chunk_raw : str)
    (h : Heap) :
  (get_open_wildcard h context = None
   \/ forall c h, get_open_wildcard h c = None -> completes (self c h)) ->
  completes (match_text_chunk settings self context chunk_raw h).
Proof.
  intros Hself. unfold match_text_chunk. cbv zeta.
  assert (Hany : forall chunk_text context_text empty,
             completes
               (if is_empty chunk_raw then GYield context h GStop
                else
                  match get_open_wildcard h context with
                  | Some wildcard =>
                      if negb (Text.truthy
                                 (Text.strip
                                    (MatchEntity.text (get_entity h wildcard))))
                      then chunk_after_open_wildcard self context wildcard
                             chunk_text context_text h
                      else chunk_plain settings context chunk_raw chunk_text
                             context_text empty (Some wildcard) h
                  | None =>
                      chunk_plain settings context chunk_raw chunk_text
                        context_text empty None h
                  end)).
  { intros chunk_text context_text empty.
    destruct (is_empty chunk_raw); [constructor; intros; constructor|].
    destruct (get_open_wildcard h context) as [w|] eqn:Ew;
      [|apply chunk_plain_completes].
    destruct Hself as [Hnone|Hself]; [discriminate|].
    destruct (negb _); [|apply chunk_plain_completes].
    unfold chunk_after_open_wildcard. cbv zeta.
    destruct (negb _).
    - destruct (new_MatchContext _ _ _ _ _ _ _ _).
      constructor. intros. constructor.
    - apply wildcard_splits_completes; [exact Hself|].
      destruct (Text.find context_text chunk_text) as [[|i]|] eqn:E; auto.
      + destruct (Text.find_from context_text chunk_text 1) as [[|j]|] eqn:F;
          auto.
        apply find_from_bounds in F. lia.
      + apply find_le in E. lia. }
  destruct (MatchSettings.ignore_whitespace settings); [apply Hany|].
  destruct (MatchContext.is_start_of_word (get_context h context));
    apply Hany.
Qed.

Lemma depth_item (ty : SequenceType) (items : list Expression)
    (item : Expression) :
  In item items -> depth item < depth (Sequence ty items).
Proof.
  cbn [depth]. induction items as [|x l IH]; simpl; [tauto|].
  intros [->|Hin]; [lia|]. specialize (IH Hin). lia.
Qed.

Lemma match_expression_completes (settings : MatchSettings.t) (fuel : nat) :
  forall (expression : Expression),
    reference_free expression = true ->
    depth expression + 2 <= fuel ->
    forall context h,
      completes (match_expression settings fuel context expression h).
Proof.
  induction fuel as [|fuel IH]; intros expression Hfree Hdepth context h;
    [lia|].
  cbn [match_expression].
  destruct expression as [text | ty items | list_name slot_name | rule_name];
    try discriminate.
  - apply match_text_chunk_completes. right.
    intros c h' Hnone.
    destruct fuel as [|fuel']; [simpl in Hdepth; lia|].
    cbn [match_expression].
    apply match_text_chunk_completes. now left.
  - assert (Hitems : forall item, In item items ->
                       forall c h, completes
                                     (match_expression settings fuel c item h)).
    { intros item Hin c h'. apply IH.
      - cbn [reference_free] in Hfree.
        rewrite forallb_forall in Hfree. now apply Hfree.
      - pose proof (depth_item ty _ _ Hin). lia. }
    destruct ty.
    + now apply match_group_completes.
    + apply match_alternative_completes. intros item Hin h'.
      now apply Hitems.
Qed.

(** X14.  Matching an expression made of text chunks and sequences only
    always comes to an end and raises nothing, whatever the context and
    the heap, also when the consumer changes the heap between two
    contexts: the recursion is never deeper than the nesting of the
    expression plus two, and the loop over the places where a wildcard
    may end runs no longer than the text is long.  So the contexts of
    such an expression can always be listed. *)
Theorem reference_free_matching_completes :
  forall (settings : MatchSettings.t) (fuel : nat) (expression : Expression)
         (context : addr) (h : Heap),
    reference_free expression = true ->
    depth expression + 2 <= fuel ->
    completes (match_expression settings fuel context expression h)
    /\ exists contexts h',
         collect (match_expression settings fuel context expression h)
         = Return contexts h'.
Proof.
  intros settings fuel expression context h Hfree Hdepth.
  pose proof (@match_expression_completes settings fuel expression Hfree
                Hdepth context h) as Hc.
  split; [exact Hc|].
  apply collect_returns in Hc.
  destruct (collect _) as [l h' | |]; simpl in Hc; try contradiction.
  now exists l, h'.
Qed.

Lemma reference_free_matching_completes_witness :
  completes (match_expression tolerant_settings 3 0 foo_or_bar
               (heap_with (u "foo bar ") []))
  /\ exists contexts h',
       collect (match_expression tolerant_settings 3 0 foo_or_bar
                  (heap_with (u "foo bar ") []))
       = Return contexts h'.
Proof.
  apply (@reference_free_matching_completes tolerant_settings 3 foo_or_bar 0
           (heap_with (u "foo bar ") [])).
  - reflexivity.
  - vm_compute. lia.
Defined.

(** ** Skip words that do not occur *)

Lemma find_none (s w : str) :
  Text.find s w = None ->
  Text.startswith s w = false
  /\ match s with
     | [] => True
     | _ :: r => Text.find r w = None
     end.
Proof.
  destruct s as [|c r]; cbn [Text.find].
  - destruct (Text.startswith [] w); [discriminate | auto].
  - destruct (Text.startswith (c :: r) w); [discriminate|].
    destruct (Text.find r w); [discriminate | auto].
Qed.

Lemma replace_remove_absent (word : str) :
  forall budget text,
    Text.find text word = None -> replace_remove budget text word = text.
Proof.
  induction budget as [|budget IH]; intros [|c r] Hfind;
    cbn [replace_remove]; auto.
  destruct (find_none _ _ Hfind) as (Hstarts & Htail).
  rewrite Hstarts, andb_false_r. f_equal. now apply IH.
Qed.

Lemma sub_word_absent (is_word_char : char -> bool) (word : str) :
  forall budget before text,
    Text.find text word = None ->
    sub_word is_word_char budget before text word = text.
Proof.
  induction budget as [|budget IH]; intros before [|c r] Hfind;
    cbn [sub_word]; auto.
  destruct (find_none _ _ Hfind) as (Hstarts & Htail).
  rewrite Hstarts, andb_false_r. cbn [andb]. f_equal. now apply IH.
Qed.

Lemma insert_by_len_In (w x : str) (l : list str) :
  In x (insert_by_len w l) -> x = w \/ In x l.
Proof.
  induction l as [|y l IH]; simpl.
  - intros [<-|[]]. now left.
  - destruct (length y <=? length w); simpl.
    + intros [<-|[<-|H]]; auto.
    + intros [<-|H]; auto. destruct (IH H); auto.
Qed.

Lemma sorted_by_len_In (x : str) (l : list str) :
  In x (sorted_by_len l) -> In x l.
Proof.
  unfold sorted_by_len. induction l as [|w l IH]; simpl; auto.
  intros H. apply insert_by_len_In in H. destruct H as [->|H]; auto.
Qed.

(** X15.  When none of the skip words, once normalised, occurs in the
    text, [_remove_skip_words] removes nothing: with white space
    ignored it returns the text as it is, and otherwise the text with
    its white space normalised and stripped. *)
Theorem absent_skip_words_remove_nothing :
  forall (normalize_text : str -> str) (is_word_char : char -> bool)
         (text : str) (skip_words : list str) (ignore_whitespace : bool),
    (forall w, In w skip_words ->
               is_substring (normalize_text w) text = false) ->
    _remove_skip_words normalize_text is_word_char text skip_words
      ignore_whitespace
    = if ignore_whitespace then text
      else Text.strip (normalize_whitespace text).
Proof.
  intros normalize_text is_word_char text skip_words ignore_whitespace Habsent.
  unfold _remove_skip_words. cbv zeta.
  assert (Hfold :
            fold_left
              (fun text0 skip_word =>
                 if ignore_whitespace
                 then replace_remove (length text0) text0
                        (normalize_text skip_word)
                 else sub_word is_word_char (length text0) None text0
                        (normalize_text skip_word))
              (sorted_by_len skip_words) text = text).
  { assert (Hsorted : forall w, In w (sorted_by_len skip_words) ->
                                Text.find text (normalize_text w) = None).
    { intros w Hin. apply sorted_by_len_In, Habsent in Hin.
      unfold is_substring in Hin.
      now destruct (Text.find text (normalize_text w)). }
    induction (sorted_by_len skip_words) as [|w ws IH]; simpl; auto.
    assert (Hw : Text.find text (normalize_text w) = None)
      by (apply Hsorted; now left).
    destruct ignore_whitespace.
    - rewrite replace_remove_absent by exact Hw.
      apply IH. intros x Hx. apply Hsorted. now right.
    - rewrite sub_word_absent by exact Hw.
      apply IH. intros x Hx. apply Hsorted. now right. }
  rewrite Hfold. now destruct ignore_whitespace.
Qed.

Lemma absent_skip_words_remove_nothing_witness :
  _remove_skip_words ascii_normalize_text ascii_is_word_char
    (u "turn  on the light") [u "please"; u "now"] false
  = Text.strip (normalize_whitespace (u "turn  on the light")).
Proof.
  apply (@absent_skip_words_remove_nothing ascii_normalize_text
           ascii_is_word_char (u "turn  on the light")
           [u "please"; u "now"] false).
  intros w [<-|[<-|[]]]; reflexivity.
Defined.
